(** * GameplayReplication: replication graph routing and rewind history

    A shallow embedding of the decision logic of
    [Source/GameplayReplication/Private/GameplayReplicationGraph.cpp]
    (class routing, streaming-level gated always-relevant lists, the player
    state frequency limiter) and of [URewindableComponent] (the per-actor
    frame history with time-indexed lookup).

    Conventions.
    - Pointers that the code tests against [nullptr] are [option]s.
    - Operations that can dereference a null pointer, fail an engine [check]
      or divide by zero return a [result]; everything else is a total
      function.
    - World times are IEEE 754 binary64 values and the [float] locals and
      members are binary32 values, both as the Standard Library's
      [SpecFloat] specifies them: operations round to nearest even, a
      conversion from [double] to [float] rounds, and infinities, NaN and
      signed zeros are values like the others.  Box coordinates, which the
      code only copies and hands to the engine, are rationals.
    - Engine containers ([TArray], [TMap], [TDoubleLinkedList],
      [FActorRepListRefView]) are lists and finite maps.  Other engine
      functions whose bodies are not part of this plugin are Section
      variables.
    - The server build is modelled ([WITH_SERVER_CODE]); [UE_CLOG] display
      lines are left out, [Warning] lines are kept where a result is logged. *)

From Stdlib Require Import QArith Lqa ZArith List Bool Lia Sorted Permutation SpecFloat.
From stdpp Require Import base option list gmap strings.
Import ListNotations.

(** ** Outcomes of operations that may stop the process *)

Inductive fault : Type :=
| NullDereference   (* a member access through a null pointer *)
| CheckFailed       (* an engine [check]/[FindChecked] assertion *)
| DivideByZero.     (* integer [%] with a zero divisor *)

Inductive result (A : Type) : Type :=
| Ok (a : A)
| Crash (f : fault).

Arguments Ok {A} a.
Arguments Crash {A} f.

Definition bind {A B : Type} (r : result A) (k : A -> result B) : result B :=
  match r with
  | Ok a => k a
  | Crash f => Crash f
  end.

Notation "'let*' x := r 'in' k" := (bind r (fun x => k))
  (at level 10, x name, r at level 100, k at level 200).

Definition returns {A : Type} (r : result A) : Prop :=
  match r with Ok _ => True | Crash _ => False end.

(** ** The tick counter *)

(** [ReplicationFrameNum] is a [uint32]: it wraps around. *)
Definition uint32_modulus : Z := 2 ^ 32.

Definition to_uint32 (z : Z) : Z := (z mod uint32_modulus)%Z.

Definition next_frame (ReplicationFrameNum : Z) : Z :=
  to_uint32 (ReplicationFrameNum + 1).

(** ** Warnings written to [LogGameRepGraph] *)

Inductive LogLine : Type :=
| Warning_AlwaysRelevantInSpatializedNode (Class : string)
| Warning_NotFoundInStreamingLevelList (Actor : nat) (LevelName : string)
| Warning_EmptyRepList.

(** ** URewindableComponent *)

Module Rewind.

Local Open Scope Q_scope.

(** *** Floating point *)

(** [double] is binary64 and [float] is binary32; a value of either type is
    a [spec_float]. *)
Abbreviation double := spec_float (only parsing).
Abbreviation float := spec_float (only parsing).

Definition Double_zero : double := S754_zero false.
Definition Double_one : double := SFone 53 1024.
Definition Float_zero : float := S754_zero false.
Definition Float_one : float := SFone 24 128.

(** [x - y] and [x / y] on [double] operands. *)
Definition Double_sub (x y : double) : double := SFsub 53 1024 x y.
Definition Double_div (x y : double) : double := SFdiv 53 1024 x y.

(** The conversion of a [double] to [float], as in [const float f = d;]:
    the nearest binary32 value, ties to even, infinity beyond the range. *)
Definition to_float (x : double) : float :=
  match x with
  | S754_finite s m e => binary_round 24 128 s m e
  | _ => x
  end.

(** The promotion of a [float] operand to [double]; it is exact. *)
Definition to_double (x : float) : double :=
  match x with
  | S754_finite s m e => binary_round 53 1024 s m e
  | _ => x
  end.

(** [x > y]. *)
Definition SFgtb (x y : spec_float) : bool := SFltb y x.

(** The value of an integer in a format. *)
Definition SF_of_Z (prec emax : Z) (z : Z) : spec_float :=
  binary_normalize prec emax z 0 false.

(** The [double] a decimal literal denotes: the quotient of numerator and
    denominator, correctly rounded. *)
Definition double_of (q : Q) : double :=
  SFdiv 53 1024 (SF_of_Z 53 1024 (Qnum q)) (SF_of_Z 53 1024 (Zpos (Qden q))).

(** The [float] a decimal literal with suffix [f] denotes. *)
Definition float_of (q : Q) : float :=
  SFdiv 24 128 (SF_of_Z 24 128 (Qnum q)) (SF_of_Z 24 128 (Zpos (Qden q))).

(** The rational a finite value stands for (0 for the others). *)
Definition SF2Q (x : spec_float) : Q :=
  match x with
  | S754_finite s m e => inject_Z (cond_Zopp s (Zpos m)) * Qpower 2 e
  | _ => 0
  end.

Definition Qgt_bool (x y : Q) : bool := negb (Qle_bool x y).

(** *** The component *)

Record FVector : Type := { VecX : Q; VecY : Q; VecZ : Q }.

Definition FVector_Zero : FVector := {| VecX := 0; VecY := 0; VecZ := 0 |}.

Record FBox : Type := { Min : FVector; Max : FVector; IsValid : bool }.

(** [FBox(ForceInit)]: both corners zeroed, validity flag cleared. *)
Definition FBox_ForceInit : FBox :=
  {| Min := FVector_Zero; Max := FVector_Zero; IsValid := false |}.

Record FFramePackage : Type :=
  { HitBox : FBox; bTeleported : bool; Time : double }.

(** The default constructor [FFramePackage()]. *)
Definition FFramePackage_default : FFramePackage :=
  {| HitBox := FBox_ForceInit; bTeleported := false; Time := Double_zero |}.

(** [FFramePackage::IsValid]: [Time > 0.0]. *)
Definition FFramePackage_IsValid (p : FFramePackage) : bool :=
  SFgtb (Time p) Double_zero.

(** What the component reads from its owning actor. *)
Record AActor : Type :=
  { HasAuthority : bool; ComponentsBoundingBox : FBox }.

(** [FrameHistory] is a [TDoubleLinkedList]: the list below starts at
    [GetHead()] and follows [GetNextNode()] down to [GetTail()].
    [MaxRecordTime] is a [float] member. *)
Record URewindableComponent : Type :=
  { Owner : option AActor;
    bJustTeleported : bool;
    FrameHistory : list FFramePackage;
    MaxRecordTime : float }.

Definition with_history (c : URewindableComponent) (h : list FFramePackage)
  : URewindableComponent :=
  {| Owner := Owner c; bJustTeleported := bJustTeleported c;
     FrameHistory := h; MaxRecordTime := MaxRecordTime c |}.

Definition with_owner (c : URewindableComponent) (o : option AActor)
  : URewindableComponent :=
  {| Owner := o; bJustTeleported := bJustTeleported c;
     FrameHistory := FrameHistory c; MaxRecordTime := MaxRecordTime c |}.

(** [UpdateFramePackage(FFramePackage&, bool)]: fills [Package] from the owner
    and the world clock [TimeSeconds]; leaves it alone without authority. *)
Definition UpdateFramePackage_fill (c : URewindableComponent) (TimeSeconds : double)
    (Package : FFramePackage) (bInTeleported : bool) : result FFramePackage :=
  match Owner c with
  | None => Crash NullDereference
  | Some o =>
      if negb (HasAuthority o) then Ok Package
      else Ok {| HitBox := ComponentsBoundingBox o;
                 bTeleported := bInTeleported;
                 Time := TimeSeconds |}
  end.

(** [float HistoryLength = Head.Time - Tail.Time]: the difference of the two
    [double] times, converted to [float]. *)
Definition HistoryLength (hd tl : FFramePackage) : float :=
  to_float (Double_sub (Time hd) (Time tl)).

(** The clean-up loop of [UpdateFramePackage(bool)]:
    [HistoryLength = Head.Time - Tail.Time; while (HistoryLength > MaxRecordTime)
    { RemoveNode(GetTail()); HistoryLength = Head.Time - Tail.Time; }].
    [n] counts the nodes of [h] (it is called with [n = length h]); each turn
    removes one node, and on an empty list [GetHead()] is null. *)
Fixpoint CleanUpOldFrames (n : nat) (MaxRecord : float) (h : list FFramePackage)
  : result (list FFramePackage) :=
  match n with
  | O => Crash NullDereference
  | S n' =>
      match head h, last h with
      | Some hd, Some tl =>
          if SFgtb (HistoryLength hd tl) MaxRecord
          then CleanUpOldFrames n' MaxRecord (removelast h)
          else Ok h
      | _, _ => Crash NullDereference
      end
  end.

(** [UpdateFramePackage(bool)]. *)
Definition UpdateFramePackage (c : URewindableComponent) (TimeSeconds : double)
    (bInTeleported : bool) : result URewindableComponent :=
  match Owner c with
  | None => Crash NullDereference
  | Some o =>
      if negb (HasAuthority o) then Ok c
      else if (length (FrameHistory c) <=? 1)%nat then
        let* ThisFrame := UpdateFramePackage_fill c TimeSeconds FFramePackage_default bInTeleported in
        Ok (with_history c (ThisFrame :: FrameHistory c))
      else
        let* kept := CleanUpOldFrames (length (FrameHistory c)) (MaxRecordTime c) (FrameHistory c) in
        let* ThisFrame := UpdateFramePackage_fill c TimeSeconds FFramePackage_default bInTeleported in
        Ok (with_history c (ThisFrame :: kept))
  end.

(** [TickComponent]: record on the authority, then clear the teleport flag. *)
Definition TickComponent (c : URewindableComponent) (TimeSeconds : double)
  : result URewindableComponent :=
  match Owner c with
  | None => Crash NullDereference
  | Some o =>
      if HasAuthority o then
        let* c' := UpdateFramePackage c TimeSeconds (bJustTeleported c) in
        Ok {| Owner := Owner c'; bJustTeleported := false;
              FrameHistory := FrameHistory c'; MaxRecordTime := MaxRecordTime c' |}
      else Ok c
  end.

(** [FMath::Clamp(X, Min, Max)] with a [double] and two [float]s: the
    operands are promoted to [double] and the result is
    [X < Min ? Min : X < Max ? X : Max], so a NaN is clamped to [Max]. *)
Definition FMath_Clamp (x lo hi : double) : double :=
  if SFgtb lo x then lo else if SFgtb hi x then x else hi.

(** The search loop of [GetFramePackage]: [Older] walks from the head towards
    the tail while its time is above [InTime]; [Younger] follows as long as
    the node just reached is still above [InTime].  [rest] holds the nodes
    after [Older]; an empty [rest] is [GetNextNode() == nullptr]. *)
Fixpoint MarchBack (InTime : double) (Older Younger : FFramePackage)
    (rest : list FFramePackage) {struct rest} : FFramePackage * FFramePackage :=
  if SFgtb (Time Older) InTime then
    match rest with
    | [] => (Older, Younger)
    | nxt :: rest' =>
        MarchBack InTime nxt
          (if SFgtb (Time nxt) InTime then nxt else Younger) rest'
    end
  else (Older, Younger).

(** A second reading of the record operation, following the words of the
    specification (push first, then evict while the span from the new head
    to the tail exceeds the bound, never below one entry); the span and the
    bound are compared as the numbers they stand for. *)
Fixpoint evict_per_spec (n : nat) (MaxRecord : Q) (h : list FFramePackage)
  : list FFramePackage :=
  match n with
  | O => h
  | S n' =>
      match head h, last h with
      | Some hd, Some tl =>
          if (Qgt_bool (SF2Q (Time hd) - SF2Q (Time tl)) MaxRecord
              && (1 <? length h)%nat)%bool
          then evict_per_spec n' MaxRecord (removelast h)
          else h
      | _, _ => h
      end
  end.

Definition record_per_spec (MaxRecord : Q) (h : list FFramePackage)
    (snapshot : FFramePackage) : list FFramePackage :=
  if (length h <=? 1)%nat then snapshot :: h
  else evict_per_spec (S (length h)) MaxRecord (snapshot :: h).

(** The history is time ordered when times do not increase from the head to
    the tail. *)
Definition TimeOrdered (h : list FFramePackage) : Prop :=
  StronglySorted (fun younger older => SFleb (Time older) (Time younger) = true) h.

(** The time of a snapshot as [GetFramePackage] compares it: stored in a
    [const float] local and promoted again for the comparison with the
    [double] query time. *)
Definition Narrowed (p : FFramePackage) : double := to_double (to_float (Time p)).

Section WithEngine.

(** [FMath::VInterpTo(Current, Target, DeltaTime, InterpSpeed)]; the last
    two parameters are [float]s. *)
Variable VInterpTo : FVector -> FVector -> float -> float -> FVector.

(** [InterpBetweenFrames(A, B, Time)]. *)
Definition InterpBetweenFrames (A B : FFramePackage) (T : double) : FFramePackage :=
  let Distance := to_float (Double_sub (Time B) (Time A)) in
  let InterpFraction :=
    to_float (FMath_Clamp (Double_div (Double_sub T (Time A)) (to_double Distance))
                (to_double Float_zero) (to_double Float_one)) in
  let InterpFramePackage := FFramePackage_default in
  {| HitBox :=
       {| Min := VInterpTo (Min (HitBox A)) (Min (HitBox B)) Float_one InterpFraction;
          Max := VInterpTo (Max (HitBox A)) (Max (HitBox B)) Float_one InterpFraction;
          IsValid := IsValid (HitBox InterpFramePackage) |};
     bTeleported := bTeleported A || bTeleported B;
     Time := T |}.

(** [GetFramePackage(InTime)].  The pairs [s0] .. [s3] are the values of
    [(FrameToCheck, bShouldInterpolate)] after the declaration and after each
    of the three conditional assignments. *)
Definition GetFramePackage (c : URewindableComponent) (InTime : double) : FFramePackage :=
  match Owner c, head (FrameHistory c), last (FrameHistory c) with
  | Some _, Some hd, Some tl =>
      let OldestHistoryTime := to_float (Time tl) in
      let NewestHistoryTime := to_float (Time hd) in
      if SFgtb (to_double OldestHistoryTime) InTime then FFramePackage_default
      else
        let s0 := (FFramePackage_default, true) in
        let s1 := if SFeqb (to_double OldestHistoryTime) InTime then (tl, false) else s0 in
        let s2 := if SFleb (to_double NewestHistoryTime) InTime then (hd, false) else s1 in
        let '(Older, Younger) := MarchBack InTime hd hd (tail (FrameHistory c)) in
        let s3 := if SFeqb (Time Older) InTime then (Older, false) else s2 in
        if snd s3 then InterpBetweenFrames Older Younger InTime else fst s3
  | _, _, _ => FFramePackage_default
  end.

End WithEngine.

(** The point a fraction [a] of the way from [Current] to [Target]. *)
Definition Lerp (Current Target : FVector) (a : Q) : FVector :=
  {| VecX := VecX Current + (VecX Target - VecX Current) * a;
     VecY := VecY Current + (VecY Target - VecY Current) * a;
     VecZ := VecZ Current + (VecZ Target - VecZ Current) * a |}.

(** Modelled from the spec: [FMath::VInterpTo] is an engine function; the
    specification says position-like fields interpolate linearly by the
    interpolation fraction, so this instance moves from [Current] towards
    [Target] by the fraction [DeltaTime * InterpSpeed]. *)
Definition VInterpTo_linear (Current Target : FVector) (DeltaTime InterpSpeed : float)
  : FVector :=
  Lerp Current Target (SF2Q DeltaTime * SF2Q InterpSpeed).


(** One server tick of an authoritative owner at world time [t], with the
    owner's bounds at [box] and no teleport. *)
Definition record_at (r : result URewindableComponent) (t : double) (box : FBox)
  : result URewindableComponent :=
  let* c := r in
  UpdateFramePackage
    (with_owner c (Some {| HasAuthority := true; ComponentsBoundingBox := box |}))
    t false.

Definition point_box (x : Q) : FBox :=
  {| Min := {| VecX := x; VecY := 0; VecZ := 0 |};
     Max := {| VecX := x; VecY := 0; VecZ := 0 |};
     IsValid := true |}.

Definition fresh_component (MaxRecord : float) : URewindableComponent :=
  {| Owner := Some {| HasAuthority := true; ComponentsBoundingBox := point_box 0 |};
     bJustTeleported := false; FrameHistory := []; MaxRecordTime := MaxRecord |}.

Definition history_of (r : result URewindableComponent) : list FFramePackage :=
  match r with Ok c => FrameHistory c | Crash _ => [] end.

(** The interpolation fraction used between a bracketing pair: the quotient
    is formed in [double], with the distance of the pair converted to
    [float] first, and the clamped quotient is converted to [float]. *)
Definition InterpFraction (older younger : FFramePackage) (t : double) : float :=
  to_float
    (FMath_Clamp
       (Double_div (Double_sub t (Time older))
          (to_double (to_float (Double_sub (Time younger) (Time older)))))
       Double_zero Double_one).

(** Histories used as concrete scenarios; [MaxRecordTime] is the header's
    [0.8f]. *)
Definition recorded_0_05 : result URewindableComponent :=
  record_at (record_at (Ok (fresh_component (float_of 0.8))) (double_of 0) (point_box 0))
    (double_of 0.5) (point_box 0).

Definition recorded_0_05_10_15 : result URewindableComponent :=
  record_at (record_at recorded_0_05 (double_of 1) (point_box 0))
    (double_of 1.5) (point_box 0).

Definition recorded_x_0_10_20 : result URewindableComponent :=
  record_at (record_at (record_at (Ok (fresh_component (float_of 0.8)))
                          (double_of 0) (point_box 0))
               (double_of 0.2) (point_box 10))
    (double_of 0.4) (point_box 20).




(** The first [double] above [0.8f]: [0.8f + 2^-26] is a [double] that is
    nearer to [0.8f] than to the next [float]. *)
Definition just_above_bound : double :=
  SFadd 53 1024 (to_double (float_of 0.8)) (S754_finite false 1 (-26)).

Definition recorded_0_bound : result URewindableComponent :=
  record_at (record_at (Ok (fresh_component (float_of 0.8))) (double_of 0) (point_box 0))
    just_above_bound (point_box 0).

Definition component_of (r : result URewindableComponent) : URewindableComponent :=
  match r with Ok c => c | Crash _ => fresh_component Float_zero end.

(** *** Comparisons *)

(** The comparison of [SpecFloat] orders the values lexicographically by
    sign, exponent and mantissa, with the zeros equal, the infinities at the
    ends and NaN unordered; the facts below follow from that alone. *)

Ltac sf_cases :=
  repeat match goal with
    | x : spec_float |- _ => destruct x as [[|]|[|]| |[|] ? ?]
    end;
  cbn [SFcompare SFltb SFleb SFeqb CompOpp].

Ltac sf_arith :=
  repeat match goal with
    | |- context [Z.compare ?a ?b] => destruct (Z.compare_spec a b)
    | |- context [PosDef.Pos.compare_cont Eq ?a ?b] =>
        change (PosDef.Pos.compare_cont Eq a b) with (Pos.compare a b);
        destruct (Pos.compare_spec a b)
    | |- context [Pos.compare ?a ?b] => destruct (Pos.compare_spec a b)
    end;
  cbn [CompOpp]; intros;
  repeat match goal with |- _ /\ _ => split end;
  try discriminate; try reflexivity; try congruence; try lia.

Ltac sf_order := unfold SFgtb, SFltb, SFleb, SFeqb; sf_cases; sf_arith.

Lemma SFltb_irrefl a : SFltb a a = false.
Proof. sf_order. Qed.


Lemma SFltb_not_leb a b : SFltb a b = true -> SFleb b a = false.
Proof. sf_order. Qed.

Lemma SFleb_not_ltb a b : SFleb a b = true -> SFltb b a = false.
Proof. sf_order. Qed.

Lemma SFltb_leb a b : SFltb a b = true -> SFleb a b = true.
Proof. sf_order. Qed.


Lemma SFeqb_leb a b : SFeqb a b = true -> SFleb a b = true /\ SFleb b a = true.
Proof. sf_order. Qed.

Lemma SFleb_total a b :
  SFeqb a a = true -> SFeqb b b = true -> SFltb a b = false -> SFleb b a = true.
Proof. sf_order. Qed.

(** A value that takes part in a comparison that holds is not NaN. *)
Lemma SFleb_ordered a b : SFleb a b = true -> SFeqb a a = true /\ SFeqb b b = true.
Proof. sf_order. Qed.

Lemma SFltb_ordered a b : SFltb a b = true -> SFeqb a a = true /\ SFeqb b b = true.
Proof. sf_order. Qed.

Lemma SFeqb_ordered a b : SFeqb a b = true -> SFeqb a a = true /\ SFeqb b b = true.
Proof. sf_order. Qed.

Lemma SFleb_trans a b c : SFleb a b = true -> SFleb b c = true -> SFleb a c = true.
Proof. sf_order. Qed.

Lemma SFltb_leb_trans a b c : SFltb a b = true -> SFleb b c = true -> SFltb a c = true.
Proof. sf_order. Qed.

Lemma SFleb_ltb_trans a b c : SFleb a b = true -> SFltb b c = true -> SFltb a c = true.
Proof. sf_order. Qed.

(** *** The clean-up loop *)

Lemma removelast_snoc {A} (l : list A) (x : A) : removelast (l ++ [x]) = l.
Proof. apply removelast_last. Qed.

(** The difference of a [double] with itself is [+0.0], or NaN for an
    infinity or NaN. *)
Lemma Double_sub_self (x : double) :
  Double_sub x x = S754_zero false \/ Double_sub x x = S754_nan.
Proof.
  destruct x as [[|]|[|]| |s m e]; try (cbn; auto; fail).
  left. unfold Double_sub, SFsub. rewrite Z.min_id. unfold shl_align.
  rewrite Z.sub_diag. cbn [fst]. rewrite ?Z.sub_diag. reflexivity.
Qed.

(** One node alone never exceeds a bound that is not negative. *)
Lemma HistoryLength_self (x : FFramePackage) (MaxRecord : float) :
  SFleb Float_zero MaxRecord = true -> SFgtb (HistoryLength x x) MaxRecord = false.
Proof.
  intros H. unfold HistoryLength, SFgtb.
  destruct (Double_sub_self (Time x)) as [-> | ->]; cbn [to_float].
  - now apply SFleb_not_ltb.
  - destruct MaxRecord as [[|]|[|]| |[|] ? ?]; reflexivity.
Qed.

Lemma CleanUpOldFrames_spec (MaxRecord : float) :
  SFleb Float_zero MaxRecord = true ->
  forall h hd, head h = Some hd ->
  exists kept evicted tl,
    CleanUpOldFrames (length h) MaxRecord h = Ok kept /\
    h = kept ++ evicted /\
    head kept = Some hd /\
    last kept = Some tl /\
    SFgtb (HistoryLength hd tl) MaxRecord = false /\
    Forall (fun e => SFgtb (HistoryLength hd e) MaxRecord = true) evicted.
Proof.
  intros Hmax h. induction h as [|x h' IH] using rev_ind; intros hd Hhd.
  - discriminate.
  - rewrite length_app, Nat.add_comm. cbn [length Nat.add CleanUpOldFrames].
    rewrite Hhd, last_snoc.
    destruct (SFgtb (HistoryLength hd x) MaxRecord) eqn:E.
    + rewrite removelast_snoc.
      destruct h' as [|y h''].
      * cbn in Hhd. inversion Hhd; subst.
        rewrite (HistoryLength_self hd MaxRecord Hmax) in E. discriminate.
      * cbn in Hhd. inversion Hhd; subst.
        destruct (IH hd eq_refl) as (kept & evicted & tl & Hrun & Hsplit & Hk & Hl & Hle & Hall).
        exists kept, (evicted ++ [x]), tl. repeat split; try assumption.
        -- rewrite Hsplit at 1. now rewrite <- app_assoc.
        -- apply Forall_app. split; [assumption|].
           constructor; [exact E | constructor].
    + exists (h' ++ [x]), [], x. repeat split.
      * now rewrite app_nil_r.
      * assumption.
      * apply last_snoc.
      * exact E.
      * constructor.
Qed.


Lemma TimeOrdered_prefix kept evicted :
  TimeOrdered (kept ++ evicted) -> TimeOrdered kept.
Proof.
  unfold TimeOrdered. induction kept as [|x kept IH]; intros H; [constructor|].
  cbn in H. apply StronglySorted_inv in H as [Hs Hall].
  constructor; [now apply IH|].
  apply Forall_app in Hall. tauto.
Qed.

(** Recording under a clock that does not run backwards keeps the history
    time ordered. *)
Lemma UpdateFramePackage_TimeOrdered c now tp c' :
  SFleb Float_zero (MaxRecordTime c) = true ->
  TimeOrdered (FrameHistory c) ->
  (forall hd, head (FrameHistory c) = Some hd -> SFleb (Time hd) now = true) ->
  UpdateFramePackage c now tp = Ok c' ->
  TimeOrdered (FrameHistory c').
Proof.
  intros Hmax Hs Hclock. unfold UpdateFramePackage, UpdateFramePackage_fill.
  destruct (Owner c) as [o|]; [|discriminate].
  destruct (HasAuthority o); cbn [negb].
  2:{ intros H. inversion H; subst. assumption. }
  assert (Hpush : forall kept evicted snap,
             FrameHistory c = kept ++ evicted -> Time snap = now ->
             (kept = [] -> evicted = []) ->
             TimeOrdered (snap :: kept)).
  { intros kept evicted snap Hsplit Hsnap Hne.
    constructor.
    - apply (TimeOrdered_prefix kept evicted). now rewrite <- Hsplit.
    - destruct kept as [|k kept']; [constructor|].
      rewrite Hsplit in Hs, Hclock. cbn in Hs, Hclock.
      specialize (Hclock k eq_refl).
      apply StronglySorted_inv in Hs as [_ Hall].
      apply Forall_app in Hall as [Hall _].
      rewrite Hsnap. constructor; [assumption|].
      eapply List.Forall_impl; [|exact Hall]. cbn. intros a Ha.
      now apply (SFleb_trans _ (Time k)). }
  destruct (length (FrameHistory c) <=? 1)%nat eqn:Elen.
  - cbn. intros H. inversion H; subst. cbn.
    apply (Hpush (FrameHistory c) []); [now rewrite app_nil_r | reflexivity | tauto].
  - apply Nat.leb_gt in Elen.
    destruct (FrameHistory c) as [|hd rest] eqn:Eh; [cbn in Elen; lia|].
    destruct (CleanUpOldFrames_spec (MaxRecordTime c) Hmax (hd :: rest) hd eq_refl)
      as (kept & evicted & tl & Hrun & Hsplit & Hk & Hl & Hle & Hall).
    rewrite Hrun. cbn. intros H. inversion H; subst. cbn.
    apply (Hpush kept evicted); [assumption | reflexivity |].
    intros ->. discriminate.
Qed.

(** The test of the clean-up loop is made on the span as a [float]: with
    entries at 0 and at the first [double] above [0.8f] the span is above
    [MaxRecordTime = 0.8f] as a number, its conversion to [float] is
    [0.8f] itself, and the loop removes nothing. *)
Lemma CleanUpOldFrames_tests_the_float_span :
  map Time (history_of recorded_0_bound) = [just_above_bound; double_of 0] /\
  SFgtb (Double_sub just_above_bound (double_of 0)) (to_double (float_of 0.8)) = true /\
  to_float (Double_sub just_above_bound (double_of 0)) = float_of 0.8 /\
  CleanUpOldFrames 2 (float_of 0.8) (history_of recorded_0_bound)
    = Ok (history_of recorded_0_bound).
Proof. repeat split; vm_compute; reflexivity. Qed.

(** *** The search loop *)

Lemma MarchBack_stop t O Y rest :
  SFgtb (Time O) t = false -> MarchBack t O Y rest = (O, Y).
Proof. intros H. destruct rest; cbn; now rewrite H. Qed.

Lemma MarchBack_bracket t :
  forall rest x,
    SFgtb (Time x) t = true ->
    Exists (fun y => SFgtb (Time y) t = false) rest ->
    exists pre younger older post,
      x :: rest = pre ++ younger :: older :: post /\
      Forall (fun y => SFgtb (Time y) t = true) pre /\
      SFgtb (Time younger) t = true /\
      SFgtb (Time older) t = false /\
      MarchBack t x x rest = (older, younger).
Proof.
  induction rest as [|a rest IH]; intros x Hx Hex.
  - inversion Hex.
  - cbn [MarchBack]. rewrite Hx.
    destruct (SFgtb (Time a) t) eqn:Ea.
    + assert (Hex' : Exists (fun y => SFgtb (Time y) t = false) rest).
      { inversion Hex; subst; [congruence | assumption]. }
      destruct (IH a Ea Hex') as (pre & y & o & post & Hsplit & Hpre & Hy & Ho & Hrun).
      exists (x :: pre), y, o, post. repeat split; try assumption.
      * cbn. now rewrite Hsplit.
      * now constructor.
    + rewrite (MarchBack_stop t a x rest Ea).
      exists [], x, a, rest. repeat split; try assumption. constructor.
Qed.


(** [InterpBetweenFrames] on one and the same frame divides by a zero
    distance: above the frame's time the quotient is [+inf], at the frame's
    time it is NaN, and [FMath::Clamp] takes both to [1.f]. *)
Lemma InterpFraction_of_one_frame :
  let hd := {| HitBox := point_box 20; bTeleported := false; Time := double_of 0.4 |} in
  Double_div (Double_sub (double_of 0.5) (Time hd))
    (to_double (to_float (Double_sub (Time hd) (Time hd)))) = S754_infinity false /\
  InterpFraction hd hd (double_of 0.5) = Float_one /\
  Double_div (Double_sub (Time hd) (Time hd))
    (to_double (to_float (Double_sub (Time hd) (Time hd)))) = S754_nan /\
  InterpFraction hd hd (Time hd) = Float_one.
Proof. repeat split; vm_compute; reflexivity. Qed.



(** *** Recording *)

(** C2 (as the code has it).  On the authority, with a [MaxRecordTime] that
    is not negative, a record never fails.  With at most one entry the
    snapshot is pushed to the head.  Otherwise entries are first evicted from
    the tail while the span from the current head to the tail, converted to
    [float], exceeds [MaxRecordTime] (every evicted entry exceeded it, the
    tail that is kept does not, the head is always kept), and only then is
    the snapshot pushed: the new snapshot takes no part in the eviction test.
    With [MaxRecordTime = 0.8f], recording at 0.0, 0.5, 1.0, 1.5 leaves the
    entries at 1.5, 1.0, 0.5: the entry at 0.0 is gone and the buffer is not
    empty. *)
Theorem UpdateFramePackage_evicts_before_push :
  (forall c o now tp,
      Owner c = Some o -> HasAuthority o = true ->
      SFleb Float_zero (MaxRecordTime c) = true ->
      exists kept evicted,
        UpdateFramePackage c now tp =
          Ok (with_history c
                ({| HitBox := ComponentsBoundingBox o; bTeleported := tp; Time := now |}
                   :: kept)) /\
        FrameHistory c = kept ++ evicted /\
        ((length (FrameHistory c) <= 1)%nat -> evicted = []) /\
        (forall hd, head (FrameHistory c) = Some hd ->
           head kept = Some hd /\
           Forall (fun e => SFgtb (HistoryLength hd e) (MaxRecordTime c) = true) evicted /\
           exists tl, last kept = Some tl /\
             ((2 <= length (FrameHistory c))%nat ->
              SFgtb (HistoryLength hd tl) (MaxRecordTime c) = false)))
  /\ map Time (history_of recorded_0_05_10_15)
       = [double_of 1.5; double_of 1; double_of 0.5].
Proof.
  split; [|vm_compute; reflexivity].
  intros c o now tp Ho Hauth Hmax.
  unfold UpdateFramePackage, UpdateFramePackage_fill. rewrite Ho, Hauth. cbn [negb].
  destruct (length (FrameHistory c) <=? 1)%nat eqn:Elen.
  - exists (FrameHistory c), []. cbn [bind]. repeat split.
    + now rewrite app_nil_r.
    + assumption.
    + constructor.
    + apply Nat.leb_le in Elen.
      destruct (FrameHistory c) as [|x [|y r]] eqn:Eh; try discriminate.
      * exists x. split; [reflexivity|]. cbn. lia.
      * cbn in Elen. lia.
  - apply Nat.leb_gt in Elen.
    destruct (FrameHistory c) as [|hd rest] eqn:Eh; [cbn in Elen; lia|].
    destruct (CleanUpOldFrames_spec (MaxRecordTime c) Hmax (hd :: rest) hd eq_refl)
      as (kept & evicted & tl & Hrun & Hsplit & Hk & Hl & Hle & Hall).
    exists kept, evicted. rewrite Hrun. cbn [bind]. repeat split.
    + assumption.
    + intros Hlen. lia.
    + cbn in H. inversion H; subst. assumption.
    + cbn in H. inversion H; subst. assumption.
    + exists tl. split; [assumption|]. intros _.
      cbn in H. inversion H; subst. assumption.
Qed.

Lemma UpdateFramePackage_evicts_before_push_witness :
  exists kept evicted,
    UpdateFramePackage (component_of recorded_0_05) (double_of 1) false =
      Ok (with_history (component_of recorded_0_05)
            ({| HitBox := point_box 0; bTeleported := false; Time := double_of 1 |}
               :: kept)) /\
    FrameHistory (component_of recorded_0_05) = kept ++ evicted.
Proof.
  destruct (proj1 UpdateFramePackage_evicts_before_push
              (component_of recorded_0_05)
              {| HasAuthority := true; ComponentsBoundingBox := point_box 0 |}
              (double_of 1) false eq_refl eq_refl)
    as (kept & evicted & Hrun & Hsplit & _).
  - vm_compute. reflexivity.
  - exists kept, evicted. split; [exact Hrun | exact Hsplit].
Defined.

(** C2 (as stated) fails.  With entries at 0.5 and 0.0 and
    [MaxRecordTime = 0.8f], recording at 1.0 keeps all three entries, so the
    span from head to tail is 1.0 > 0.8 with more than one entry left;
    pushing first and evicting afterwards would have dropped the entry at
    0.0. *)
Lemma UpdateFramePackage_not_push_then_evict :
  map Time (history_of (UpdateFramePackage (component_of recorded_0_05) (double_of 1) false))
    = [double_of 1; double_of 0.5; double_of 0] /\
  map Time (record_per_spec (SF2Q (float_of 0.8)) (FrameHistory (component_of recorded_0_05))
              {| HitBox := point_box 0; bTeleported := false; Time := double_of 1 |})
    = [double_of 1; double_of 0.5] /\
  history_of (UpdateFramePackage (component_of recorded_0_05) (double_of 1) false) <>
  record_per_spec (SF2Q (float_of 0.8)) (FrameHistory (component_of recorded_0_05))
    {| HitBox := point_box 0; bTeleported := false; Time := double_of 1 |}.
Proof.
  split; [vm_compute; reflexivity|].
  split; [vm_compute; reflexivity|].
  vm_compute. discriminate.
Qed.

(** A negative [MaxRecordTime] (excluded by the property's [ClampMin]) would
    make the clean-up loop remove every node and then read the head of an
    empty list. *)
Lemma CleanUpOldFrames_negative_duration :
  CleanUpOldFrames 2 (float_of (-1)) (FrameHistory (component_of recorded_0_05))
    = Crash NullDereference.
Proof. vm_compute. reflexivity. Qed.

(** *** Queries *)

(** C10.  A query on a component without owner, or with an empty history,
    returns the default frame package, whose time is 0 and which is not
    valid, whatever the query time and whatever else the component holds. *)
Theorem GetFramePackage_before_first_record :
  forall VInterpTo c t,
    Owner c = None \/ FrameHistory c = [] ->
    GetFramePackage VInterpTo c t = FFramePackage_default /\
    Time (GetFramePackage VInterpTo c t) = Double_zero /\
    FFramePackage_IsValid (GetFramePackage VInterpTo c t) = false.
Proof.
  intros V c t H.
  assert (E : GetFramePackage V c t = FFramePackage_default).
  { unfold GetFramePackage. destruct H as [H|H]; rewrite H.
    - reflexivity.
    - destruct (Owner c); reflexivity. }
  rewrite E. repeat split.
Qed.

Lemma GetFramePackage_before_first_record_witness :
  GetFramePackage VInterpTo_linear (fresh_component (float_of 0.8)) (double_of 0.3)
    = FFramePackage_default.
Proof.
  apply (GetFramePackage_before_first_record VInterpTo_linear
           (fresh_component (float_of 0.8)) (double_of 0.3)).
  right. reflexivity.
Defined.







End Rewind.

(** ** Actor lists ([FActorRepListRefView]) *)

(** Actors are named by their address; no null pointer is ever stored in a
    list. *)
Abbreviation FActorRepListType := nat (only parsing).

(** [FActorRepListRefView]: the actors in insertion order. *)
Abbreviation FActorRepListRefView := (list nat) (only parsing).

Module ActorRepList.

(** [ConditionalAdd]: add unless already contained. *)
Definition ConditionalAdd (l : FActorRepListRefView) (a : FActorRepListType)
  : FActorRepListRefView :=
  if bool_decide (a ∈ l) then l else l ++ [a].

(** [TArray::RemoveAtSwap(Idx)]: the last element takes the place of the
    removed one. *)
Definition RemoveAtSwap {A : Type} (Idx : nat) (l : list A) : list A :=
  match last l with
  | None => l
  | Some x => take (Nat.pred (length l)) (<[Idx := x]> l)
  end.

(** [IndexOf]: position of the first occurrence. *)
Fixpoint IndexOf (l : FActorRepListRefView) (a : FActorRepListType) : option nat :=
  match l with
  | [] => None
  | x :: l' => if bool_decide (x = a) then Some O else S <$> IndexOf l' a
  end.

(** [RemoveFast]: swap-remove of the first occurrence; tells whether the
    actor was found. *)
Definition RemoveFast (l : FActorRepListRefView) (a : FActorRepListType)
  : bool * FActorRepListRefView :=
  match IndexOf l a with
  | Some Idx => (true, RemoveAtSwap Idx l)
  | None => (false, l)
  end.

End ActorRepList.

(** ** UGameRepGraphNode_PlayerStateFrequencyLimiter *)

Module FrequencyLimiter.

Local Open Scope Z_scope.

Record UGameRepGraphNode_PlayerStateFrequencyLimiter : Type :=
  { TargetActorsPerFrame : Z;
    ReplicationActorLists : list FActorRepListRefView;
    ForceNetUpdateReplicationActorList : FActorRepListRefView }.

(** The header's initial value of [TargetActorsPerFrame]. *)
Definition TargetActorsPerFrame_default : Z := 2.

(** [CurrentList] always points at the last list of the array. *)
Definition CurrentList (lists : list FActorRepListRefView) : FActorRepListRefView :=
  default [] (last lists).

(** [CurrentList->Add(PS)]. *)
Definition CurrentList_Add (lists : list FActorRepListRefView) (PS : FActorRepListType)
  : list FActorRepListRefView :=
  alter (fun l => l ++ [PS]) (Nat.pred (length lists)) lists.

Section WithEngine.

(** [IsActorValidForReplicationGather], an engine predicate. *)
Variable IsActorValidForReplicationGather : FActorRepListType -> bool.

(** One turn of the loop over [TActorIterator<APlayerState>]. *)
Definition Prepare_step (Target : Z) (lists : list FActorRepListRefView)
    (PS : FActorRepListType) : list FActorRepListRefView :=
  if negb (IsActorValidForReplicationGather PS) then lists
  else
    let lists' :=
      if Z.of_nat (length (CurrentList lists)) >=? Target
      then lists ++ [[]]
      else lists in
    CurrentList_Add lists' PS.

(** [PrepareForReplication]; [PlayerStates] is what the actor iterator of the
    world yields, in its order. *)
Definition PrepareForReplication (n : UGameRepGraphNode_PlayerStateFrequencyLimiter)
    (PlayerStates : list FActorRepListType)
  : UGameRepGraphNode_PlayerStateFrequencyLimiter :=
  {| TargetActorsPerFrame := TargetActorsPerFrame n;
     ReplicationActorLists :=
       fold_left (Prepare_step (TargetActorsPerFrame n)) PlayerStates [[]];
     ForceNetUpdateReplicationActorList := [] |}.

End WithEngine.

(** [GatherActorListsForConnection]: appends to [OutGatheredReplicationLists]. *)
Definition GatherActorListsForConnection
    (n : UGameRepGraphNode_PlayerStateFrequencyLimiter)
    (ReplicationFrameNum : Z)
    (OutGatheredReplicationLists : list FActorRepListRefView)
  : result (list FActorRepListRefView) :=
  let Num := Z.of_nat (length (ReplicationActorLists n)) in
  if Num =? 0 then Crash DivideByZero
  else
    let ListIdx := ReplicationFrameNum mod Num in
    match ReplicationActorLists n !! Z.to_nat ListIdx with
    | None => Crash CheckFailed
    | Some bucket =>
        let out := OutGatheredReplicationLists ++ [bucket] in
        if (0 <? Z.of_nat (length (ForceNetUpdateReplicationActorList n)))
        then Ok (out ++ [ForceNetUpdateReplicationActorList n])
        else Ok out
    end.

(** The actors one gather hands to a connection. *)
Definition gathered (n : UGameRepGraphNode_PlayerStateFrequencyLimiter)
    (ReplicationFrameNum : Z) : list FActorRepListType :=
  match GatherActorListsForConnection n ReplicationFrameNum [] with
  | Ok out => concat out
  | Crash _ => []
  end.

Definition fresh_node (Target : Z) : UGameRepGraphNode_PlayerStateFrequencyLimiter :=
  {| TargetActorsPerFrame := Target;
     ReplicationActorLists := [];
     ForceNetUpdateReplicationActorList := [] |}.

Definition all_valid (a : FActorRepListType) : bool := true.

(** *** Bucket construction *)

Lemma CurrentList_snoc (init : list FActorRepListRefView) cur :
  CurrentList (init ++ [cur]) = cur.
Proof. unfold CurrentList. now rewrite last_snoc. Qed.

Lemma CurrentList_Add_snoc (init : list FActorRepListRefView) cur PS :
  CurrentList_Add (init ++ [cur]) PS = init ++ [cur ++ [PS]].
Proof.
  unfold CurrentList_Add. rewrite length_app. cbn [length].
  replace (Nat.pred (length init + 1)) with (length init + 0)%nat by lia.
  now rewrite alter_app_r.
Qed.

(** Invalid actors are skipped: the buckets are built from the valid ones. *)
Lemma Prepare_step_filter valid Target :
  forall PlayerStates lists,
    fold_left (Prepare_step valid Target) PlayerStates lists =
    fold_left (Prepare_step all_valid Target) (List.filter valid PlayerStates) lists.
Proof.
  induction PlayerStates as [|PS rest IH]; intros lists; [reflexivity|].
  cbn [fold_left List.filter]. rewrite IH. unfold Prepare_step at 2.
  destruct (valid PS); reflexivity.
Qed.

(** The buckets, read in order, are exactly the valid player states in the
    iterator's order. *)
Lemma Prepare_step_concat valid Target :
  forall PlayerStates init cur,
    concat (fold_left (Prepare_step valid Target) PlayerStates (init ++ [cur])) =
    concat (init ++ [cur]) ++ List.filter valid PlayerStates.
Proof.
  induction PlayerStates as [|PS rest IH]; intros init cur.
  - cbn. now rewrite app_nil_r.
  - cbn [fold_left List.filter]. unfold Prepare_step at 2.
    destruct (valid PS); cbn [negb].
    + rewrite CurrentList_snoc.
      destruct (Z.of_nat (length cur) >=? Target).
      * rewrite (CurrentList_Add_snoc (init ++ [cur]) [] PS). rewrite IH.
        rewrite !concat_app. cbn. rewrite !app_nil_r, <- !app_assoc. reflexivity.
      * rewrite CurrentList_Add_snoc, IH.
        rewrite !concat_app. cbn. rewrite !app_nil_r, <- !app_assoc. reflexivity.
    + apply IH.
Qed.

Lemma PrepareForReplication_concat valid n PlayerStates :
  concat (ReplicationActorLists (PrepareForReplication valid n PlayerStates)) =
  List.filter valid PlayerStates.
Proof.
  unfold PrepareForReplication. cbn [ReplicationActorLists].
  apply (Prepare_step_concat valid (TargetActorsPerFrame n) PlayerStates [] []).
Qed.

Lemma frame_mod_4 f k :
  ((f + k) mod uint32_modulus) mod 4 = (f + k) mod 4.
Proof.
  apply Z.mod_mod_divide. exists (2 ^ 30). reflexivity.
Qed.

Lemma ListNoDup_app_l {A} (l1 l2 : list A) : List.NoDup (l1 ++ l2) -> List.NoDup l1.
Proof.
  induction l1 as [|x l1 IH]; cbn; intros H; [constructor|].
  inversion H; subst. constructor.
  - intros Hin. apply H2. apply in_or_app. now left.
  - now apply IH.
Qed.

Lemma ListNoDup_app_r {A} (l1 l2 : list A) : List.NoDup (l1 ++ l2) -> List.NoDup l2.
Proof.
  induction l1 as [|x l1 IH]; cbn; intros H; [assumption|].
  inversion H; subst. now apply IH.
Qed.

(** C7.  With [TargetActorsPerFrame = 3] and ten valid, distinct player
    states, the prepare pass builds four buckets of sizes 3, 3, 3, 1 that hold
    the valid player states in order, and leaves the force list empty; the
    gather of tick [f] returns exactly bucket [f mod 4], which has no
    repetition; and the gathers of four consecutive ticks (the counter is a
    wrapping [uint32]) together hold every valid player state exactly once. *)
Theorem limiter_ten_candidates_three_per_tick :
  forall valid n PlayerStates,
    TargetActorsPerFrame n = 3 ->
    length (List.filter valid PlayerStates) = 10%nat ->
    List.NoDup (List.filter valid PlayerStates) ->
    let n' := PrepareForReplication valid n PlayerStates in
    map length (ReplicationActorLists n') = [3; 3; 3; 1]%nat /\
    concat (ReplicationActorLists n') = List.filter valid PlayerStates /\
    ForceNetUpdateReplicationActorList n' = [] /\
    forall f, 0 <= f < uint32_modulus ->
      (exists bucket,
          ReplicationActorLists n' !! Z.to_nat (f mod 4) = Some bucket /\
          GatherActorListsForConnection n' f [] = Ok [bucket] /\
          List.NoDup (gathered n' f)) /\
      Permutation
        (gathered n' f ++ gathered n' (next_frame f)
           ++ gathered n' (next_frame (next_frame f))
           ++ gathered n' (next_frame (next_frame (next_frame f))))
        (List.filter valid PlayerStates) /\
      List.NoDup
        (gathered n' f ++ gathered n' (next_frame f)
           ++ gathered n' (next_frame (next_frame f))
           ++ gathered n' (next_frame (next_frame (next_frame f)))).
Proof.
  intros valid n PlayerStates HT Hlen Hnd n'.
  assert (Hlists : exists a1 a2 a3 a4 a5 a6 a7 a8 a9 a10,
             List.filter valid PlayerStates = [a1; a2; a3; a4; a5; a6; a7; a8; a9; a10] /\
             ReplicationActorLists n' = [[a1; a2; a3]; [a4; a5; a6]; [a7; a8; a9]; [a10]]).
  { subst n'. unfold PrepareForReplication. cbn [ReplicationActorLists].
    rewrite Prepare_step_filter, HT.
    destruct (List.filter valid PlayerStates)
      as [|a1 [|a2 [|a3 [|a4 [|a5 [|a6 [|a7 [|a8 [|a9 [|a10 [|a11 r]]]]]]]]]]];
      try discriminate.
    exists a1, a2, a3, a4, a5, a6, a7, a8, a9, a10. split; reflexivity. }
  destruct Hlists as (a1 & a2 & a3 & a4 & a5 & a6 & a7 & a8 & a9 & a10 & Hf & Hl).
  assert (Hforce : ForceNetUpdateReplicationActorList n' = []) by reflexivity.
  split; [now rewrite Hl|].
  split; [apply PrepareForReplication_concat|].
  split; [exact Hforce|].
  assert (Hgather : forall g, 0 <= g ->
            GatherActorListsForConnection n' g [] =
            match ReplicationActorLists n' !! Z.to_nat (g mod 4) with
            | Some bucket => Ok [bucket]
            | None => Crash CheckFailed
            end).
  { intros g Hg. unfold GatherActorListsForConnection. rewrite Hforce, Hl. reflexivity. }
  assert (Hnext : forall g, 0 <= g -> 0 <= next_frame g /\
                                   next_frame g mod 4 = (g mod 4 + 1) mod 4).
  { intros g Hg. unfold next_frame, to_uint32. split.
    - apply Z.mod_pos_bound. unfold uint32_modulus. lia.
    - rewrite frame_mod_4. rewrite Zplus_mod. reflexivity. }
  intros f [Hf0 Hf1].
  destruct (Hnext f Hf0) as [H1 E1].
  destruct (Hnext _ H1) as [H2 E2].
  destruct (Hnext _ H2) as [H3 E3].
  rewrite E1 in E2. rewrite E2 in E3.
  unfold gathered. rewrite !Hgather by assumption.
  rewrite E1, E2, E3. rewrite Hf in *. rewrite Hl.
  assert (Hr : f mod 4 = 0 \/ f mod 4 = 1 \/ f mod 4 = 2 \/ f mod 4 = 3).
  { pose proof (Z.mod_pos_bound f 4). lia. }
  assert (Hperm : forall (x y : list FActorRepListType),
             x ++ y = [a1; a2; a3; a4; a5; a6; a7; a8; a9; a10] ->
             Permutation (y ++ x) [a1; a2; a3; a4; a5; a6; a7; a8; a9; a10] /\
             List.NoDup (y ++ x)).
  { intros x y E. rewrite <- E. split.
    - apply Permutation_app_comm.
    - apply (Permutation_NoDup (l := x ++ y)); [apply Permutation_app_comm|].
      now rewrite E. }
  destruct Hr as [-> | [-> | [-> | ->]]]; cbn.
  - repeat split.
    + eexists. repeat split.
      apply (ListNoDup_app_l [a1; a2; a3] [a4; a5; a6; a7; a8; a9; a10]). assumption.
    + reflexivity.
    + assumption.
  - repeat split.
    + eexists. repeat split.
      apply (ListNoDup_app_l [a4; a5; a6] [a7; a8; a9; a10]).
      apply (ListNoDup_app_r [a1; a2; a3]). assumption.
    + apply (Hperm [a1; a2; a3] [a4; a5; a6; a7; a8; a9; a10]). reflexivity.
    + apply (Hperm [a1; a2; a3] [a4; a5; a6; a7; a8; a9; a10]). reflexivity.
  - repeat split.
    + eexists. repeat split.
      apply (ListNoDup_app_l [a7; a8; a9] [a10]).
      apply (ListNoDup_app_r [a1; a2; a3; a4; a5; a6]). assumption.
    + apply (Hperm [a1; a2; a3; a4; a5; a6] [a7; a8; a9; a10]). reflexivity.
    + apply (Hperm [a1; a2; a3; a4; a5; a6] [a7; a8; a9; a10]). reflexivity.
  - repeat split.
    + eexists. repeat split.
      apply (ListNoDup_app_r [a1; a2; a3; a4; a5; a6; a7; a8; a9]). assumption.
    + apply (Hperm [a1; a2; a3; a4; a5; a6; a7; a8; a9] [a10]). reflexivity.
    + apply (Hperm [a1; a2; a3; a4; a5; a6; a7; a8; a9] [a10]). reflexivity.
Qed.

Lemma limiter_ten_candidates_three_per_tick_witness :
  map length
    (ReplicationActorLists
       (PrepareForReplication (fun a => negb (a =? 0)%nat) (fresh_node 3)
          [0; 1; 2; 3; 4; 5; 6; 7; 8; 9; 10]%nat))
  = [3; 3; 3; 1]%nat.
Proof.
  apply (limiter_ten_candidates_three_per_tick (fun a => negb (a =? 0)%nat)
           (fresh_node 3) [0; 1; 2; 3; 4; 5; 6; 7; 8; 9; 10]%nat).
  - reflexivity.
  - reflexivity.
  - cbn. apply NoDup_ListNoDup, (bool_decide_unpack _). vm_compute. exact I.
Defined.

(** C8 (what the code does).  The prepare pass resets the force list and
    never adds to it: whatever is pending on a player state, it goes into a
    rotating bucket.  With the default target of two per tick and three
    player states, the third one is not gathered at tick 0; it waits for its
    bucket at tick 1. *)
Theorem forced_update_waits_for_rotation :
  (forall valid n PlayerStates,
      ForceNetUpdateReplicationActorList
        (PrepareForReplication valid n PlayerStates) = []) /\
  ReplicationActorLists
    (PrepareForReplication all_valid (fresh_node TargetActorsPerFrame_default)
       [1; 2; 3]%nat) = [[1; 2]; [3]]%nat /\
  GatherActorListsForConnection
    (PrepareForReplication all_valid (fresh_node TargetActorsPerFrame_default)
       [1; 2; 3]%nat) 0 [] = Ok [[1; 2]%nat] /\
  ~ In 3%nat
      (gathered
         (PrepareForReplication all_valid (fresh_node TargetActorsPerFrame_default)
            [1; 2; 3]%nat) 0) /\
  In 3%nat
     (gathered
        (PrepareForReplication all_valid (fresh_node TargetActorsPerFrame_default)
           [1; 2; 3]%nat) 1).
Proof.
  split; [reflexivity|].
  split; [reflexivity|].
  split; [reflexivity|].
  split.
  - cbn. intros [H|[H|[]]]; discriminate.
  - cbn. now left.
Qed.

End FrequencyLimiter.

(** ** UGameplayReplicationGraph: class routing *)

Module Routing.

Import ActorRepList.

Inductive EClassRepNodeMapping : Type :=
| NotRouted
| RelevantAllConnections
| Spatialize_Static
| Spatialize_Dynamic
| Spatialize_Dormancy.

#[global] Instance EClassRepNodeMapping_eq_dec : EqDecision EClassRepNodeMapping.
Proof. solve_decision. Defined.

(** The enum's underlying [uint8] value. *)
Definition mapping_value (m : EClassRepNodeMapping) : nat :=
  match m with
  | NotRouted => 0
  | RelevantAllConnections => 1
  | Spatialize_Static => 2
  | Spatialize_Dynamic => 3
  | Spatialize_Dormancy => 4
  end.

(** [IsSpatialized]: [Mapping >= Spatialize_Static]. *)
Definition IsSpatialized (Mapping : EClassRepNodeMapping) : bool :=
  (mapping_value Spatialize_Static <=? mapping_value Mapping)%nat.

(** The replication settings read from a class default object. *)
Record AActorDefaults : Type :=
  { GetIsReplicated : bool;
    bAlwaysRelevant : bool;
    bOnlyRelevantToOwner : bool;
    bNetUseOwnerRelevancy : bool }.

(** Classes form a single-rooted hierarchy: [UObject] has no super class and
    its default object is not an actor; every other class has a name, a
    default object that may or may not be an actor
    ([Cast<AActor>(GetDefaultObject())]) and a super class. *)
Inductive UClass : Type :=
| UObject_StaticClass
| SubClass (Name : string) (ActorCDO : option AActorDefaults) (Super : UClass).

Definition GetName (Class : UClass) : string :=
  match Class with
  | UObject_StaticClass => "Object"
  | SubClass Name _ _ => Name
  end.

Definition GetSuperClass (Class : UClass) : option UClass :=
  match Class with
  | UObject_StaticClass => None
  | SubClass _ _ Super => Some Super
  end.

(** [Cast<AActor>(Class->GetDefaultObject())]. *)
Definition GetDefaultActor (Class : UClass) : option AActorDefaults :=
  match Class with
  | UObject_StaticClass => None
  | SubClass _ ActorCDO _ => ActorCDO
  end.

(** [TClassMap<EClassRepNodeMapping>]: keyed by the class, named here by its
    name. *)
Abbreviation TClassMap := (gmap string EClassRepNodeMapping) (only parsing).

(** [FindWithoutClassRecursion]. *)
Definition FindWithoutClassRecursion (policies : TClassMap) (Class : UClass)
  : option EClassRepNodeMapping :=
  policies !! GetName Class.

(** The lambda [ShouldSpatialize]. *)
Definition ShouldSpatialize (CDO : AActorDefaults) : bool :=
  GetIsReplicated CDO &&
  negb (bAlwaysRelevant CDO || bOnlyRelevantToOwner CDO || bNetUseOwnerRelevancy CDO).

(** The four-way comparison between the default objects of a class and of
    its super class. *)
Definition SameAsSuper (SuperCDO ActorCDO : AActorDefaults) : bool :=
  Bool.eqb (GetIsReplicated SuperCDO) (GetIsReplicated ActorCDO) &&
  Bool.eqb (bAlwaysRelevant SuperCDO) (bAlwaysRelevant ActorCDO) &&
  Bool.eqb (bOnlyRelevantToOwner SuperCDO) (bOnlyRelevantToOwner ActorCDO) &&
  Bool.eqb (bNetUseOwnerRelevancy SuperCDO) (bNetUseOwnerRelevancy ActorCDO).

(** The tail of [GetClassNodeMapping]: the mapping computed from the flags
    of the class itself. *)
Definition MappingFromFlags (ActorCDO : AActorDefaults) : EClassRepNodeMapping :=
  if ShouldSpatialize ActorCDO then Spatialize_Dynamic
  else if bAlwaysRelevant ActorCDO && negb (bOnlyRelevantToOwner ActorCDO)
       then RelevantAllConnections
       else NotRouted.

(** [GetClassNodeMapping] on a non-null class. *)
Fixpoint GetClassNodeMapping_nonnull (policies : TClassMap) (Class : UClass)
  : EClassRepNodeMapping :=
  match FindWithoutClassRecursion policies Class with
  | Some m => m
  | None =>
      match Class with
      | UObject_StaticClass => NotRouted
      | SubClass _ None _ => NotRouted
      | SubClass _ (Some ActorCDO) SuperClass =>
          if negb (GetIsReplicated ActorCDO) then NotRouted
          else
            match GetDefaultActor SuperClass with
            | Some SuperCDO =>
                if SameAsSuper SuperCDO ActorCDO
                then GetClassNodeMapping_nonnull policies SuperClass
                else MappingFromFlags ActorCDO
            | None => MappingFromFlags ActorCDO
            end
      end
  end.

(** [GetClassNodeMapping(UClass* Class)]. *)
Definition GetClassNodeMapping (policies : TClassMap) (Class : option UClass)
  : EClassRepNodeMapping :=
  match Class with
  | None => NotRouted
  | Some C => GetClassNodeMapping_nonnull policies C
  end.

(** [RegisterClassRepNodeMapping]. *)
Definition RegisterClassRepNodeMapping (policies : TClassMap) (Class : UClass)
  : TClassMap :=
  <[GetName Class := GetClassNodeMapping policies (Some Class)]> policies.

(** [AddClassRepInfo]: an explicit mapping; warns when an always relevant
    class is put into a spatialized node. *)
Definition AddClassRepInfo (policies : TClassMap) (Class : UClass)
    (Mapping : EClassRepNodeMapping) : result (TClassMap * list LogLine) :=
  if IsSpatialized Mapping then
    match GetDefaultActor Class with
    | None => Crash NullDereference
    | Some CDO =>
        Ok (<[GetName Class := Mapping]> policies,
            if bAlwaysRelevant CDO
            then [Warning_AlwaysRelevantInSpatializedNode (GetName Class)]
            else [])
    end
  else Ok (<[GetName Class := Mapping]> policies, []).

(** Modelled from the spec: [TClassMap::Get] is an engine container method.
    With [InitNewElement] bound to [GetClassNodeMapping] (which always
    accepts), it returns the stored mapping when there is one and otherwise
    resolves the class and memoizes the result. *)
Definition TClassMap_Get (policies : TClassMap) (Class : UClass)
  : EClassRepNodeMapping * TClassMap :=
  match policies !! GetName Class with
  | Some m => (m, policies)
  | None =>
      let m := GetClassNodeMapping policies (Some Class) in
      (m, <[GetName Class := m]> policies)
  end.

(** [GetMappingPolicy]. *)
Definition GetMappingPolicy (policies : TClassMap) (Class : UClass)
  : EClassRepNodeMapping * TClassMap :=
  TClassMap_Get policies Class.

(** A second reading of the resolver, following the words of the
    specification: a stored mapping first, then the comparison with the
    nearest ancestor, and only then the flags of the type itself. *)
Fixpoint resolve_per_spec (policies : TClassMap) (Class : UClass)
  : EClassRepNodeMapping :=
  match policies !! GetName Class with
  | Some m => m
  | None =>
      match Class with
      | UObject_StaticClass => NotRouted
      | SubClass _ None _ => NotRouted
      | SubClass _ (Some ActorCDO) SuperClass =>
          if match GetDefaultActor SuperClass with
             | Some SuperCDO => SameAsSuper SuperCDO ActorCDO
             | None => false
             end
          then resolve_per_spec policies SuperClass
          else if negb (GetIsReplicated ActorCDO) then NotRouted
          else if negb (bAlwaysRelevant ActorCDO || bOnlyRelevantToOwner ActorCDO
                        || bNetUseOwnerRelevancy ActorCDO)
               then Spatialize_Dynamic
          else if bAlwaysRelevant ActorCDO && negb (bOnlyRelevantToOwner ActorCDO)
               then RelevantAllConnections
          else NotRouted
      end
  end.

(** [NAME_None]. *)
Definition NAME_None : string := "None".

Record FNewReplicatedActorInfo : Type :=
  { Actor : nat; Class : UClass; StreamingLevelName : string }.

Section WithEngineNodes.

(** The engine nodes and the driver state behind
    [SetActorDestructionInfoToIgnoreDistanceCulling] are opaque. *)
Variables (ActorListNode GridSpatialization2D FGlobalActorReplicationInfo
           DriverState : Type).
Variable ActorList_NotifyAddNetworkActor :
  FNewReplicatedActorInfo -> ActorListNode -> ActorListNode.
Variable ActorList_NotifyRemoveNetworkActor :
  FNewReplicatedActorInfo -> ActorListNode -> ActorListNode.
Variables AddActor_Static AddActor_Dynamic AddActor_Dormancy :
  FNewReplicatedActorInfo -> FGlobalActorReplicationInfo -> GridSpatialization2D ->
  GridSpatialization2D * FGlobalActorReplicationInfo.
Variables RemoveActor_Static RemoveActor_Dynamic RemoveActor_Dormancy :
  FNewReplicatedActorInfo -> GridSpatialization2D -> GridSpatialization2D.
Variable SetActorDestructionInfoToIgnoreDistanceCulling :
  nat -> DriverState -> DriverState.

Record UGameplayReplicationGraph : Type :=
  { ClassRepNodePolicies : gmap string EClassRepNodeMapping;
    AlwaysRelevantNode : ActorListNode;
    GridNode : GridSpatialization2D;
    AlwaysRelevantStreamingLevelActors : gmap string (list nat);
    Driver : DriverState;
    Log : list LogLine }.

(** [RouteAddNetworkActorToNodes]. *)
Definition RouteAddNetworkActorToNodes (G : UGameplayReplicationGraph)
    (ActorInfo : FNewReplicatedActorInfo) (GlobalInfo : FGlobalActorReplicationInfo)
  : UGameplayReplicationGraph * FGlobalActorReplicationInfo :=
  let '(Policy, policies) := GetMappingPolicy (ClassRepNodePolicies G) (Class ActorInfo) in
  let with_grid (r : GridSpatialization2D * FGlobalActorReplicationInfo) :=
    ({| ClassRepNodePolicies := policies;
        AlwaysRelevantNode := AlwaysRelevantNode G;
        GridNode := fst r;
        AlwaysRelevantStreamingLevelActors := AlwaysRelevantStreamingLevelActors G;
        Driver := Driver G; Log := Log G |}, snd r) in
  match Policy with
  | NotRouted => with_grid (GridNode G, GlobalInfo)
  | RelevantAllConnections =>
      if bool_decide (StreamingLevelName ActorInfo = NAME_None) then
        ({| ClassRepNodePolicies := policies;
            AlwaysRelevantNode :=
              ActorList_NotifyAddNetworkActor ActorInfo (AlwaysRelevantNode G);
            GridNode := GridNode G;
            AlwaysRelevantStreamingLevelActors := AlwaysRelevantStreamingLevelActors G;
            Driver := Driver G; Log := Log G |}, GlobalInfo)
      else
        let RepList :=
          default [] (AlwaysRelevantStreamingLevelActors G !! StreamingLevelName ActorInfo) in
        ({| ClassRepNodePolicies := policies;
            AlwaysRelevantNode := AlwaysRelevantNode G;
            GridNode := GridNode G;
            AlwaysRelevantStreamingLevelActors :=
              <[StreamingLevelName ActorInfo := ConditionalAdd RepList (Actor ActorInfo)]>
                (AlwaysRelevantStreamingLevelActors G);
            Driver := Driver G; Log := Log G |}, GlobalInfo)
  | Spatialize_Static => with_grid (AddActor_Static ActorInfo GlobalInfo (GridNode G))
  | Spatialize_Dynamic => with_grid (AddActor_Dynamic ActorInfo GlobalInfo (GridNode G))
  | Spatialize_Dormancy => with_grid (AddActor_Dormancy ActorInfo GlobalInfo (GridNode G))
  end.

(** [RouteRemoveNetworkActorToNodes].  [FindChecked] asserts that the
    streaming level has a list. *)
Definition RouteRemoveNetworkActorToNodes (G : UGameplayReplicationGraph)
    (ActorInfo : FNewReplicatedActorInfo) : result UGameplayReplicationGraph :=
  let '(Policy, policies) := GetMappingPolicy (ClassRepNodePolicies G) (Class ActorInfo) in
  let with_grid (g : GridSpatialization2D) :=
    Ok {| ClassRepNodePolicies := policies;
          AlwaysRelevantNode := AlwaysRelevantNode G;
          GridNode := g;
          AlwaysRelevantStreamingLevelActors := AlwaysRelevantStreamingLevelActors G;
          Driver := Driver G; Log := Log G |} in
  match Policy with
  | NotRouted => with_grid (GridNode G)
  | RelevantAllConnections =>
      if bool_decide (StreamingLevelName ActorInfo = NAME_None) then
        Ok {| ClassRepNodePolicies := policies;
              AlwaysRelevantNode :=
                ActorList_NotifyRemoveNetworkActor ActorInfo (AlwaysRelevantNode G);
              GridNode := GridNode G;
              AlwaysRelevantStreamingLevelActors := AlwaysRelevantStreamingLevelActors G;
              Driver :=
                SetActorDestructionInfoToIgnoreDistanceCulling (Actor ActorInfo) (Driver G);
              Log := Log G |}
      else
        match AlwaysRelevantStreamingLevelActors G !! StreamingLevelName ActorInfo with
        | None => Crash CheckFailed
        | Some RepList =>
            let '(found, RepList') := RemoveFast RepList (Actor ActorInfo) in
            Ok {| ClassRepNodePolicies := policies;
                  AlwaysRelevantNode := AlwaysRelevantNode G;
                  GridNode := GridNode G;
                  AlwaysRelevantStreamingLevelActors :=
                    <[StreamingLevelName ActorInfo := RepList']>
                      (AlwaysRelevantStreamingLevelActors G);
                  Driver :=
                    SetActorDestructionInfoToIgnoreDistanceCulling (Actor ActorInfo)
                      (Driver G);
                  Log :=
                    if found then Log G
                    else Log G ++ [Warning_NotFoundInStreamingLevelList
                                     (Actor ActorInfo) (StreamingLevelName ActorInfo)] |}
        end
  | Spatialize_Static => with_grid (RemoveActor_Static ActorInfo (GridNode G))
  | Spatialize_Dynamic => with_grid (RemoveActor_Dynamic ActorInfo (GridNode G))
  | Spatialize_Dormancy => with_grid (RemoveActor_Dormancy ActorInfo (GridNode G))
  end.

(** [ResetGameWorldState], as far as the graph's own state goes (the loop
    over the connection nodes calls [AlwaysRelevantForConnection.ResetGameWorldState]). *)
Definition ResetGameWorldState (G : UGameplayReplicationGraph)
  : UGameplayReplicationGraph :=
  {| ClassRepNodePolicies := ClassRepNodePolicies G;
     AlwaysRelevantNode := AlwaysRelevantNode G;
     GridNode := GridNode G;
     AlwaysRelevantStreamingLevelActors := ∅;
     Driver := Driver G; Log := Log G |}.

End WithEngineNodes.

Arguments ClassRepNodePolicies {_ _ _} _.
Arguments AlwaysRelevantNode {_ _ _} _.
Arguments GridNode {_ _ _} _.
Arguments AlwaysRelevantStreamingLevelActors {_ _ _} _.
Arguments Driver {_ _ _} _.
Arguments Log {_ _ _} _.

(** Flags all equal, as a proposition. *)
Definition SameRelevance (SuperCDO ActorCDO : AActorDefaults) : Prop :=
  GetIsReplicated SuperCDO = GetIsReplicated ActorCDO /\
  bAlwaysRelevant SuperCDO = bAlwaysRelevant ActorCDO /\
  bOnlyRelevantToOwner SuperCDO = bOnlyRelevantToOwner ActorCDO /\
  bNetUseOwnerRelevancy SuperCDO = bNetUseOwnerRelevancy ActorCDO.

(** Concrete classes and graphs used as scenarios. *)
Definition NotReplicatedCDO : AActorDefaults :=
  {| GetIsReplicated := false; bAlwaysRelevant := false;
     bOnlyRelevantToOwner := false; bNetUseOwnerRelevancy := false |}.

Definition AlwaysRelevantCDO : AActorDefaults :=
  {| GetIsReplicated := true; bAlwaysRelevant := true;
     bOnlyRelevantToOwner := false; bNetUseOwnerRelevancy := false |}.

Definition MovingCDO : AActorDefaults :=
  {| GetIsReplicated := true; bAlwaysRelevant := false;
     bOnlyRelevantToOwner := false; bNetUseOwnerRelevancy := false |}.

Definition AActor_StaticClass : UClass :=
  SubClass "Actor" (Some NotReplicatedCDO) UObject_StaticClass.

Definition Prop_Class : UClass :=
  SubClass "Prop" (Some NotReplicatedCDO) AActor_StaticClass.

Definition Decoration_Class : UClass :=
  SubClass "Decoration" (Some NotReplicatedCDO) Prop_Class.

Definition Beacon_Class : UClass :=
  SubClass "Beacon" (Some AlwaysRelevantCDO) AActor_StaticClass.

Definition SubBeacon_Class : UClass :=
  SubClass "SubBeacon" (Some AlwaysRelevantCDO) Beacon_Class.

Definition Crate_Class : UClass :=
  SubClass "Crate" (Some MovingCDO) AActor_StaticClass.

Definition policies_Prop_static : gmap string EClassRepNodeMapping :=
  {[ "Prop" := Spatialize_Static ]}.

(** A graph over trivial engine nodes. *)
Definition empty_graph : UGameplayReplicationGraph unit unit unit :=
  {| ClassRepNodePolicies := ∅;
     AlwaysRelevantNode := tt;
     GridNode := tt;
     AlwaysRelevantStreamingLevelActors := ∅;
     Driver := tt; Log := [] |}.

Definition route_add (G : UGameplayReplicationGraph unit unit unit)
    (ActorInfo : FNewReplicatedActorInfo) : UGameplayReplicationGraph unit unit unit :=
  fst (RouteAddNetworkActorToNodes unit unit unit unit
         (fun _ n => n) (fun _ g r => (r, g)) (fun _ g r => (r, g)) (fun _ g r => (r, g))
         G ActorInfo tt).

Definition route_remove (G : UGameplayReplicationGraph unit unit unit)
    (ActorInfo : FNewReplicatedActorInfo)
  : result (UGameplayReplicationGraph unit unit unit) :=
  RouteRemoveNetworkActorToNodes unit unit unit
    (fun _ n => n) (fun _ r => r) (fun _ r => r) (fun _ r => r) (fun _ d => d)
    G ActorInfo.

Definition beacon_in_R1 (a : nat) : FNewReplicatedActorInfo :=
  {| Actor := a; Class := Beacon_Class; StreamingLevelName := "R1" |}.

(** *** The resolver *)

Lemma SameAsSuper_true (SuperCDO ActorCDO : AActorDefaults) :
  SameAsSuper SuperCDO ActorCDO = true <-> SameRelevance SuperCDO ActorCDO.
Proof.
  unfold SameAsSuper, SameRelevance.
  rewrite !andb_true_iff, !eqb_true_iff. tauto.
Qed.

Lemma SameAsSuper_false (SuperCDO ActorCDO : AActorDefaults) :
  SameAsSuper SuperCDO ActorCDO = false <-> ~ SameRelevance SuperCDO ActorCDO.
Proof.
  rewrite <- SameAsSuper_true. destruct (SameAsSuper SuperCDO ActorCDO).
  - split; [discriminate | intros H; now destruct H].
  - split; [discriminate | reflexivity].
Qed.

Lemma MappingFromFlags_replicated (ActorCDO : AActorDefaults) :
  GetIsReplicated ActorCDO = true ->
  MappingFromFlags ActorCDO =
    if negb (bAlwaysRelevant ActorCDO || bOnlyRelevantToOwner ActorCDO
             || bNetUseOwnerRelevancy ActorCDO)
    then Spatialize_Dynamic
    else if bAlwaysRelevant ActorCDO && negb (bOnlyRelevantToOwner ActorCDO)
         then RelevantAllConnections
         else NotRouted.
Proof. intros H. unfold MappingFromFlags, ShouldSpatialize. now rewrite H. Qed.

(** A class without stored mapping that is not replicated resolves to
    [NotRouted], whatever its ancestors are. *)
Lemma GetClassNodeMapping_not_replicated policies (C : UClass) :
  FindWithoutClassRecursion policies C = None ->
  (forall cdo, GetDefaultActor C = Some cdo -> GetIsReplicated cdo = false) ->
  GetClassNodeMapping policies (Some C) = NotRouted.
Proof.
  intros Hfind Hrep. unfold FindWithoutClassRecursion in Hfind.
  destruct C as [|Name [cdo|] Super]; cbn in *; unfold FindWithoutClassRecursion; cbn;
    rewrite Hfind; try reflexivity.
  now rewrite (Hrep cdo eq_refl).
Qed.

(** With nothing stored, the code and the specification's reading agree on
    every class. *)
Lemma GetClassNodeMapping_matches_spec_without_mappings (C : UClass) :
  GetClassNodeMapping ∅ (Some C) = resolve_per_spec ∅ C.
Proof.
  induction C as [|Name [cdo|] Super IH]; cbn; try reflexivity.
  unfold FindWithoutClassRecursion. rewrite !lookup_empty.
  destruct (GetIsReplicated cdo) eqn:Hrep; cbn [negb].
  - destruct (GetDefaultActor Super) as [scdo|].
    + destruct (SameAsSuper scdo cdo); [exact IH|].
      now apply MappingFromFlags_replicated.
    + now apply MappingFromFlags_replicated.
  - destruct (GetDefaultActor Super) as [scdo|] eqn:Hs; [|reflexivity].
    destruct (SameAsSuper scdo cdo) eqn:Hsame; [|reflexivity].
    rewrite <- IH. symmetry. apply GetClassNodeMapping_not_replicated.
    + apply lookup_empty.
    + intros cdo' Hcdo'. rewrite Hs in Hcdo'. inversion Hcdo'; subst.
      apply SameAsSuper_true in Hsame. destruct Hsame as [H _]. congruence.
Qed.

(** C1 (as the code has it).  A null class is [NotRouted]; a stored mapping
    is returned; without one, a class whose default object is not an actor or
    is not replicated is [NotRouted] before any look at its ancestor; a
    replicated class whose four flags equal those of its super class (an
    actor class) resolves as the super class does; any other replicated class
    is [Spatialize_Dynamic] when none of the three relevance flags is set,
    [RelevantAllConnections] when always relevant and not owner-only, and
    [NotRouted] otherwise.  Resolving a class again, also after the result
    was memoized, gives the same category. *)
Theorem GetClassNodeMapping_resolution :
  forall policies : gmap string EClassRepNodeMapping,
    GetClassNodeMapping policies None = NotRouted /\
    (forall C m,
        FindWithoutClassRecursion policies C = Some m ->
        GetClassNodeMapping policies (Some C) = m) /\
    (forall C,
        FindWithoutClassRecursion policies C = None ->
        (forall cdo, GetDefaultActor C = Some cdo -> GetIsReplicated cdo = false) ->
        GetClassNodeMapping policies (Some C) = NotRouted) /\
    (forall C cdo S scdo,
        FindWithoutClassRecursion policies C = None ->
        GetDefaultActor C = Some cdo -> GetIsReplicated cdo = true ->
        GetSuperClass C = Some S -> GetDefaultActor S = Some scdo ->
        SameRelevance scdo cdo ->
        GetClassNodeMapping policies (Some C) = GetClassNodeMapping policies (Some S)) /\
    (forall C cdo,
        FindWithoutClassRecursion policies C = None ->
        GetDefaultActor C = Some cdo -> GetIsReplicated cdo = true ->
        (forall S scdo, GetSuperClass C = Some S -> GetDefaultActor S = Some scdo ->
                        ~ SameRelevance scdo cdo) ->
        GetClassNodeMapping policies (Some C) =
          if negb (bAlwaysRelevant cdo || bOnlyRelevantToOwner cdo
                   || bNetUseOwnerRelevancy cdo)
          then Spatialize_Dynamic
          else if bAlwaysRelevant cdo && negb (bOnlyRelevantToOwner cdo)
               then RelevantAllConnections
               else NotRouted) /\
    (forall C,
        GetClassNodeMapping (RegisterClassRepNodeMapping policies C) (Some C)
          = GetClassNodeMapping policies (Some C)) /\
    (forall C,
        fst (GetMappingPolicy (snd (GetMappingPolicy policies C)) C)
          = fst (GetMappingPolicy policies C)).
Proof.
  intros policies. split; [reflexivity|].
  split.
  { intros C m Hfind. unfold FindWithoutClassRecursion in Hfind.
    destruct C; cbn in *; unfold FindWithoutClassRecursion; cbn; now rewrite Hfind. }
  split.
  { intros C Hfind Hrep. now apply GetClassNodeMapping_not_replicated. }
  split.
  { intros C cdo S scdo Hfind Hcdo Hrep HS Hscdo Hsame.
    destruct C as [|Name ocdo Super]; [discriminate|].
    cbn in Hcdo, HS. subst ocdo. inversion HS; subst S.
    unfold FindWithoutClassRecursion in Hfind. cbn in Hfind.
    cbn. unfold FindWithoutClassRecursion. cbn [GetName].
    rewrite Hfind, Hrep, Hscdo. cbn [negb].
    now rewrite (proj2 (SameAsSuper_true scdo cdo) Hsame). }
  split.
  { intros C cdo Hfind Hcdo Hrep Hdiff.
    destruct C as [|Name ocdo Super]; [discriminate|].
    cbn in Hcdo. subst ocdo.
    unfold FindWithoutClassRecursion in Hfind. cbn in Hfind.
    cbn. unfold FindWithoutClassRecursion. cbn [GetName].
    rewrite Hfind, Hrep. cbn [negb].
    destruct (GetDefaultActor Super) as [scdo|] eqn:Hs.
    - rewrite (proj2 (SameAsSuper_false scdo cdo) (Hdiff Super scdo eq_refl Hs)).
      now apply MappingFromFlags_replicated.
    - now apply MappingFromFlags_replicated. }
  split.
  { intros C. unfold RegisterClassRepNodeMapping.
    destruct C; cbn; unfold FindWithoutClassRecursion; cbn;
      now rewrite lookup_insert_eq. }
  intros C. unfold GetMappingPolicy, TClassMap_Get.
  destruct (policies !! GetName C) as [m|] eqn:E; cbn.
  - now rewrite E.
  - now rewrite lookup_insert_eq.
Qed.

Lemma GetClassNodeMapping_resolution_witness :
  GetClassNodeMapping ∅ (Some SubBeacon_Class) = GetClassNodeMapping ∅ (Some Beacon_Class) /\
  GetClassNodeMapping ∅ (Some Crate_Class) = Spatialize_Dynamic /\
  GetClassNodeMapping policies_Prop_static (Some Prop_Class) = Spatialize_Static /\
  GetClassNodeMapping policies_Prop_static (Some Decoration_Class) = NotRouted.
Proof.
  destruct (GetClassNodeMapping_resolution ∅)
    as (_ & _ & _ & Hsuper & Hflags & _).
  destruct (GetClassNodeMapping_resolution policies_Prop_static)
    as (_ & Hstored & Hnot & _).
  split.
  { apply (Hsuper SubBeacon_Class AlwaysRelevantCDO Beacon_Class AlwaysRelevantCDO);
      try reflexivity. repeat split. }
  split.
  { apply (Hflags Crate_Class MovingCDO); try reflexivity.
    intros S scdo HS Hscdo [Hrep _]. cbn in HS. inversion HS; subst S.
    cbn in Hscdo. inversion Hscdo; subst scdo. discriminate. }
  split.
  { apply (Hstored Prop_Class). reflexivity. }
  apply (Hnot Decoration_Class).
  - reflexivity.
  - intros cdo Hcdo. cbn in Hcdo. inversion Hcdo. reflexivity.
Defined.

(** C1 (as stated) fails.  [Prop] is given [Spatialize_Static] explicitly;
    its subclass [Decoration] has the same four flags (none set, not
    replicated) and no stored mapping.  The code answers [NotRouted] for
    [Decoration] and [Spatialize_Static] for its ancestor, whereas the
    reference definition of the claim makes them equal. *)
Lemma not_replicated_subclass_ignores_ancestor :
  AddClassRepInfo ∅ Prop_Class Spatialize_Static = Ok (policies_Prop_static, []) /\
  GetSuperClass Decoration_Class = Some Prop_Class /\
  SameRelevance NotReplicatedCDO NotReplicatedCDO /\
  FindWithoutClassRecursion policies_Prop_static Decoration_Class = None /\
  GetClassNodeMapping policies_Prop_static (Some Decoration_Class) = NotRouted /\
  GetClassNodeMapping policies_Prop_static (Some Prop_Class) = Spatialize_Static /\
  resolve_per_spec policies_Prop_static Decoration_Class = Spatialize_Static /\
  GetClassNodeMapping policies_Prop_static (Some Decoration_Class)
    <> GetClassNodeMapping policies_Prop_static (Some Prop_Class).
Proof.
  repeat split; try reflexivity. vm_compute. discriminate.
Qed.

(** *** Unregistering *)

Lemma IndexOf_None (l : list nat) (a : nat) : IndexOf l a = None <-> a ∉ l.
Proof.
  induction l as [|x l IH]; cbn.
  - split; [intros _; apply not_elem_of_nil | reflexivity].
  - rewrite not_elem_of_cons. case_bool_decide as Hx.
    + split; [discriminate | intros [Hne _]; congruence].
    + destruct (IndexOf l a) eqn:E; cbn.
      * split; [discriminate|]. intros [_ Hn]. apply IH in Hn. discriminate.
      * split; [|reflexivity]. intros _. split; [congruence | now apply IH].
Qed.

Lemma RemoveFast_not_found (l : list nat) (a : nat) :
  a ∉ l -> RemoveFast l a = (false, l).
Proof. intros H. unfold RemoveFast. now rewrite (proj2 (IndexOf_None l a) H). Qed.

Lemma GetMappingPolicy_stable (policies : gmap string EClassRepNodeMapping) C :
  GetMappingPolicy (snd (GetMappingPolicy policies C)) C
    = (fst (GetMappingPolicy policies C), snd (GetMappingPolicy policies C)).
Proof.
  unfold GetMappingPolicy, TClassMap_Get.
  destruct (policies !! GetName C) as [m|] eqn:E; cbn.
  - now rewrite E.
  - now rewrite lookup_insert_eq.
Qed.

Section RouteFacts.

Variables (ActorListNode GridSpatialization2D FGlobalActorReplicationInfo
           DriverState : Type).
Variable NotifyAdd NotifyRemove :
  FNewReplicatedActorInfo -> ActorListNode -> ActorListNode.
Variables AddStatic AddDynamic AddDormancy :
  FNewReplicatedActorInfo -> FGlobalActorReplicationInfo -> GridSpatialization2D ->
  GridSpatialization2D * FGlobalActorReplicationInfo.
Variables RemoveStatic RemoveDynamic RemoveDormancy :
  FNewReplicatedActorInfo -> GridSpatialization2D -> GridSpatialization2D.
Variable IgnoreDistanceCulling : nat -> DriverState -> DriverState.

Let RouteAdd :=
  RouteAddNetworkActorToNodes ActorListNode GridSpatialization2D
    FGlobalActorReplicationInfo DriverState NotifyAdd AddStatic AddDynamic AddDormancy.
Let RouteRemove :=
  RouteRemoveNetworkActorToNodes ActorListNode GridSpatialization2D DriverState
    NotifyRemove RemoveStatic RemoveDynamic RemoveDormancy IgnoreDistanceCulling.

Lemma RouteAdd_policies G ActorInfo GlobalInfo :
  ClassRepNodePolicies (fst (RouteAdd G ActorInfo GlobalInfo))
    = snd (GetMappingPolicy (ClassRepNodePolicies G) (Class ActorInfo)).
Proof.
  unfold RouteAdd, RouteAddNetworkActorToNodes.
  destruct (GetMappingPolicy (ClassRepNodePolicies G) (Class ActorInfo)) as [Policy policies].
  destruct Policy; cbn; try reflexivity.
  case_bool_decide; reflexivity.
Qed.

(** C9 (as the code has it).  Unregistering resolves the category exactly as
    registering did, and that resolution is unchanged by the registration.
    The only fatal outcome of an unregister call is the failed [FindChecked]
    on a [RelevantAllConnections] actor with a streaming level that has no
    list; every other call returns.  When the level has a list that does not
    hold the actor, the call returns, appends one warning to the log, and
    leaves the streaming-level lists, the always-relevant node and the grid
    as they were. *)
Theorem RouteRemove_outcomes :
  forall G ActorInfo,
    (forall GlobalInfo,
        fst (GetMappingPolicy
               (ClassRepNodePolicies (fst (RouteAdd G ActorInfo GlobalInfo)))
               (Class ActorInfo))
          = fst (GetMappingPolicy (ClassRepNodePolicies G) (Class ActorInfo))) /\
    (forall f,
        RouteRemove G ActorInfo = Crash f <->
        f = CheckFailed /\
        fst (GetMappingPolicy (ClassRepNodePolicies G) (Class ActorInfo))
          = RelevantAllConnections /\
        StreamingLevelName ActorInfo <> NAME_None /\
        AlwaysRelevantStreamingLevelActors G !! StreamingLevelName ActorInfo = None) /\
    (forall RepList,
        fst (GetMappingPolicy (ClassRepNodePolicies G) (Class ActorInfo))
          = RelevantAllConnections ->
        StreamingLevelName ActorInfo <> NAME_None ->
        AlwaysRelevantStreamingLevelActors G !! StreamingLevelName ActorInfo
          = Some RepList ->
        Actor ActorInfo ∉ RepList ->
        exists G',
          RouteRemove G ActorInfo = Ok G' /\
          AlwaysRelevantStreamingLevelActors G' = AlwaysRelevantStreamingLevelActors G /\
          AlwaysRelevantNode G' = AlwaysRelevantNode G /\
          GridNode G' = GridNode G /\
          Log G' = Log G ++ [Warning_NotFoundInStreamingLevelList
                               (Actor ActorInfo) (StreamingLevelName ActorInfo)]).
Proof.
  intros G ActorInfo. split; [|split].
  - intros GlobalInfo. rewrite RouteAdd_policies, GetMappingPolicy_stable. reflexivity.
  - intros f. unfold RouteRemove, RouteRemoveNetworkActorToNodes.
    destruct (GetMappingPolicy (ClassRepNodePolicies G) (Class ActorInfo))
      as [Policy policies]. cbn [fst].
    destruct Policy;
      try (split; [discriminate | intros (_ & H & _); discriminate]).
    case_bool_decide as Hlevel.
    + split; [discriminate | intros (_ & _ & H & _); contradiction].
    + destruct (AlwaysRelevantStreamingLevelActors G !! StreamingLevelName ActorInfo)
        as [RepList|] eqn:Hlist.
      * destruct (RemoveFast RepList (Actor ActorInfo)) as [found RepList'].
        split; [discriminate | intros (_ & _ & _ & H); discriminate].
      * split.
        -- intros H. inversion H. repeat split; assumption.
        -- intros (-> & _). reflexivity.
  - intros RepList HPolicy Hlevel Hlist Hnot.
    unfold RouteRemove, RouteRemoveNetworkActorToNodes.
    destruct (GetMappingPolicy (ClassRepNodePolicies G) (Class ActorInfo))
      as [Policy policies]. cbn [fst] in HPolicy. subst Policy.
    rewrite bool_decide_eq_false_2 by assumption.
    rewrite Hlist, (RemoveFast_not_found RepList (Actor ActorInfo) Hnot).
    eexists. split; [reflexivity|]. cbn. repeat split.
    now apply insert_id.
Qed.

End RouteFacts.

Lemma RouteRemove_outcomes_witness :
  exists G',
    route_remove (route_add empty_graph (beacon_in_R1 7)) (beacon_in_R1 8) = Ok G' /\
    AlwaysRelevantStreamingLevelActors G' = {[ "R1" := [7] ]} /\
    Log G' = [Warning_NotFoundInStreamingLevelList 8 "R1"].
Proof.
  destruct (RouteRemove_outcomes unit unit unit unit
              (fun _ n => n) (fun _ n => n)
              (fun _ g r => (r, g)) (fun _ g r => (r, g)) (fun _ g r => (r, g))
              (fun _ r => r) (fun _ r => r) (fun _ r => r) (fun _ d => d)
              (route_add empty_graph (beacon_in_R1 7)) (beacon_in_R1 8))
    as (_ & _ & Hwarn).
  destruct (Hwarn [7]) as (G' & Hrun & Hlists & _ & _ & Hlog).
  - reflexivity.
  - discriminate.
  - reflexivity.
  - intros H. apply list_elem_of_singleton in H. discriminate.
  - exists G'. split; [exact Hrun|]. split; [exact Hlists | exact Hlog].
Defined.

(** C9 (as stated) fails.  A [RelevantAllConnections] actor registered under
    streaming level R1 whose list is gone (never created, or cleared by
    [ResetGameWorldState]) makes unregister stop on the [FindChecked]
    assertion. *)
Lemma RouteRemove_fatal_without_level_list :
  fst (GetMappingPolicy ∅ Beacon_Class) = RelevantAllConnections /\
  route_remove empty_graph (beacon_in_R1 7) = Crash CheckFailed /\
  AlwaysRelevantStreamingLevelActors (route_add empty_graph (beacon_in_R1 7)) !! "R1"
    = Some [7] /\
  route_remove
    (ResetGameWorldState unit unit unit (route_add empty_graph (beacon_in_R1 7)))
    (beacon_in_R1 7) = Crash CheckFailed /\
  ~ returns (route_remove empty_graph (beacon_in_R1 7)).
Proof.
  repeat split; try reflexivity. intros H. exact H.
Qed.

End Routing.

(** ** UGameRepGraphNode_AlwaysRelevant_ForConnection *)

Module AlwaysRelevantForConnection.

Import ActorRepList.

Local Open Scope Z_scope.

(** The two fields of the per-connection actor info this node touches. *)
Record FConnectionReplicationActorInfo : Type :=
  { bDormantOnConnection : bool; ReplicationPeriodFrame : Z }.

(** [FPerConnectionActorInfoMap]. *)
Abbreviation FPerConnectionActorInfoMap :=
  (gmap nat FConnectionReplicationActorInfo) (only parsing).

(** A player controller, as far as this node looks at it. *)
Record APlayerController : Type :=
  { PlayerState : option nat; GetPawn : option nat }.

Record FNetViewer : Type :=
  { Connection : nat; InViewer : nat; ViewTarget : nat }.

Record UNetReplicationGraphConnection : Type :=
  { ConnectionOrderNum : Z;
    ActorInfoMap : gmap nat FConnectionReplicationActorInfo }.

(** [(ConnectionOrderNum % 2) == (ReplicationFrameNum % 2)]: the left side is
    an [int32] remainder (sign of the dividend), converted to [uint32] for
    the comparison. *)
Definition bReplicatePS (ConnectionOrderNum ReplicationFrameNum : Z) : bool :=
  to_uint32 (Z.rem ConnectionOrderNum 2) =? ReplicationFrameNum mod 2.

(** [OnClientLevelVisibilityAdd]. *)
Definition OnClientLevelVisibilityAdd (levels : list string) (LevelName : string)
  : list string :=
  levels ++ [LevelName].

(** [OnClientLevelVisibilityRemove]: [TArray::Remove] drops every occurrence. *)
Definition OnClientLevelVisibilityRemove (levels : list string) (LevelName : string)
  : list string :=
  List.filter (fun l => negb (bool_decide (l = LevelName))) levels.

(** Which cached actor of a connection [UpdateCachedRelevantActor] is given. *)
Inductive CachedSlot : Type := LastViewer | LastViewTarget.

Section WithWorld.

(** The dynamic type of the actors of the world. *)
Variable Cast_APlayerController : nat -> option APlayerController.
Variable Cast_ACharacter : nat -> bool.

(** A default-constructed [FConnectionReplicationActorInfo] (engine type). *)
Variable DefaultActorInfo : FConnectionReplicationActorInfo.

(** The inherited engine bookkeeping of the previously relevant pawns. *)
Variable PastRelevantActorMapT : Type.
Variable PastRelevantActorMap_FindOrAdd : nat -> PastRelevantActorMapT -> PastRelevantActorMapT.
Variable UpdateCachedRelevantActor :
  gmap nat FConnectionReplicationActorInfo -> nat -> nat -> CachedSlot ->
  PastRelevantActorMapT ->
  gmap nat FConnectionReplicationActorInfo * PastRelevantActorMapT.
Variable CleanupCachedRelevantActors : PastRelevantActorMapT -> PastRelevantActorMapT.

Record UGameRepGraphNode_AlwaysRelevant_ForConnection : Type :=
  { ReplicationActorList : list nat;
    AlwaysRelevantStreamingLevelsNeedingReplication : list string;
    bInitializedPlayerState : bool;
    PastRelevantActorMap : PastRelevantActorMapT;
    GameplayDebugger : option nat }.

(** [ActorInfoMap.FindOrAdd(Actor)]. *)
Definition FindOrAdd (m : gmap nat FConnectionReplicationActorInfo) (a : nat)
  : FConnectionReplicationActorInfo * gmap nat FConnectionReplicationActorInfo :=
  match m !! a with
  | Some info => (info, m)
  | None => (DefaultActorInfo, <[a := DefaultActorInfo]> m)
  end.

(** Whether [Actor] counts as dormant on the connection. *)
Definition IsDormantOnConnection (m : gmap nat FConnectionReplicationActorInfo)
    (a : nat) : bool :=
  bDormantOnConnection (default DefaultActorInfo (m !! a)).

(** The state the viewer loop works on. *)
Record ViewerLoopState : Type :=
  { vl_List : list nat;
    vl_bInitializedPlayerState : bool;
    vl_ActorInfoMap : gmap nat FConnectionReplicationActorInfo;
    vl_Past : PastRelevantActorMapT }.

(** One turn of the loop over [Params.Viewers]. *)
Definition Viewer_step (ConnectionOrderNum ReplicationFrameNum : Z)
    (st : ViewerLoopState) (CurViewer : FNetViewer) : ViewerLoopState :=
  let L1 := ConditionalAdd (vl_List st) (InViewer CurViewer) in
  let L2 := ConditionalAdd L1 (ViewTarget CurViewer) in
  match Cast_APlayerController (InViewer CurViewer) with
  | None =>
      {| vl_List := L2;
         vl_bInitializedPlayerState := vl_bInitializedPlayerState st;
         vl_ActorInfoMap := vl_ActorInfoMap st;
         vl_Past := vl_Past st |}
  | Some PC =>
      let '(L3, bInit, m1) :=
        if bReplicatePS ConnectionOrderNum ReplicationFrameNum then
          match PlayerState PC with
          | Some PS =>
              let m' :=
                if vl_bInitializedPlayerState st then vl_ActorInfoMap st
                else
                  let '(info, m0) := FindOrAdd (vl_ActorInfoMap st) PS in
                  <[PS := {| bDormantOnConnection := bDormantOnConnection info;
                             ReplicationPeriodFrame := 1 |}]> m0 in
              (ConditionalAdd L2 PS, true, m')
          | None => (L2, vl_bInitializedPlayerState st, vl_ActorInfoMap st)
          end
        else (L2, vl_bInitializedPlayerState st, vl_ActorInfoMap st) in
      let past1 := PastRelevantActorMap_FindOrAdd (Connection CurViewer) (vl_Past st) in
      let '(L4, m2, past2) :=
        match GetPawn PC with
        | Some Pawn =>
            if Cast_ACharacter Pawn then
              let '(m', past') :=
                UpdateCachedRelevantActor m1 Pawn (Connection CurViewer) LastViewer past1 in
              (if bool_decide (Pawn <> ViewTarget CurViewer)
               then ConditionalAdd L3 Pawn else L3, m', past')
            else (L3, m1, past1)
        | None => (L3, m1, past1)
        end in
      let '(m3, past3) :=
        if Cast_ACharacter (ViewTarget CurViewer) then
          UpdateCachedRelevantActor m2 (ViewTarget CurViewer) (Connection CurViewer)
            LastViewTarget past2
        else (m2, past2) in
      {| vl_List := L4;
         vl_bInitializedPlayerState := bInit;
         vl_ActorInfoMap := m3;
         vl_Past := past3 |}
  end.

(** The dormancy scan over one streaming level list: stops at the first
    actor that is not dormant on the connection. *)
Fixpoint AllDormant (RepList : list nat) (m : gmap nat FConnectionReplicationActorInfo)
  : bool * gmap nat FConnectionReplicationActorInfo :=
  match RepList with
  | [] => (true, m)
  | Actor :: rest =>
      let '(ConnectionActorInfo, m') := FindOrAdd m Actor in
      if negb (bDormantOnConnection ConnectionActorInfo) then (false, m')
      else AllDormant rest m'
  end.

(** The state the streaming level loop works on. *)
Record LevelLoopState : Type :=
  { ll_Levels : list string;
    ll_ActorInfoMap : gmap nat FConnectionReplicationActorInfo;
    ll_Out : list (list nat);
    ll_Log : list LogLine }.

(** The body of the loop for index [Idx]. *)
Definition Level_step (LevelActors : gmap string (list nat)) (Idx : nat)
    (st : LevelLoopState) : LevelLoopState :=
  match ll_Levels st !! Idx with
  | None => st
  | Some StreamingLevel =>
      match LevelActors !! StreamingLevel with
      | None =>
          {| ll_Levels := RemoveAtSwap Idx (ll_Levels st);
             ll_ActorInfoMap := ll_ActorInfoMap st;
             ll_Out := ll_Out st; ll_Log := ll_Log st |}
      | Some RepList =>
          if (0 <? length RepList)%nat then
            let '(bAllDormant, m') := AllDormant RepList (ll_ActorInfoMap st) in
            if bAllDormant then
              {| ll_Levels := RemoveAtSwap Idx (ll_Levels st);
                 ll_ActorInfoMap := m';
                 ll_Out := ll_Out st; ll_Log := ll_Log st |}
            else
              {| ll_Levels := ll_Levels st;
                 ll_ActorInfoMap := m';
                 ll_Out := ll_Out st ++ [RepList]; ll_Log := ll_Log st |}
          else
            {| ll_Levels := ll_Levels st;
               ll_ActorInfoMap := ll_ActorInfoMap st;
               ll_Out := ll_Out st; ll_Log := ll_Log st ++ [Warning_EmptyRepList] |}
      end
  end.

(** [for (Idx = Num - 1; Idx >= 0; --Idx)]: [n] is [Idx + 1]. *)
Fixpoint Level_loop (LevelActors : gmap string (list nat)) (n : nat)
    (st : LevelLoopState) : LevelLoopState :=
  match n with
  | O => st
  | S Idx => Level_loop LevelActors Idx (Level_step LevelActors Idx st)
  end.

(** [ResetGameWorldState] of the connection node. *)
Definition ResetGameWorldState (node : UGameRepGraphNode_AlwaysRelevant_ForConnection)
  : UGameRepGraphNode_AlwaysRelevant_ForConnection :=
  {| ReplicationActorList := [];
     AlwaysRelevantStreamingLevelsNeedingReplication := [];
     bInitializedPlayerState := bInitializedPlayerState node;
     PastRelevantActorMap := PastRelevantActorMap node;
     GameplayDebugger := GameplayDebugger node |}.

(** What one gather leaves behind. *)
Record GatherResult : Type :=
  { gr_Node : UGameRepGraphNode_AlwaysRelevant_ForConnection;
    gr_ActorInfoMap : gmap nat FConnectionReplicationActorInfo;
    gr_Out : list (list nat);
    gr_Log : list LogLine }.

(** [GatherActorListsForConnection].  The list handed to
    [OutGatheredReplicationLists] is the one built by the viewer loop; the
    gameplay debugger is added to the node's list afterwards. *)
Definition GatherActorListsForConnection
    (LevelActors : gmap string (list nat))
    (node : UGameRepGraphNode_AlwaysRelevant_ForConnection)
    (ConnectionManager : UNetReplicationGraphConnection)
    (Viewers : list FNetViewer) (ReplicationFrameNum : Z)
    (OutGatheredReplicationLists : list (list nat)) : GatherResult :=
  let v :=
    fold_left (Viewer_step (ConnectionOrderNum ConnectionManager) ReplicationFrameNum)
      Viewers
      {| vl_List := [];
         vl_bInitializedPlayerState := bInitializedPlayerState node;
         vl_ActorInfoMap := ActorInfoMap ConnectionManager;
         vl_Past := PastRelevantActorMap node |} in
  let past := CleanupCachedRelevantActors (vl_Past v) in
  let l :=
    Level_loop LevelActors
      (length (AlwaysRelevantStreamingLevelsNeedingReplication node))
      {| ll_Levels := AlwaysRelevantStreamingLevelsNeedingReplication node;
         ll_ActorInfoMap := vl_ActorInfoMap v;
         ll_Out := OutGatheredReplicationLists ++ [vl_List v];
         ll_Log := [] |} in
  {| gr_Node :=
       {| ReplicationActorList :=
            match GameplayDebugger node with
            | Some d => ConditionalAdd (vl_List v) d
            | None => vl_List v
            end;
          AlwaysRelevantStreamingLevelsNeedingReplication := ll_Levels l;
          bInitializedPlayerState := vl_bInitializedPlayerState v;
          PastRelevantActorMap := past;
          GameplayDebugger := GameplayDebugger node |};
     gr_ActorInfoMap := ll_ActorInfoMap l;
     gr_Out := ll_Out l;
     gr_Log := ll_Log l |}.

End WithWorld.

(** Specification-side reading of the streaming level loop, over a dormancy
    predicate [d]. *)
Definition contribution (LevelActors : gmap string (list nat)) (d : nat -> bool)
    (level : string) : option (list nat) :=
  match LevelActors !! level with
  | Some RepList =>
      if (0 <? length RepList)%nat && negb (forallb d RepList)
      then Some RepList else None
  | None => None
  end.

Definition still_tracked (LevelActors : gmap string (list nat)) (d : nat -> bool)
    (level : string) : bool :=
  match LevelActors !! level with
  | Some RepList =>
      if (0 <? length RepList)%nat then negb (forallb d RepList) else true
  | None => false
  end.

Definition warning_of (LevelActors : gmap string (list nat)) (level : string)
  : option LogLine :=
  match LevelActors !! level with
  | Some RepList => if (0 <? length RepList)%nat then None else Some Warning_EmptyRepList
  | None => None
  end.

(** A small world used as concrete scenario: actor 100 is a player
    controller with player state 101 and no pawn; nobody is a character; a
    fresh per-connection info is not dormant; the cached-pawn bookkeeping is
    trivial. *)
Definition demo_Cast_APlayerController (a : nat) : option APlayerController :=
  if (a =? 100)%nat then Some {| PlayerState := Some 101%nat; GetPawn := None |}
  else None.

Definition demo_DefaultActorInfo : FConnectionReplicationActorInfo :=
  {| bDormantOnConnection := false; ReplicationPeriodFrame := 1 |}.

Definition demo_Gather :=
  GatherActorListsForConnection demo_Cast_APlayerController (fun _ => false)
    demo_DefaultActorInfo unit (fun _ p => p) (fun m _ _ _ p => (m, p)) (fun p => p).

Definition demo_viewers : list FNetViewer :=
  [{| Connection := 0%nat; InViewer := 100%nat; ViewTarget := 100%nat |}].

(** Actors 1 and 2, always relevant, registered under streaming level R1. *)
Definition demo_LevelActors : gmap string (list nat) :=
  Routing.AlwaysRelevantStreamingLevelActors
    (Routing.route_add (Routing.route_add Routing.empty_graph (Routing.beacon_in_R1 1))
       (Routing.beacon_in_R1 2)).

(** The connection has just made R1 visible. *)
Definition demo_node : UGameRepGraphNode_AlwaysRelevant_ForConnection unit :=
  {| ReplicationActorList := [];
     AlwaysRelevantStreamingLevelsNeedingReplication := OnClientLevelVisibilityAdd [] "R1";
     bInitializedPlayerState := false;
     PastRelevantActorMap := tt;
     GameplayDebugger := None |}.

Definition demo_connection : UNetReplicationGraphConnection :=
  {| ConnectionOrderNum := 0; ActorInfoMap := ∅ |}.

Definition demo_first_gather : GatherResult unit :=
  demo_Gather demo_LevelActors demo_node demo_connection demo_viewers 0 [].

Definition dormant_info : FConnectionReplicationActorInfo :=
  {| bDormantOnConnection := true; ReplicationPeriodFrame := 1 |}.

(** Both actors have gone dormant on the connection before the next tick. *)
Definition demo_connection_dormant : UNetReplicationGraphConnection :=
  {| ConnectionOrderNum := 0;
     ActorInfoMap :=
       <[1%nat := dormant_info]>
         (<[2%nat := dormant_info]> (gr_ActorInfoMap unit demo_first_gather)) |}.

Definition demo_second_gather : GatherResult unit :=
  demo_Gather demo_LevelActors (gr_Node unit demo_first_gather)
    demo_connection_dormant demo_viewers 1 [].

(** A tracked level whose list exists but has been emptied (actor 1 was
    registered under R1 and unregistered again). *)
Definition demo_LevelActors_emptied : gmap string (list nat) :=
  match Routing.route_remove
          (Routing.route_add Routing.empty_graph (Routing.beacon_in_R1 1))
          (Routing.beacon_in_R1 1) with
  | Ok G => Routing.AlwaysRelevantStreamingLevelActors G
  | Crash _ => ∅
  end.

Definition demo_emptied_gather : GatherResult unit :=
  demo_Gather demo_LevelActors_emptied demo_node demo_connection demo_viewers 0 [].

(** *** The tick parity *)

Lemma bReplicatePS_sum c f :
  0 <= c -> 0 <= f -> bReplicatePS c f = ((c + f) mod 2 =? 0).
Proof.
  intros Hc Hf. unfold bReplicatePS, to_uint32, uint32_modulus.
  rewrite Z.rem_mod_nonneg by lia.
  pose proof (Z.mod_pos_bound c 2 ltac:(lia)) as Bc.
  pose proof (Z.mod_pos_bound f 2 ltac:(lia)) as Bf.
  rewrite (Z.mod_small (c mod 2)) by lia.
  rewrite (Zplus_mod c f).
  assert (Ec : c mod 2 = 0 \/ c mod 2 = 1) by lia.
  assert (Ef : f mod 2 = 0 \/ f mod 2 = 1) by lia.
  destruct Ec as [-> | ->], Ef as [-> | ->]; reflexivity.
Qed.

Lemma next_frame_parity f : next_frame f mod 2 = (f + 1) mod 2.
Proof.
  unfold next_frame, to_uint32, uint32_modulus.
  apply Z.mod_mod_divide. exists (2 ^ 31). reflexivity.
Qed.

Lemma bReplicatePS_next_frame c f :
  0 <= c -> 0 <= f ->
  bReplicatePS c (next_frame f) = negb (bReplicatePS c f).
Proof.
  intros Hc Hf. unfold bReplicatePS. rewrite next_frame_parity.
  unfold to_uint32, uint32_modulus. rewrite Z.rem_mod_nonneg by lia.
  pose proof (Z.mod_pos_bound c 2 ltac:(lia)) as Bc.
  pose proof (Z.mod_pos_bound f 2 ltac:(lia)) as Bf.
  rewrite (Z.mod_small (c mod 2)) by lia.
  rewrite (Zplus_mod f 1).
  assert (Ec : c mod 2 = 0 \/ c mod 2 = 1) by lia.
  assert (Ef : f mod 2 = 0 \/ f mod 2 = 1) by lia.
  destruct Ec as [-> | ->], Ef as [-> | ->]; reflexivity.
Qed.

Lemma bReplicatePS_next_connection c f :
  0 <= c -> 0 <= f ->
  bReplicatePS (c + 1) f = negb (bReplicatePS c f).
Proof.
  intros Hc Hf. rewrite !bReplicatePS_sum by lia.
  replace (c + 1 + f) with ((c + f) + 1) by lia.
  rewrite (Zplus_mod (c + f) 1).
  pose proof (Z.mod_pos_bound (c + f) 2 ltac:(lia)) as B.
  assert (E : (c + f) mod 2 = 0 \/ (c + f) mod 2 = 1) by lia.
  destruct E as [-> | ->]; reflexivity.
Qed.

(** *** The viewer loop *)

Lemma ConditionalAdd_elem (l : list nat) (a b : nat) :
  a ∈ ConditionalAdd l b <-> a ∈ l \/ a = b.
Proof.
  unfold ConditionalAdd. case_bool_decide as H.
  - split; [now left | intros [?| ->]; assumption].
  - rewrite elem_of_app, list_elem_of_singleton. reflexivity.
Qed.

Section GatherFacts.

Variable Cast_APlayerController : nat -> option APlayerController.
Variable Cast_ACharacter : nat -> bool.
Variable DefaultActorInfo : FConnectionReplicationActorInfo.
Variable PastRelevantActorMapT : Type.
Variable PastRelevantActorMap_FindOrAdd : nat -> PastRelevantActorMapT -> PastRelevantActorMapT.
Variable UpdateCachedRelevantActor :
  gmap nat FConnectionReplicationActorInfo -> nat -> nat -> CachedSlot ->
  PastRelevantActorMapT ->
  gmap nat FConnectionReplicationActorInfo * PastRelevantActorMapT.
Variable CleanupCachedRelevantActors : PastRelevantActorMapT -> PastRelevantActorMapT.

Let step :=
  Viewer_step Cast_APlayerController Cast_ACharacter DefaultActorInfo
    PastRelevantActorMapT PastRelevantActorMap_FindOrAdd UpdateCachedRelevantActor.
Let Gather :=
  GatherActorListsForConnection Cast_APlayerController Cast_ACharacter DefaultActorInfo
    PastRelevantActorMapT PastRelevantActorMap_FindOrAdd UpdateCachedRelevantActor
    CleanupCachedRelevantActors.
Let dormant := IsDormantOnConnection DefaultActorInfo.

(** Where an actor of the viewer list can come from. *)
Definition added_by (c f : Z) (v : FNetViewer) (a : nat) : Prop :=
  a = InViewer v \/ a = ViewTarget v \/
  exists PC, Cast_APlayerController (InViewer v) = Some PC /\
    ((bReplicatePS c f = true /\ PlayerState PC = Some a) \/
     (GetPawn PC = Some a /\ Cast_ACharacter a = true /\ a <> ViewTarget v)).

Lemma Viewer_step_list c f st v a :
  a ∈ vl_List _ (step c f st v) <-> a ∈ vl_List _ st \/ added_by c f v a.
Proof.
  unfold step, Viewer_step, added_by.
  destruct (Cast_APlayerController (InViewer v)) as [PC|] eqn:HPC.
  2:{ cbn. rewrite !ConditionalAdd_elem. split.
      - intros [[H|H]|H]; auto.
      - intros [H|[H|[H|(PC & HPC' & _)]]]; auto. discriminate. }
  set (L2 := ConditionalAdd (ConditionalAdd (vl_List _ st) (InViewer v)) (ViewTarget v)).
  assert (HL2 : forall x, x ∈ L2 <-> x ∈ vl_List _ st \/ x = InViewer v \/ x = ViewTarget v).
  { intros x. unfold L2. rewrite !ConditionalAdd_elem. tauto. }
  destruct (bReplicatePS c f) eqn:Hsel; destruct (PlayerState PC) as [PS|] eqn:HPS;
    destruct (GetPawn PC) as [Pawn|] eqn:HPawn;
    try destruct (Cast_ACharacter Pawn) eqn:HChar;
    try destruct (UpdateCachedRelevantActor _ Pawn _ LastViewer _) as [m' past'];
    try case_bool_decide;
    destruct (Cast_ACharacter (ViewTarget v));
    try destruct (UpdateCachedRelevantActor _ (ViewTarget v) _ LastViewTarget _);
    cbn [vl_List]; rewrite ?ConditionalAdd_elem, ?HL2;
    (split;
     [ intros H'; decompose [or] H'; subst; eauto 10
     | intros [H'|[H'|[H'|(PC' & HPC' & [[Hs HP]|(HP & Hc & Hn)])]]];
       simplify_eq; try solve [exfalso; auto | exfalso; congruence]; auto 10 ]).
Qed.

Lemma ViewerLoop_list c f vs :
  forall st a,
    a ∈ vl_List _ (fold_left (step c f) vs st) <->
    a ∈ vl_List _ st \/ exists v, v ∈ vs /\ added_by c f v a.
Proof.
  induction vs as [|v vs IH]; intros st a; cbn [fold_left].
  - split; [now left | intros [H|(v & Hv & _)]; [assumption|]].
    now apply elem_of_nil in Hv.
  - rewrite IH, Viewer_step_list. split.
    + intros [[H|H]|(v' & Hv' & H)]; [now left | right | right].
      * exists v. split; [apply list_elem_of_here | assumption].
      * exists v'. split; [now apply list_elem_of_further | assumption].
    + intros [H|(v' & Hv' & H)]; [left; now left|].
      apply elem_of_cons in Hv' as [-> | Hv'].
      * left. now right.
      * right. exists v'. split; assumption.
Qed.

(** The streaming level loop only appends to the gathered lists. *)
Lemma Level_step_out LevelActors Idx st :
  exists extra, ll_Out (Level_step DefaultActorInfo LevelActors Idx st) = ll_Out st ++ extra.
Proof.
  unfold Level_step.
  destruct (ll_Levels st !! Idx) as [level|]; [|exists []; now rewrite app_nil_r].
  destruct (LevelActors !! level) as [RepList|]; [|exists []; cbn; now rewrite app_nil_r].
  destruct (0 <? length RepList)%nat; [|exists []; cbn; now rewrite app_nil_r].
  destruct (AllDormant DefaultActorInfo RepList (ll_ActorInfoMap st)) as [[|] m'].
  - exists []. cbn. now rewrite app_nil_r.
  - exists [RepList]. reflexivity.
Qed.

Lemma Level_loop_out LevelActors n :
  forall st, exists extra,
    ll_Out (Level_loop DefaultActorInfo LevelActors n st) = ll_Out st ++ extra.
Proof.
  induction n as [|n IH]; intros st; cbn [Level_loop].
  - exists []. now rewrite app_nil_r.
  - destruct (IH (Level_step DefaultActorInfo LevelActors n st)) as (e2 & H2).
    destruct (Level_step_out LevelActors n st) as (e1 & H1).
    exists (e1 ++ e2). rewrite H2, H1. now rewrite app_assoc.
Qed.

(** The list gathered from the viewers sits right after what the gathered
    lists held before. *)
Lemma Gather_viewer_list LevelActors node conn Viewers f out :
  gr_Out _ (Gather LevelActors node conn Viewers f out) !! length out =
  Some (vl_List _
          (fold_left (step (ConnectionOrderNum conn) f) Viewers
             {| vl_List := [];
                vl_bInitializedPlayerState := bInitializedPlayerState _ node;
                vl_ActorInfoMap := ActorInfoMap conn;
                vl_Past := PastRelevantActorMap _ node |})).
Proof.
  unfold Gather, GatherActorListsForConnection. cbn [gr_Out].
  match goal with
  | |- ll_Out (Level_loop _ _ ?n ?st) !! _ = _ =>
      destruct (Level_loop_out LevelActors n st) as (extra & ->)
  end.
  cbn [ll_Out]. rewrite <- app_assoc.
  rewrite lookup_app_r by lia. now rewrite Nat.sub_diag.
Qed.

(** C6.  For a connection with a non-negative order index and a viewer that
    is a player controller with a player state, at tick [f]: the connection
    is selected exactly when [(ConnectionOrderNum + f) mod 2 = 0]; when
    selected, the player state is in the list the node gathers from the
    viewers; when not selected, the player state is not in that list unless
    it is itself a viewer, a view target or a controlled character of the
    connection.  The selection flips from each tick to the next (the counter
    is a wrapping [uint32]) and from each connection index to the next.  The
    frequency limiter takes no part in any of this. *)
Theorem player_state_on_alternate_ticks :
  forall LevelActors node conn Viewers f out v PC PS,
    v ∈ Viewers ->
    Cast_APlayerController (InViewer v) = Some PC ->
    PlayerState PC = Some PS ->
    0 <= ConnectionOrderNum conn ->
    0 <= f < 2 ^ 32 ->
    exists L,
      gr_Out _ (Gather LevelActors node conn Viewers f out) !! length out = Some L /\
      (bReplicatePS (ConnectionOrderNum conn) f = true <->
       (ConnectionOrderNum conn + f) mod 2 = 0) /\
      (bReplicatePS (ConnectionOrderNum conn) f = true -> PS ∈ L) /\
      (bReplicatePS (ConnectionOrderNum conn) f = false ->
       (forall v', v' ∈ Viewers ->
          InViewer v' <> PS /\ ViewTarget v' <> PS /\
          forall PC', Cast_APlayerController (InViewer v') = Some PC' ->
                      GetPawn PC' <> Some PS) ->
       PS ∉ L) /\
      bReplicatePS (ConnectionOrderNum conn) (next_frame f)
        = negb (bReplicatePS (ConnectionOrderNum conn) f) /\
      bReplicatePS (ConnectionOrderNum conn + 1) f
        = negb (bReplicatePS (ConnectionOrderNum conn) f).
Proof.
  intros LevelActors node conn Viewers f out v PC PS Hv HPC HPS Hc Hf.
  eexists. split; [apply Gather_viewer_list|].
  split.
  { rewrite bReplicatePS_sum by lia. apply Z.eqb_eq. }
  split.
  { intros Hsel. apply ViewerLoop_list. right. exists v. split; [assumption|].
    right. right. exists PC. split; [assumption|]. left. split; assumption. }
  split.
  { intros Hsel Hother Hin. apply ViewerLoop_list in Hin as [Hin|(v' & Hv' & Hadd)].
    - cbn in Hin. now apply elem_of_nil in Hin.
    - destruct (Hother v' Hv') as (H1 & H2 & H3).
      destruct Hadd as [E|[E|(PC' & HPC' & [[Hs _]|(HP & _)])]].
      + congruence.
      + congruence.
      + congruence.
      + exact (H3 PC' HPC' HP). }
  split.
  - apply bReplicatePS_next_frame; lia.
  - apply bReplicatePS_next_connection; lia.
Qed.

(** *** The streaming level loop *)

Lemma forallb_pointwise {A} (g h : A -> bool) (l : list A) :
  (forall a, g a = h a) -> forallb g l = forallb h l.
Proof. intros E. induction l as [|a l IH]; cbn; [reflexivity|]. now rewrite E, IH. Qed.

Lemma FindOrAdd_dormant m a :
  bDormantOnConnection (fst (FindOrAdd DefaultActorInfo m a)) = dormant m a /\
  forall b, dormant (snd (FindOrAdd DefaultActorInfo m a)) b = dormant m b.
Proof.
  unfold FindOrAdd, dormant, IsDormantOnConnection.
  destruct (m !! a) as [info|] eqn:E; cbn.
  - split; reflexivity.
  - split; [reflexivity|]. intros b.
    destruct (decide (a = b)) as [->|Hne].
    + now rewrite lookup_insert_eq, E.
    + now rewrite lookup_insert_ne.
Qed.

Lemma AllDormant_spec RepList :
  forall m,
    fst (AllDormant DefaultActorInfo RepList m) = forallb (dormant m) RepList /\
    forall b, dormant (snd (AllDormant DefaultActorInfo RepList m)) b = dormant m b.
Proof.
  induction RepList as [|a rest IH]; intros m; cbn [AllDormant forallb].
  - split; reflexivity.
  - destruct (FindOrAdd_dormant m a) as [H1 H2].
    destruct (FindOrAdd DefaultActorInfo m a) as [info m']. cbn [fst snd] in H1, H2.
    rewrite <- H1. destruct (bDormantOnConnection info); cbn [negb andb].
    + destruct (IH m') as [I1 I2]. split.
      * rewrite I1. now apply forallb_pointwise.
      * intros b. now rewrite I2.
    + split; [reflexivity | exact H2].
Qed.

Lemma RemoveAtSwap_middle {A} (pre : list A) (x : A) (K : list A) :
  exists K', RemoveAtSwap (length pre) (pre ++ x :: K) = pre ++ K' /\ K' ≡ₚ K.
Proof.
  unfold RemoveAtSwap. destruct K as [|k K0 _] using rev_ind.
  - exists []. split; [|reflexivity].
    rewrite last_snoc, length_app. cbn [length].
    replace (Nat.pred (length pre + 1)) with (length pre) by lia.
    rewrite insert_app_r_alt by lia. rewrite Nat.sub_diag. cbn.
    rewrite take_app_length. now rewrite app_nil_r.
  - exists (k :: K0). split; [|apply Permutation_cons_append].
    replace (pre ++ x :: K0 ++ [k]) with ((pre ++ x :: K0) ++ [k])
      by now rewrite <- app_assoc.
    rewrite last_snoc.
    rewrite <- app_assoc. cbn [app].
    rewrite insert_app_r_alt by lia. rewrite Nat.sub_diag. cbn [insert list_insert].
    replace (pre ++ k :: K0 ++ [k]) with ((pre ++ k :: K0) ++ [k])
      by now rewrite <- app_assoc.
    replace (Nat.pred (length (pre ++ x :: K0 ++ [k]))) with (length (pre ++ k :: K0)).
    + now rewrite take_app_length.
    + rewrite !length_app. cbn [length]. rewrite length_app. cbn [length]. lia.
Qed.

Lemma Level_step_spec LevelActors d pre x K st :
  ll_Levels st = pre ++ x :: K ->
  (forall a, dormant (ll_ActorInfoMap st) a = d a) ->
  let st1 := Level_step DefaultActorInfo LevelActors (length pre) st in
  (exists K1, ll_Levels st1 = pre ++ K1 /\
              K1 ≡ₚ (if still_tracked LevelActors d x then x :: K else K)) /\
  ll_Out st1 = ll_Out st ++ omap (contribution LevelActors d) [x] /\
  ll_Log st1 = ll_Log st ++ omap (warning_of LevelActors) [x] /\
  (forall a, dormant (ll_ActorInfoMap st1) a = d a).
Proof.
  intros Hl Hd. cbn zeta. unfold Level_step.
  rewrite Hl, list_lookup_middle by reflexivity.
  unfold still_tracked, contribution, warning_of. cbn [omap list_omap].
  destruct (LevelActors !! x) as [RepList|] eqn:Hx.
  2:{ cbn [ll_Levels ll_Out ll_Log ll_ActorInfoMap]. rewrite ?app_nil_r.
      repeat split; try assumption. apply RemoveAtSwap_middle. }
  destruct (0 <? length RepList)%nat eqn:Hlen.
  2:{ cbn [ll_Levels ll_Out ll_Log ll_ActorInfoMap andb]. rewrite ?app_nil_r.
      repeat split; try assumption. exists (x :: K). split; reflexivity. }
  destruct (AllDormant_spec RepList (ll_ActorInfoMap st)) as [A1 A2].
  destruct (AllDormant DefaultActorInfo RepList (ll_ActorInfoMap st)) as [b m'].
  cbn [fst snd] in A1, A2.
  rewrite (forallb_pointwise _ d) in A1 by exact Hd. rewrite <- A1.
  destruct b; cbn [ll_Levels ll_Out ll_Log ll_ActorInfoMap andb negb];
    rewrite ?app_nil_r.
  - repeat split.
    + apply RemoveAtSwap_middle.
    + intros a. now rewrite A2.
  - repeat split.
    + exists (x :: K). split; reflexivity.
    + intros a. now rewrite A2.
Qed.

Lemma Level_loop_spec LevelActors d :
  forall pre K st,
    ll_Levels st = pre ++ K ->
    (forall a, dormant (ll_ActorInfoMap st) a = d a) ->
    let st' := Level_loop DefaultActorInfo LevelActors (length pre) st in
    ll_Levels st' ≡ₚ List.filter (still_tracked LevelActors d) pre ++ K /\
    ll_Out st' = ll_Out st ++ omap (contribution LevelActors d) (rev pre) /\
    ll_Log st' = ll_Log st ++ omap (warning_of LevelActors) (rev pre) /\
    (forall a, dormant (ll_ActorInfoMap st') a = d a).
Proof.
  induction pre as [|x pre IH] using rev_ind; intros K st Hl Hd; cbn zeta.
  - cbn. rewrite Hl, !app_nil_r. repeat split; auto.
  - rewrite length_app. cbn [length]. rewrite Nat.add_1_r. cbn [Level_loop].
    rewrite <- app_assoc in Hl. cbn [app] in Hl.
    destruct (Level_step_spec LevelActors d pre x K st Hl Hd)
      as ((K1 & Hl1 & HK1) & Hout1 & Hlog1 & Hd1).
    destruct (IH K1 _ Hl1 Hd1) as (Hl2 & Hout2 & Hlog2 & Hd2).
    rewrite rev_unit, List.filter_app. cbn [List.filter].
    repeat split.
    + rewrite Hl2, HK1, <- app_assoc.
      destruct (still_tracked LevelActors d x); reflexivity.
    + rewrite Hout2, Hout1, <- app_assoc. f_equal.
      cbn [omap list_omap]. destruct (contribution LevelActors d x); reflexivity.
    + rewrite Hlog2, Hlog1, <- app_assoc. f_equal.
      cbn [omap list_omap]. destruct (warning_of LevelActors x); reflexivity.
    + exact Hd2.
Qed.

(** From here on the inherited bookkeeping of cached pawns is taken to leave
    the dormancy flags of the connection alone (it adjusts cull distances). *)
Hypothesis UpdateCachedRelevantActor_keeps_dormancy :
  forall m NewActor conn slot past b,
    dormant (fst (UpdateCachedRelevantActor m NewActor conn slot past)) b = dormant m b.

Lemma set_period_dormant (m : gmap nat FConnectionReplicationActorInfo) PS b :
  dormant
    (let '(info, m0) := FindOrAdd DefaultActorInfo m PS in
     <[PS := {| bDormantOnConnection := bDormantOnConnection info;
                ReplicationPeriodFrame := 1 |}]> m0) b
  = dormant m b.
Proof.
  destruct (FindOrAdd_dormant m PS) as [H1 H2].
  destruct (FindOrAdd DefaultActorInfo m PS) as [info m0]. cbn [fst snd] in H1, H2.
  destruct (decide (PS = b)) as [->|Hne].
  - unfold dormant at 1, IsDormantOnConnection. rewrite lookup_insert_eq. exact H1.
  - unfold dormant at 1, IsDormantOnConnection. rewrite lookup_insert_ne by assumption.
    apply H2.
Qed.

Lemma Viewer_step_dormant c f st v b :
  dormant (vl_ActorInfoMap _ (step c f st v)) b = dormant (vl_ActorInfoMap _ st) b.
Proof.
  unfold step, Viewer_step.
  destruct (Cast_APlayerController (InViewer v)) as [PC|]; [|reflexivity].
  pose proof (set_period_dormant (vl_ActorInfoMap _ st)) as Hset.
  destruct (bReplicatePS c f); destruct (PlayerState PC) as [PS|];
    destruct (vl_bInitializedPlayerState _ st);
    destruct (GetPawn PC) as [Pawn|];
    try destruct (Cast_ACharacter Pawn);
    destruct (Cast_ACharacter (ViewTarget v));
    repeat match goal with
      | |- context [UpdateCachedRelevantActor ?m ?a ?k ?s ?p] =>
          let H := fresh "Hkeep" in
          pose proof (UpdateCachedRelevantActor_keeps_dormancy m a k s p b) as H;
          destruct (UpdateCachedRelevantActor m a k s p) as [? ?];
          cbn [fst] in H
      end;
    cbn [vl_ActorInfoMap];
    repeat match goal with
      | H : dormant _ b = dormant _ b |- _ => rewrite H; clear H
      end;
    try reflexivity; try apply Hset.
Qed.

Lemma ViewerLoop_dormant c f vs :
  forall st b,
    dormant (vl_ActorInfoMap _ (fold_left (step c f) vs st)) b
      = dormant (vl_ActorInfoMap _ st) b.
Proof.
  induction vs as [|v vs IH]; intros st b; cbn [fold_left]; [reflexivity|].
  now rewrite IH, Viewer_step_dormant.
Qed.

(** The whole gather, in terms of the dormancy flags the connection had when
    it started. *)
Lemma Gather_levels LevelActors node conn Viewers f out :
  let r := Gather LevelActors node conn Viewers f out in
  let d := dormant (ActorInfoMap conn) in
  let levels := AlwaysRelevantStreamingLevelsNeedingReplication _ node in
  AlwaysRelevantStreamingLevelsNeedingReplication _ (gr_Node _ r)
    ≡ₚ List.filter (still_tracked LevelActors d) levels /\
  (exists L, gr_Out _ r = out ++ [L] ++ omap (contribution LevelActors d) (rev levels)) /\
  gr_Log _ r = omap (warning_of LevelActors) (rev levels) /\
  (forall a, dormant (gr_ActorInfoMap _ r) a = d a).
Proof.
  cbn zeta. unfold Gather, GatherActorListsForConnection.
  cbn [gr_Node gr_Out gr_Log gr_ActorInfoMap AlwaysRelevantStreamingLevelsNeedingReplication].
  match goal with
  | |- context [Level_loop _ _ (length ?pre) ?st] =>
      destruct (Level_loop_spec LevelActors (dormant (ActorInfoMap conn)) pre [] st)
        as (Hl & Hout & Hlog & Hd)
  end.
  - cbn [ll_Levels]. now rewrite app_nil_r.
  - intros a. cbn [ll_ActorInfoMap]. apply ViewerLoop_dormant.
  - rewrite app_nil_r in Hl. repeat split.
    + exact Hl.
    + eexists. rewrite Hout. cbn [ll_Out]. now rewrite <- app_assoc.
    + rewrite Hlog. reflexivity.
    + exact Hd.
Qed.

End GatherFacts.

Lemma player_state_on_alternate_ticks_witness :
  exists L,
    gr_Out unit (demo_Gather demo_LevelActors demo_node demo_connection demo_viewers 0 [])
      !! 0%nat = Some L /\
    101%nat ∈ L.
Proof.
  destruct (player_state_on_alternate_ticks
              demo_Cast_APlayerController (fun _ => false) demo_DefaultActorInfo unit
              (fun _ p => p) (fun m _ _ _ p => (m, p)) (fun p => p)
              demo_LevelActors demo_node demo_connection demo_viewers 0 []
              {| Connection := 0%nat; InViewer := 100%nat; ViewTarget := 100%nat |}
              {| PlayerState := Some 101%nat; GetPawn := None |} 101%nat)
    as (L & HL & _ & Hin & _).
  - apply list_elem_of_here.
  - reflexivity.
  - reflexivity.
  - cbn. lia.
  - lia.
  - exists L. split; [exact HL | apply Hin; reflexivity].
Defined.

(** C5 (as the code has it).  Taking the cached-pawn bookkeeping to leave
    dormancy flags alone, one gather treats every tracked streaming level as
    follows, by the dormancy flags the connection had when the gather
    started: a level with no list stops being tracked; a level whose
    non-empty list is all dormant stops being tracked and contributes
    nothing; a level whose list has a member that is not dormant stays
    tracked and its list is gathered; a level whose list exists but is empty
    stays tracked, contributes nothing and is reported by a warning.  What is
    gathered is the viewer list followed by exactly these contributions.
    With actors 1 and 2 registered under R1 and R1 visible, the gather
    contains the list of 1 and 2; once both are dormant on the connection the
    next gather contains nothing for R1 and R1 is no longer tracked. *)
Theorem streaming_levels_gated_by_dormancy :
  (forall Cast_APlayerController Cast_ACharacter DefaultActorInfo
          (PastRelevantActorMapT : Type) PastRelevantActorMap_FindOrAdd
          UpdateCachedRelevantActor CleanupCachedRelevantActors,
      (forall m NewActor k slot past b,
          IsDormantOnConnection DefaultActorInfo
            (fst (UpdateCachedRelevantActor m NewActor k slot past)) b
          = IsDormantOnConnection DefaultActorInfo m b) ->
      forall LevelActors node conn Viewers f out level,
        level ∈ AlwaysRelevantStreamingLevelsNeedingReplication PastRelevantActorMapT node ->
        let r :=
          GatherActorListsForConnection Cast_APlayerController Cast_ACharacter
            DefaultActorInfo PastRelevantActorMapT PastRelevantActorMap_FindOrAdd
            UpdateCachedRelevantActor CleanupCachedRelevantActors
            LevelActors node conn Viewers f out in
        let d := IsDormantOnConnection DefaultActorInfo (ActorInfoMap conn) in
        let tracked' :=
          AlwaysRelevantStreamingLevelsNeedingReplication _ (gr_Node _ r) in
        (exists L,
            gr_Out _ r =
              out ++ [L] ++
              omap (contribution LevelActors d)
                (rev (AlwaysRelevantStreamingLevelsNeedingReplication _ node))) /\
        (LevelActors !! level = None ->
           (level ∉ tracked') /\ contribution LevelActors d level = None) /\
        (forall RepList,
            LevelActors !! level = Some RepList -> RepList <> [] ->
            (forall a, a ∈ RepList -> d a = true) ->
            (level ∉ tracked') /\ contribution LevelActors d level = None) /\
        (forall RepList a,
            LevelActors !! level = Some RepList -> a ∈ RepList -> d a = false ->
            level ∈ tracked' /\ contribution LevelActors d level = Some RepList /\
            RepList ∈ gr_Out _ r) /\
        (LevelActors !! level = Some [] ->
           level ∈ tracked' /\ contribution LevelActors d level = None /\
           Warning_EmptyRepList ∈ gr_Log _ r))
  /\ demo_LevelActors !! "R1" = Some [1; 2]%nat
  /\ gr_Out unit demo_first_gather = [[100; 101]; [1; 2]]%nat
  /\ AlwaysRelevantStreamingLevelsNeedingReplication unit (gr_Node unit demo_first_gather)
       = ["R1"]
  /\ gr_Out unit demo_second_gather = [[100%nat]]
  /\ AlwaysRelevantStreamingLevelsNeedingReplication unit (gr_Node unit demo_second_gather)
       = [].
Proof.
  split; [|repeat split; vm_compute; reflexivity].
  intros CastPC CastChar Default PastT PastFOA Update Cleanup Hkeep
         LevelActors node conn Viewers f out level Hlevel.
  cbn zeta.
  destruct (Gather_levels CastPC CastChar Default PastT PastFOA Update Cleanup Hkeep
              LevelActors node conn Viewers f out)
    as (Hperm & (L & Hout) & Hlog & _).
  set (d := IsDormantOnConnection Default (ActorInfoMap conn)) in *.
  assert (Htracked : forall l,
             l ∈ AlwaysRelevantStreamingLevelsNeedingReplication PastT
                   (gr_Node PastT
                      (GatherActorListsForConnection CastPC CastChar Default PastT
                         PastFOA Update Cleanup LevelActors node conn Viewers f out)) <->
             l ∈ AlwaysRelevantStreamingLevelsNeedingReplication PastT node /\
             still_tracked LevelActors d l = true).
  { intros l. rewrite Hperm, !list_elem_of_In. apply filter_In. }
  assert (Hrev : level ∈ rev (AlwaysRelevantStreamingLevelsNeedingReplication PastT node)).
  { apply list_elem_of_In. rewrite <- in_rev. now apply list_elem_of_In. }
  split; [exists L; exact Hout|].
  split.
  { intros Hnone. split.
    - rewrite Htracked. unfold still_tracked. rewrite Hnone. intros [_ H]. discriminate.
    - unfold contribution. now rewrite Hnone. }
  split.
  { intros RepList Hsome Hne Hall.
    assert (Hfa : forallb d RepList = true).
    { apply forallb_forall. intros a Ha. apply Hall. now apply list_elem_of_In. }
    assert (Hlen : (0 <? length RepList)%nat = true).
    { destruct RepList; [contradiction | reflexivity]. }
    split.
    - rewrite Htracked. unfold still_tracked. rewrite Hsome, Hlen, Hfa.
      intros [_ H]. discriminate.
    - unfold contribution. now rewrite Hsome, Hlen, Hfa. }
  split.
  { intros RepList a Hsome Ha Hd.
    assert (Hfa : forallb d RepList = false).
    { destruct (forallb d RepList) eqn:E; [|reflexivity].
      rewrite forallb_forall in E. rewrite (E a) in Hd; [discriminate|].
      now apply list_elem_of_In. }
    assert (Hlen : (0 <? length RepList)%nat = true).
    { destruct RepList; [now apply elem_of_nil in Ha | reflexivity]. }
    assert (Hc : contribution LevelActors d level = Some RepList).
    { unfold contribution. now rewrite Hsome, Hlen, Hfa. }
    split; [|split; [exact Hc|]].
    - rewrite Htracked. split; [assumption|].
      unfold still_tracked. now rewrite Hsome, Hlen, Hfa.
    - rewrite Hout, !elem_of_app. right. right.
      apply list_elem_of_omap. exists level. split; assumption. }
  intros Hsome. split; [|split].
  - rewrite Htracked. split; [assumption|]. unfold still_tracked. now rewrite Hsome.
  - unfold contribution. now rewrite Hsome.
  - rewrite Hlog. apply list_elem_of_omap. exists level. split; [assumption|].
    unfold warning_of. now rewrite Hsome.
Qed.

Lemma streaming_levels_gated_by_dormancy_witness :
  "R1" ∈ AlwaysRelevantStreamingLevelsNeedingReplication unit (gr_Node unit demo_first_gather) /\
  [1; 2]%nat ∈ gr_Out unit demo_first_gather.
Proof.
  destruct (proj1 streaming_levels_gated_by_dormancy
              demo_Cast_APlayerController (fun _ => false) demo_DefaultActorInfo unit
              (fun _ p => p) (fun m _ _ _ p => (m, p)) (fun p => p)
              (fun m NewActor k slot past b => eq_refl)
              demo_LevelActors demo_node demo_connection demo_viewers 0 [] "R1")
    as (_ & _ & _ & Hlive & _).
  - apply list_elem_of_here.
  - destruct (Hlive [1; 2]%nat 1%nat) as (Ht & _ & Ho).
    + reflexivity.
    + apply list_elem_of_here.
    + reflexivity.
    + split; [exact Ht | exact Ho].
Defined.

(** C5 (as stated) fails.  Actor 1 was registered under R1 and unregistered
    again, so the list of R1 exists and is empty.  The gather reports the
    empty list by a warning and goes on tracking R1. *)
Lemma empty_level_list_stays_tracked :
  demo_LevelActors_emptied !! "R1" = Some [] /\
  AlwaysRelevantStreamingLevelsNeedingReplication unit demo_node = ["R1"] /\
  AlwaysRelevantStreamingLevelsNeedingReplication unit (gr_Node unit demo_emptied_gather)
    = ["R1"] /\
  gr_Log unit demo_emptied_gather = [Warning_EmptyRepList] /\
  "R1" ∈ AlwaysRelevantStreamingLevelsNeedingReplication unit
           (gr_Node unit demo_emptied_gather).
Proof.
  repeat split; try (vm_compute; reflexivity).
  assert (E : AlwaysRelevantStreamingLevelsNeedingReplication unit
                (gr_Node unit demo_emptied_gather) = ["R1"]) by (vm_compute; reflexivity).
  rewrite E. apply list_elem_of_here.
Qed.

End AlwaysRelevantForConnection.

(** ** URewindableComponent: life of a component *)

Module RewindLife.

Import Rewind.

Local Open Scope Q_scope.

(** The constructor: ticking enabled, [bJustTeleported = false], no history. *)
Definition Constructed (o : option AActor) (MaxRecord : float) : URewindableComponent :=
  {| Owner := o; bJustTeleported := false; FrameHistory := []; MaxRecordTime := MaxRecord |}.

(** [SetJustTeleported]: the body is empty. *)
Definition SetJustTeleported (c : URewindableComponent) (bInJustTeleported : bool)
  : URewindableComponent := c.

(** What happens to a component between construction and destruction: the
    engine ticks it (the owner's bounds at that moment are [Bounds], the world
    clock shows [TimeSeconds]) and game code calls [SetJustTeleported]. *)
Inductive Call : Type :=
| Tick (TimeSeconds : double) (Bounds : FBox)
| Teleported (bInJustTeleported : bool).

Definition with_bounds (c : URewindableComponent) (Bounds : FBox) : URewindableComponent :=
  with_owner c
    ((fun o => {| HasAuthority := HasAuthority o; ComponentsBoundingBox := Bounds |})
       <$> Owner c).

Definition call (c : URewindableComponent) (k : Call) : result URewindableComponent :=
  match k with
  | Tick t Bounds => TickComponent (with_bounds c Bounds) t
  | Teleported b => Ok (SetJustTeleported c b)
  end.

Fixpoint run (c : URewindableComponent) (calls : list Call) : result URewindableComponent :=
  match calls with
  | [] => Ok c
  | k :: rest => let* c' := call c k in run c' rest
  end.

Definition tick_times (calls : list Call) : list double :=
  omap (fun k => match k with Tick t _ => Some t | Teleported _ => None end) calls.

(** Times strictly decrease from the head to the tail. *)
Definition StrictlyTimeOrdered (h : list FFramePackage) : Prop :=
  StronglySorted (fun younger older => SFltb (Time older) (Time younger) = true) h.

Definition authority : AActor :=
  {| HasAuthority := true; ComponentsBoundingBox := point_box 0 |}.

Definition sample_calls : list Call :=
  [Tick (double_of 0.1) (point_box 0); Teleported true;
   Tick (double_of 0.2) (point_box 10); Tick (double_of 0.4) (point_box 20)].

(** *** What a record does, whatever the bound *)

Lemma CleanUpOldFrames_prefix MaxRecord :
  forall n h kept,
    CleanUpOldFrames n MaxRecord h = Ok kept ->
    exists evicted, h = kept ++ evicted /\ kept <> [] /\ head kept = head h.
Proof.
  induction n as [|n IH]; intros h kept H; cbn in H; [discriminate|].
  destruct (head h) as [hd|] eqn:Hhd; [|discriminate].
  destruct (last h) as [tl|] eqn:Htl; [|discriminate].
  destruct (SFgtb (HistoryLength hd tl) MaxRecord).
  - apply last_Some in Htl as [l' ->]. rewrite removelast_snoc in H.
    destruct (IH _ _ H) as (ev & Hsplit & Hne & Hhead).
    exists (ev ++ [tl]). repeat split.
    + rewrite Hsplit at 1. now rewrite <- app_assoc.
    + assumption.
    + rewrite Hhead. destruct l' as [|x l'']; [|exact Hhd].
      destruct kept; [contradiction | discriminate].
  - inversion H; subst. exists []. rewrite app_nil_r.
    split; [reflexivity|]. split; [|exact Hhd].
    intros ->. discriminate.
Qed.

Lemma UpdateFramePackage_Ok c t tp c' :
  UpdateFramePackage c t tp = Ok c' ->
  exists o, Owner c = Some o /\
    ((HasAuthority o = false /\ c' = c) \/
     (HasAuthority o = true /\
      exists kept evicted,
        FrameHistory c = kept ++ evicted /\
        head kept = head (FrameHistory c) /\
        c' = with_history c
               ({| HitBox := ComponentsBoundingBox o; bTeleported := tp; Time := t |}
                  :: kept))).
Proof.
  unfold UpdateFramePackage, UpdateFramePackage_fill.
  destruct (Owner c) as [o|]; [|discriminate].
  intros H. exists o. split; [reflexivity|].
  destruct (HasAuthority o); cbn [negb] in H.
  2:{ left. split; [reflexivity|]. now inversion H. }
  right. split; [reflexivity|].
  destruct (length (FrameHistory c) <=? 1)%nat.
  - cbn in H. inversion H; subst. exists (FrameHistory c), [].
    now rewrite app_nil_r.
  - destruct (CleanUpOldFrames _ _ _) as [kept|] eqn:E; [|discriminate].
    cbn in H. inversion H; subst.
    destruct (CleanUpOldFrames_prefix _ _ _ _ E) as (ev & Hsplit & _ & Hhead).
    exists kept, ev. repeat split; assumption.
Qed.

Lemma TickComponent_Ok c t c' :
  TickComponent c t = Ok c' ->
  exists o, Owner c = Some o /\
    ((HasAuthority o = false /\ c' = c) \/
     (HasAuthority o = true /\
      exists kept evicted,
        FrameHistory c = kept ++ evicted /\
        head kept = head (FrameHistory c) /\
        c' = {| Owner := Owner c; bJustTeleported := false;
                FrameHistory :=
                  {| HitBox := ComponentsBoundingBox o;
                     bTeleported := bJustTeleported c; Time := t |} :: kept;
                MaxRecordTime := MaxRecordTime c |})).
Proof.
  unfold TickComponent. destruct (Owner c) as [o|] eqn:Ho; [|discriminate].
  intros H. exists o. split; [reflexivity|].
  destruct (HasAuthority o) eqn:Hauth.
  2:{ left. split; [reflexivity|]. now inversion H. }
  right. split; [reflexivity|].
  destruct (UpdateFramePackage c t (bJustTeleported c)) as [c1|] eqn:E; [|discriminate].
  cbn in H. inversion H; subst.
  apply UpdateFramePackage_Ok in E as (o' & Ho' & [[Hf _]|(_ & kept & ev & Hs & Hh & ->)]).
  - rewrite Ho in Ho'. inversion Ho'; subst. congruence.
  - rewrite Ho in Ho'. inversion Ho'; subst o'.
    exists kept, ev. repeat split; try assumption.
    cbn. now rewrite Ho.
Qed.

Lemma with_bounds_fields c Bounds :
  FrameHistory (with_bounds c Bounds) = FrameHistory c /\
  bJustTeleported (with_bounds c Bounds) = bJustTeleported c /\
  MaxRecordTime (with_bounds c Bounds) = MaxRecordTime c.
Proof. repeat split. Qed.

Lemma TimeOrdered_push snap kept evicted :
  TimeOrdered (kept ++ evicted) ->
  (forall hd, head kept = Some hd -> SFleb (Time hd) (Time snap) = true) ->
  TimeOrdered (snap :: kept).
Proof.
  intros Hs Hclock. constructor; [now apply (TimeOrdered_prefix kept evicted)|].
  destruct kept as [|k kept']; [constructor|].
  specialize (Hclock k eq_refl). cbn in Hs.
  apply StronglySorted_inv in Hs as [_ Hall]. apply Forall_app in Hall as [Hall _].
  constructor; [assumption|].
  eapply List.Forall_impl; [|exact Hall]. cbn. intros a Ha.
  now apply (SFleb_trans _ (Time k)).
Qed.

(** A query that the code places at or after the newest time, and that is
    not before the newest stored time, returns the head. *)
Lemma GetFramePackage_newest V c o t hd tl :
  Owner c = Some o ->
  head (FrameHistory c) = Some hd -> last (FrameHistory c) = Some tl ->
  SFgtb (Narrowed tl) t = false ->
  SFleb (Narrowed hd) t = true ->
  SFgtb (Time hd) t = false ->
  GetFramePackage V c t = hd.
Proof.
  intros Ho Hhd Htl H1 H2 H3.
  unfold GetFramePackage. rewrite Ho, Hhd, Htl. cbn zeta.
  fold (Narrowed tl). fold (Narrowed hd).
  rewrite H1, H2, (MarchBack_stop t hd hd _ H3).
  destruct (SFeqb (Time hd) t); reflexivity.
Qed.

(** *** Sequences of calls *)

Lemma run_snoc_free c k rest :
  run c (k :: rest) = let* c' := call c k in run c' rest.
Proof. reflexivity. Qed.

(** X1.  Nothing recorded through [TickComponent] ever carries the teleported
    flag.  [SetJustTeleported] has an empty body and the constructor clears
    [bJustTeleported], so after any sequence of ticks and
    [SetJustTeleported] calls the flag is still clear and every snapshot in
    the history has [bTeleported = false]. *)
Theorem teleport_flag_never_recorded :
  forall o MaxRecord calls c,
    run (Constructed o MaxRecord) calls = Ok c ->
    bJustTeleported c = false /\
    Forall (fun p => bTeleported p = false) (FrameHistory c).
Proof.
  intros o MaxRecord calls.
  assert (Hgen : forall c0 c,
             bJustTeleported c0 = false ->
             Forall (fun p => bTeleported p = false) (FrameHistory c0) ->
             run c0 calls = Ok c ->
             bJustTeleported c = false /\
             Forall (fun p => bTeleported p = false) (FrameHistory c)).
  { induction calls as [|k rest IH]; intros c0 c Hb Hh Hrun.
    - cbn in Hrun. inversion Hrun; subst. split; assumption.
    - rewrite run_snoc_free in Hrun.
      destruct (call c0 k) as [c1|] eqn:Hcall; [|discriminate]. cbn [bind] in Hrun.
      apply (IH c1 c); try assumption.
      + destruct k as [t B|b]; cbn in Hcall.
        * apply TickComponent_Ok in Hcall
            as (o' & _ & [[_ ->]|(_ & kept & ev & _ & _ & ->)]); [exact Hb | reflexivity].
        * inversion Hcall; subst. exact Hb.
      + destruct k as [t B|b]; cbn in Hcall.
        * apply TickComponent_Ok in Hcall
            as (o' & _ & [[_ ->]|(_ & kept & ev & Hs & _ & ->)]); [exact Hh|].
          cbn [FrameHistory]. constructor; [exact Hb|].
          cbn in Hs. rewrite Hs in Hh. now apply Forall_app in Hh as [Hk _].
        * inversion Hcall; subst. exact Hh. }
  intros c Hrun. apply (Hgen (Constructed o MaxRecord) c); [reflexivity | constructor | exact Hrun].
Qed.

Lemma teleport_flag_never_recorded_witness :
  exists c, run (Constructed (Some authority) (float_of 0.8)) sample_calls = Ok c /\
            Forall (fun p => bTeleported p = false) (FrameHistory c).
Proof.
  eexists. split; [vm_compute; reflexivity|].
  apply (teleport_flag_never_recorded (Some authority) (float_of 0.8) sample_calls).
  vm_compute. reflexivity.
Defined.

(** X2.  Under a world clock that does not run backwards, the history is
    always time ordered, newest first, and every snapshot carries the time
    of one of the ticks. *)
Theorem history_stays_time_ordered :
  forall o MaxRecord calls c,
    StronglySorted (fun earlier later => SFleb earlier later = true) (tick_times calls) ->
    run (Constructed o MaxRecord) calls = Ok c ->
    TimeOrdered (FrameHistory c) /\
    Forall (fun p => In (Time p) (tick_times calls)) (FrameHistory c).
Proof.
  intros o MaxRecord calls.
  assert (Hgen : forall prior c0 c,
             TimeOrdered (FrameHistory c0) ->
             Forall (fun p => In (Time p) prior) (FrameHistory c0) ->
             (forall hd, head (FrameHistory c0) = Some hd ->
                         Forall (fun t => SFleb (Time hd) t = true) (tick_times calls)) ->
             StronglySorted (fun earlier later => SFleb earlier later = true)
               (tick_times calls) ->
             run c0 calls = Ok c ->
             TimeOrdered (FrameHistory c) /\
             Forall (fun p => In (Time p) (prior ++ tick_times calls)) (FrameHistory c)).
  { induction calls as [|k rest IH]; intros prior c0 c Hs Hin Hhd Hsorted Hrun.
    - cbn in Hrun. inversion Hrun; subst. split; [assumption|].
      cbn. now rewrite app_nil_r.
    - rewrite run_snoc_free in Hrun.
      destruct (call c0 k) as [c1|] eqn:Hcall; [|discriminate]. cbn [bind] in Hrun.
      destruct k as [t B|b]; cbn in Hcall.
      2:{ inversion Hcall; subst c1. apply (IH prior c0 c); assumption. }
      cbn [tick_times omap list_omap] in *. fold (tick_times rest) in *.
      apply StronglySorted_inv in Hsorted as [Hsorted Hall].
      replace (prior ++ t :: tick_times rest) with ((prior ++ [t]) ++ tick_times rest)
        by now rewrite <- app_assoc.
      apply TickComponent_Ok in Hcall
        as (o' & _ & [[_ ->]|(_ & kept & ev & Hsplit & Hhead & ->)]).
      + apply (IH (prior ++ [t]) (with_bounds c0 B) c); try assumption.
        * eapply List.Forall_impl; [|exact Hin]. cbn. intros a Ha.
          apply in_or_app. now left.
        * intros hd Hh. specialize (Hhd hd Hh). now inversion Hhd.
      + cbn in Hsplit, Hhead.
        match type of Hrun with
        | run ?c1 _ = _ => apply (IH (prior ++ [t]) c1 c)
        end; try assumption; cbn [FrameHistory].
        * apply (TimeOrdered_push _ kept ev); [now rewrite <- Hsplit|].
          intros hd Hk. rewrite Hhead in Hk. specialize (Hhd hd Hk).
          now inversion Hhd.
        * constructor.
          -- cbn. apply in_or_app. right. now left.
          -- rewrite Hsplit in Hin. apply Forall_app in Hin as [Hin _].
             eapply List.Forall_impl; [|exact Hin]. cbn. intros a Ha.
             apply in_or_app. now left.
        * intros hd Hh. cbn in Hh. inversion Hh; subst hd. cbn. exact Hall. }
  intros c Hsorted Hrun.
  apply (Hgen [] (Constructed o MaxRecord) c); try assumption.
  - constructor.
  - constructor.
  - intros hd Hh. discriminate.
Qed.

Lemma history_stays_time_ordered_witness :
  exists c, run (Constructed (Some authority) (float_of 0.8)) sample_calls = Ok c /\
            TimeOrdered (FrameHistory c).
Proof.
  eexists. split; [vm_compute; reflexivity|].
  apply (history_stays_time_ordered (Some authority) (float_of 0.8) sample_calls).
  - repeat constructor; vm_compute; reflexivity.
  - vm_compute. reflexivity.
Defined.

Lemma TickComponent_authority c o t :
  Owner c = Some o -> HasAuthority o = true ->
  SFleb Float_zero (MaxRecordTime c) = true ->
  exists kept evicted,
    TickComponent c t =
      Ok {| Owner := Owner c; bJustTeleported := false;
            FrameHistory :=
              {| HitBox := ComponentsBoundingBox o;
                 bTeleported := bJustTeleported c; Time := t |} :: kept;
            MaxRecordTime := MaxRecordTime c |} /\
    FrameHistory c = kept ++ evicted /\
    (FrameHistory c <> [] -> kept <> []).
Proof.
  intros Ho Hauth Hmax.
  unfold TickComponent, UpdateFramePackage, UpdateFramePackage_fill.
  rewrite Ho, Hauth. cbn [negb].
  destruct (length (FrameHistory c) <=? 1)%nat eqn:Elen.
  - exists (FrameHistory c), []. cbn. rewrite Ho, app_nil_r. repeat split. auto.
  - apply Nat.leb_gt in Elen.
    destruct (FrameHistory c) as [|hd rest] eqn:Eh; [cbn in Elen; lia|].
    destruct (CleanUpOldFrames_spec (MaxRecordTime c) Hmax (hd :: rest) hd eq_refl)
      as (kept & evicted & tl & Hrun & Hsplit & Hk & _).
    exists kept, evicted. rewrite Hrun. cbn. rewrite Ho. repeat split; try assumption.
    intros _ ->. discriminate.
Qed.

(** X3.  On the authority, with a [MaxRecordTime] that is not negative, no
    sequence of ticks and [SetJustTeleported] calls fails, the history never
    holds more snapshots than there were ticks, and from the second tick on
    it always holds at least two (so a bracketing pair exists). *)
Theorem recording_never_fails :
  forall o MaxRecord calls,
    HasAuthority o = true -> SFleb Float_zero MaxRecord = true ->
    exists c,
      run (Constructed (Some o) MaxRecord) calls = Ok c /\
      (Nat.min 2 (length (tick_times calls)) <= length (FrameHistory c))%nat /\
      (length (FrameHistory c) <= length (tick_times calls))%nat.
Proof.
  intros o MaxRecord calls Hauth Hmax.
  assert (Hgen : forall c0 o0,
             Owner c0 = Some o0 -> HasAuthority o0 = true ->
             SFleb Float_zero (MaxRecordTime c0) = true ->
             exists c,
               run c0 calls = Ok c /\
               (Nat.min 2 (length (FrameHistory c0) + length (tick_times calls))
                <= length (FrameHistory c))%nat /\
               (length (FrameHistory c)
                <= length (FrameHistory c0) + length (tick_times calls))%nat).
  { induction calls as [|k rest IH]; intros c0 o0 Ho0 Ha0 Hm0.
    - exists c0. cbn [run tick_times omap list_omap length].
      split; [reflexivity|]. rewrite Nat.add_0_r. lia.
    - rewrite run_snoc_free. destruct k as [t B|b]; cbn [call].
      + destruct (TickComponent_authority (with_bounds c0 B)
                    {| HasAuthority := HasAuthority o0; ComponentsBoundingBox := B |} t)
          as (kept & ev & Hrun & Hsplit & Hne).
        * cbn. now rewrite Ho0.
        * exact Ha0.
        * exact Hm0.
        * rewrite Hrun. cbn [bind].
          match goal with
          | |- exists c, run ?c1 _ = _ /\ _ =>
              destruct (IH c1 {| HasAuthority := HasAuthority o0;
                                 ComponentsBoundingBox := B |})
                as (c & Hc & Hlo & Hhi)
          end.
          -- cbn. now rewrite Ho0.
          -- exact Ha0.
          -- exact Hm0.
          -- exists c. split; [exact Hc|].
             cbn [FrameHistory length] in Hlo, Hhi.
             cbn [tick_times omap list_omap length]. fold (tick_times rest).
             cbn [with_bounds with_owner FrameHistory] in Hsplit, Hne.
             assert (Hcase :
                       (length (FrameHistory c0) = 0 /\ length kept = 0)%nat \/
                       (1 <= length kept <= length (FrameHistory c0))%nat).
             { destruct (FrameHistory c0) as [|x h0] eqn:Eh.
               - left. destruct kept; [split; reflexivity | discriminate].
               - right. assert (Hk : kept <> []) by (apply Hne; discriminate).
                 rewrite Hsplit, length_app.
                 destruct kept; [contradiction | cbn [length]; lia]. }
             lia.
      + cbn [bind]. unfold SetJustTeleported.
        destruct (IH c0 o0 Ho0 Ha0 Hm0) as (c & Hc & Hlo & Hhi).
        exists c. split; [exact Hc|]. cbn [tick_times omap list_omap].
        fold (tick_times rest). lia. }
  destruct (Hgen (Constructed (Some o) MaxRecord) o eq_refl Hauth Hmax) as (c & Hc & Hlo & Hhi).
  exists c. split; [exact Hc|]. cbn in Hlo, Hhi. split; assumption.
Qed.

Lemma recording_never_fails_witness :
  exists c, run (Constructed (Some authority) (float_of 0.8)) sample_calls = Ok c /\
            (2 <= length (FrameHistory c))%nat.
Proof.
  destruct (recording_never_fails authority (float_of 0.8) sample_calls) as (c & Hc & Hlo & _).
  - reflexivity.
  - vm_compute. reflexivity.
  - exists c. split; [exact Hc | exact Hlo].
Defined.

(** X4.  What was just recorded is what a later query returns, as far as
    single precision lets it.  On the authority, after a record at [now], a
    query at a time [t >= now] returns the snapshot with the owner's bounds,
    the given teleported flag and time [now], provided [t] is also at or
    after [now] as a [float] and is not below the time, as a [float], of any
    snapshot that was in the history. *)
Theorem query_returns_latest_record :
  forall VInterpTo c o now tp c' t,
    Owner c = Some o -> HasAuthority o = true ->
    UpdateFramePackage c now tp = Ok c' ->
    SFleb now t = true ->
    SFleb (to_double (to_float now)) t = true ->
    Forall (fun p => SFgtb (Narrowed p) t = false) (FrameHistory c) ->
    GetFramePackage VInterpTo c' t =
      {| HitBox := ComponentsBoundingBox o; bTeleported := tp; Time := now |}.
Proof.
  intros V c o now tp c' t Ho Hauth Hrun Hle Hfle Hall.
  apply UpdateFramePackage_Ok in Hrun
    as (o' & Ho' & [[Hf _]|(_ & kept & ev & Hsplit & Hhead & ->)]).
  { rewrite Ho in Ho'. inversion Ho'; subst. congruence. }
  rewrite Ho in Ho'. inversion Ho'; subst o'.
  set (snap := {| HitBox := ComponentsBoundingBox o; bTeleported := tp; Time := now |}).
  destruct (last (snap :: kept)) as [tl|] eqn:Htl.
  2:{ apply last_None in Htl. discriminate. }
  apply (GetFramePackage_newest V _ o t snap tl); cbn [with_history Owner FrameHistory head];
    try assumption; try reflexivity.
  - destruct kept as [|k kept'].
    + cbn in Htl. inversion Htl; subst tl. unfold SFgtb, Narrowed. cbn [snap Time].
      now apply SFleb_not_ltb.
    + rewrite last_cons_cons in Htl. apply last_Some_elem_of in Htl.
      rewrite List.Forall_forall in Hall. apply Hall.
      rewrite Hsplit. apply in_or_app. left. now apply list_elem_of_In.
  - unfold SFgtb. cbn [snap Time]. now apply SFleb_not_ltb.
Qed.

Lemma query_returns_latest_record_witness :
  GetFramePackage VInterpTo_linear (component_of recorded_x_0_10_20) (double_of 0.7)
    = {| HitBox := point_box 20; bTeleported := false; Time := double_of 0.4 |}.
Proof.
  apply (query_returns_latest_record VInterpTo_linear
           (with_owner
              (component_of (record_at (record_at (Ok (fresh_component (float_of 0.8)))
                                          (double_of 0) (point_box 0))
                               (double_of 0.2) (point_box 10)))
              (Some {| HasAuthority := true; ComponentsBoundingBox := point_box 20 |}))
           {| HasAuthority := true; ComponentsBoundingBox := point_box 20 |}
           (double_of 0.4) false (component_of recorded_x_0_10_20) (double_of 0.7)).
  - reflexivity.
  - reflexivity.
  - vm_compute. reflexivity.
  - vm_compute. reflexivity.
  - vm_compute. reflexivity.
  - repeat constructor; vm_compute; reflexivity.
Defined.

(** *** Queries inside the retained history *)

Lemma StrictlyTimeOrdered_after (l1 : list FFramePackage) a l2 :
  StrictlyTimeOrdered (l1 ++ a :: l2) ->
  Forall (fun b => SFltb (Time b) (Time a) = true) l2.
Proof.
  unfold StrictlyTimeOrdered. induction l1 as [|x l1 IH]; cbn; intros H.
  - now apply StronglySorted_inv in H as [_ H].
  - apply StronglySorted_inv in H as [H _]. now apply IH.
Qed.

Lemma StrictlyTimeOrdered_before (l1 : list FFramePackage) a l2 :
  StrictlyTimeOrdered (l1 ++ a :: l2) ->
  Forall (fun b => SFltb (Time a) (Time b) = true) l1.
Proof.
  unfold StrictlyTimeOrdered. induction l1 as [|x l1 IH]; cbn; intros H; [constructor|].
  apply StronglySorted_inv in H as [H Hx]. constructor.
  - apply Forall_app in Hx as [_ Hx]. now inversion Hx.
  - now apply IH.
Qed.

Lemma MarchBack_In t :
  forall rest O Y, In (fst (MarchBack t O Y rest)) (O :: rest).
Proof.
  induction rest as [|a rest IH]; intros O Y; cbn [MarchBack].
  - destruct (SFgtb (Time O) t); left; reflexivity.
  - destruct (SFgtb (Time O) t); [|left; reflexivity].
    right. apply IH.
Qed.

(** What a query that is not below the oldest time as a [float] returns: a
    stored snapshot, after a comparison with the query time that held, or a
    package that carries the query time. *)
Lemma GetFramePackage_cases V c o t hd tl :
  Owner c = Some o ->
  head (FrameHistory c) = Some hd -> last (FrameHistory c) = Some tl ->
  SFgtb (Narrowed tl) t = false ->
  (In (GetFramePackage V c t) (FrameHistory c) /\ SFeqb t t = true) \/
  Time (GetFramePackage V c t) = t.
Proof.
  intros Ho Hhd Htl Hold.
  destruct (FrameHistory c) as [|x rest] eqn:Eh; [discriminate|].
  cbn in Hhd. inversion Hhd; subst x.
  unfold GetFramePackage. rewrite Ho, Eh. cbn [head tail]. rewrite Htl. cbn zeta.
  fold (Narrowed tl). fold (Narrowed hd). rewrite Hold.
  pose proof (MarchBack_In t rest hd hd) as HIn.
  destruct (MarchBack t hd hd rest) as [Older Younger]. cbn [fst] in HIn.
  destruct (SFeqb (Time Older) t) eqn:E3; cbn [fst snd].
  { left. split; [exact HIn | exact (proj2 (SFeqb_ordered _ _ E3))]. }
  destruct (SFleb (Narrowed hd) t) eqn:E2; cbn [fst snd].
  { left. split; [now left | exact (proj2 (SFleb_ordered _ _ E2))]. }
  destruct (SFeqb (Narrowed tl) t) eqn:E1; cbn [fst snd].
  { left. split; [|exact (proj2 (SFeqb_ordered _ _ E1))].
    apply list_elem_of_In. now apply last_Some_elem_of. }
  right. reflexivity.
Qed.

(** X5.  A query at the exact time of a retained snapshot returns that
    snapshot as stored, provided the times in the history strictly decrease
    from the head and the time asked for is not below the oldest time as a
    [float]. *)
Theorem query_at_recorded_time :
  forall VInterpTo c o x tl,
    Owner c = Some o ->
    StrictlyTimeOrdered (FrameHistory c) ->
    In x (FrameHistory c) ->
    last (FrameHistory c) = Some tl ->
    SFleb (Narrowed tl) (Time x) = true ->
    GetFramePackage VInterpTo c (Time x) = x.
Proof.
  intros V c o x tl Ho Hs Hin Htl Hfloor.
  assert (Hxx : SFeqb (Time x) (Time x) = true) by exact (proj2 (SFleb_ordered _ _ Hfloor)).
  assert (Hold : SFgtb (Narrowed tl) (Time x) = false).
  { unfold SFgtb. now apply SFleb_not_ltb. }
  destruct (FrameHistory c) as [|hd rest] eqn:Eh; [contradiction|].
  unfold GetFramePackage. rewrite Ho, Eh. cbn [head tail]. rewrite Htl. cbn zeta.
  fold (Narrowed tl). fold (Narrowed hd). rewrite Hold.
  destruct Hin as [->|Hin].
  { rewrite (MarchBack_stop (Time x) x x rest) by apply SFltb_irrefl.
    now rewrite Hxx. }
  assert (Hlt : SFgtb (Time hd) (Time x) = true).
  { pose proof (StrictlyTimeOrdered_after [] hd rest Hs) as Hall.
    rewrite List.Forall_forall in Hall. now apply Hall. }
  assert (Hex : Exists (fun y => SFgtb (Time y) (Time x) = false) rest).
  { apply List.Exists_exists. exists x. split; [assumption | apply SFltb_irrefl]. }
  destruct (MarchBack_bracket (Time x) rest hd Hlt Hex)
    as (pre & younger & older & post & Hsplit & Hpre & Hy & Hole & Hrun).
  assert (Hx : older = x).
  { assert (Hin' : In x (pre ++ younger :: older :: post)).
    { rewrite <- Hsplit. now right. }
    apply in_app_or in Hin' as [Hp|[Hyx|[Hox|Hpost]]].
    - rewrite List.Forall_forall in Hpre. specialize (Hpre x Hp).
      unfold SFgtb in Hpre. rewrite SFltb_irrefl in Hpre. discriminate.
    - subst. unfold SFgtb in Hy. rewrite SFltb_irrefl in Hy. discriminate.
    - exact Hox.
    - rewrite Hsplit in Hs.
      replace (pre ++ younger :: older :: post) with ((pre ++ [younger]) ++ older :: post) in Hs
        by now rewrite <- app_assoc.
      pose proof (StrictlyTimeOrdered_after _ _ _ Hs) as Hall.
      rewrite List.Forall_forall in Hall. specialize (Hall x Hpost).
      unfold SFgtb in Hole. congruence. }
  subst older. rewrite Hrun, Hxx. reflexivity.
Qed.

Lemma query_at_recorded_time_witness :
  GetFramePackage VInterpTo_linear (component_of recorded_x_0_10_20) (double_of 0.2)
    = {| HitBox := point_box 10; bTeleported := false; Time := double_of 0.2 |}.
Proof.
  apply (query_at_recorded_time VInterpTo_linear (component_of recorded_x_0_10_20)
           {| HasAuthority := true; ComponentsBoundingBox := point_box 20 |}
           {| HitBox := point_box 10; bTeleported := false; Time := double_of 0.2 |}
           {| HitBox := point_box 0; bTeleported := false; Time := double_of 0 |}).
  - reflexivity.
  - repeat constructor; vm_compute; reflexivity.
  - right. left. reflexivity.
  - reflexivity.
  - vm_compute. reflexivity.
Defined.

(** X6.  When every stored snapshot is valid and the oldest time is still
    positive as a [float], [IsValid] on the result of a query tells exactly
    whether the code placed the query time inside the retained history: the
    result is valid if and only if the query time is at or after the oldest
    time as a [float]. *)
Theorem query_valid_iff_not_too_old :
  forall VInterpTo c o tl t,
    Owner c = Some o ->
    last (FrameHistory c) = Some tl ->
    Forall (fun p => FFramePackage_IsValid p = true) (FrameHistory c) ->
    SFgtb (Narrowed tl) Double_zero = true ->
    (FFramePackage_IsValid (GetFramePackage VInterpTo c t) = true <->
     SFleb (Narrowed tl) t = true).
Proof.
  intros V c o tl t Ho Htl Hpos Htlpos.
  destruct (head (FrameHistory c)) as [hd|] eqn:Hhd.
  2:{ apply head_None in Hhd. rewrite Hhd in Htl. discriminate. }
  unfold SFgtb in Htlpos.
  destruct (SFgtb (Narrowed tl) t) eqn:Hold.
  - assert (E : GetFramePackage V c t = FFramePackage_default).
    { unfold GetFramePackage. rewrite Ho, Hhd, Htl. cbn zeta.
      fold (Narrowed tl). now rewrite Hold. }
    rewrite E. unfold SFgtb in Hold. rewrite (SFltb_not_leb _ _ Hold).
    split; intros H; [vm_compute in H|]; discriminate.
  - destruct (GetFramePackage_cases V c o t hd tl Ho Hhd Htl Hold) as [[Hin Htt]|Ht].
    + assert (Hle : SFleb (Narrowed tl) t = true).
      { apply SFleb_total; [exact Htt | exact (proj2 (SFltb_ordered _ _ Htlpos)) | exact Hold]. }
      split; [intros _; exact Hle|]. intros _.
      rewrite List.Forall_forall in Hpos. now apply Hpos.
    + unfold FFramePackage_IsValid, SFgtb. rewrite Ht. split.
      * intros Hv. apply SFleb_total; [|exact (proj2 (SFltb_ordered _ _ Htlpos)) | exact Hold].
        exact (proj2 (SFltb_ordered _ _ Hv)).
      * intros Hle. now apply (SFltb_leb_trans _ (Narrowed tl)).
Qed.

Lemma query_valid_iff_not_too_old_witness :
  FFramePackage_IsValid
    (GetFramePackage VInterpTo_linear
       (component_of (run (Constructed (Some authority) (float_of 0.8)) sample_calls))
       (double_of 0.3)) = true.
Proof.
  apply (query_valid_iff_not_too_old VInterpTo_linear
           (component_of (run (Constructed (Some authority) (float_of 0.8)) sample_calls))
           {| HasAuthority := true; ComponentsBoundingBox := point_box 20 |}
           {| HitBox := point_box 0; bTeleported := false; Time := double_of 0.1 |}
           (double_of 0.3)).
  - reflexivity.
  - reflexivity.
  - repeat constructor.
  - vm_compute. reflexivity.
  - vm_compute. reflexivity.
Defined.

End RewindLife.

(** ** UGameRepGraphNode_PlayerStateFrequencyLimiter: buckets and rounds *)

Module FrequencyLimiterRounds.

Import FrequencyLimiter.

Local Open Scope Z_scope.

(** The actors gathered at tick [f] and at the [k - 1] ticks that follow it,
    one list per tick. *)
Definition gathered_over (n : UGameRepGraphNode_PlayerStateFrequencyLimiter)
    (f : Z) (k : nat) : list (list nat) :=
  map (fun i => gathered n (Nat.iter i next_frame f)) (seq 0 k).

Definition below_ten (a : nat) : bool := (a <? 10)%nat.

Definition sample_players : list nat := [3; 11; 5; 8; 20; 1; 9; 4]%nat.

(** *** Shape of the buckets *)

Lemma Prepare_step_shape valid Target :
  1 <= Target ->
  forall PlayerStates full cur,
    Forall (fun b => Z.of_nat (length b) = Target) full ->
    Z.of_nat (length cur) <= Target ->
    (cur = [] -> full = []) ->
    exists full' cur',
      fold_left (Prepare_step valid Target) PlayerStates (full ++ [cur]) = full' ++ [cur'] /\
      Forall (fun b => Z.of_nat (length b) = Target) full' /\
      Z.of_nat (length cur') <= Target /\
      (cur' = [] -> full' = [] /\ cur = [] /\ List.filter valid PlayerStates = []).
Proof.
  intros HT. induction PlayerStates as [|PS rest IH]; intros full cur Hfull Hcur Hempty.
  - exists full, cur. cbn. split; [reflexivity|]. split; [exact Hfull|].
    split; [exact Hcur|]. auto.
  - cbn [fold_left List.filter]. unfold Prepare_step at 2.
    destruct (valid PS) eqn:Hv; cbn [negb].
    2:{ destruct (IH full cur Hfull Hcur Hempty) as (f' & c' & H1 & H2 & H3 & H4).
        exists f', c'. split; [exact H1|]. split; [exact H2|]. split; [exact H3|].
        intros Hc. destruct (H4 Hc) as (Ha & Hb & Hd). auto. }
    rewrite CurrentList_snoc.
    destruct (Z.of_nat (length cur) >=? Target) eqn:E.
    + apply Z.geb_le in E.
      rewrite (CurrentList_Add_snoc (full ++ [cur]) [] PS). cbn [app].
      destruct (IH (full ++ [cur]) [PS]) as (f' & c' & H1 & H2 & H3 & H4).
      * apply Forall_app. split; [assumption|]. constructor; [lia | constructor].
      * cbn. lia.
      * discriminate.
      * exists f', c'. split; [exact H1|]. split; [exact H2|]. split; [exact H3|].
        intros Hc. destruct (H4 Hc) as (_ & Hbad & _). discriminate.
    + rewrite Z.geb_leb in E. apply Z.leb_gt in E.
      rewrite CurrentList_Add_snoc.
      destruct (IH full (cur ++ [PS])) as (f' & c' & H1 & H2 & H3 & H4).
      * assumption.
      * rewrite length_app. cbn. lia.
      * intros Hc. destruct cur; discriminate.
      * exists f', c'. split; [exact H1|]. split; [exact H2|]. split; [exact H3|].
        intros Hc. destruct (H4 Hc) as (_ & Hbad & _). destruct cur; discriminate.
Qed.

(** X7.  With a target of at least one per tick, the prepare pass packs the
    valid player states, in the iterator's order, into buckets that are all
    exactly full except possibly the last one, which holds between one and
    [TargetActorsPerFrame] of them; only when there is no valid player state
    at all is there a single, empty bucket. *)
Theorem buckets_are_full_but_the_last :
  forall valid n PlayerStates,
    1 <= TargetActorsPerFrame n ->
    exists full last_bucket,
      ReplicationActorLists (PrepareForReplication valid n PlayerStates)
        = full ++ [last_bucket] /\
      concat (full ++ [last_bucket]) = List.filter valid PlayerStates /\
      Forall (fun b => Z.of_nat (length b) = TargetActorsPerFrame n) full /\
      Z.of_nat (length last_bucket) <= TargetActorsPerFrame n /\
      (last_bucket = [] -> full = [] /\ List.filter valid PlayerStates = []).
Proof.
  intros valid n PlayerStates HT.
  destruct (Prepare_step_shape valid (TargetActorsPerFrame n) HT PlayerStates [] [])
    as (full & cur & Hrun & Hfull & Hcur & Hempty).
  - constructor.
  - cbn. lia.
  - reflexivity.
  - exists full, cur. cbn [app] in Hrun.
    assert (E : ReplicationActorLists (PrepareForReplication valid n PlayerStates)
                = full ++ [cur]) by exact Hrun.
    split; [exact E|]. split.
    + rewrite <- E. apply PrepareForReplication_concat.
    + split; [exact Hfull|]. split; [exact Hcur|].
      intros Hc. destruct (Hempty Hc) as (Ha & _ & Hb). auto.
Qed.

Lemma buckets_are_full_but_the_last_witness :
  exists full last_bucket,
    ReplicationActorLists (PrepareForReplication below_ten (fresh_node 3) sample_players)
      = full ++ [last_bucket] /\
    Forall (fun b => Z.of_nat (length b) = 3) full /\
    Z.of_nat (length last_bucket) <= 3.
Proof.
  destruct (buckets_are_full_but_the_last below_ten (fresh_node 3) sample_players)
    as (full & lb & H1 & _ & H3 & H4 & _).
  - cbn. lia.
  - exists full, lb. repeat split; assumption.
Defined.

(** *** Gathering *)

Lemma Prepare_step_nonempty valid Target :
  forall PlayerStates init cur,
    exists init' cur',
      fold_left (Prepare_step valid Target) PlayerStates (init ++ [cur]) = init' ++ [cur'].
Proof.
  induction PlayerStates as [|PS rest IH]; intros init cur; cbn [fold_left].
  - now exists init, cur.
  - unfold Prepare_step at 2. destruct (valid PS); cbn [negb]; [|apply IH].
    rewrite CurrentList_snoc.
    destruct (Z.of_nat (length cur) >=? Target).
    + rewrite (CurrentList_Add_snoc (init ++ [cur]) [] PS). apply IH.
    + rewrite CurrentList_Add_snoc. apply IH.
Qed.

Lemma gather_prepared valid n PlayerStates f out :
  0 <= f ->
  exists bucket,
    ReplicationActorLists (PrepareForReplication valid n PlayerStates)
      !! Z.to_nat (f mod Z.of_nat
                     (length (ReplicationActorLists
                                (PrepareForReplication valid n PlayerStates))))
      = Some bucket /\
    GatherActorListsForConnection (PrepareForReplication valid n PlayerStates) f out
      = Ok (out ++ [bucket]).
Proof.
  intros Hf.
  destruct (Prepare_step_nonempty valid (TargetActorsPerFrame n) PlayerStates [] [])
    as (init & cur & Hrun). cbn [app] in Hrun.
  unfold GatherActorListsForConnection, PrepareForReplication.
  cbn [ReplicationActorLists ForceNetUpdateReplicationActorList length].
  rewrite Hrun. set (lists := init ++ [cur]).
  assert (Hlen : (0 < length lists)%nat).
  { unfold lists. rewrite length_app. cbn. lia. }
  destruct (Z.of_nat (length lists) =? 0) eqn:E; [apply Z.eqb_eq in E; lia|].
  pose proof (Z.mod_pos_bound f (Z.of_nat (length lists)) ltac:(lia)) as B.
  destruct (lists !! Z.to_nat (f mod Z.of_nat (length lists))) as [bucket|] eqn:Hb.
  - exists bucket. split; reflexivity.
  - apply lookup_ge_None in Hb. lia.
Qed.

(** X8.  A gather on a node whose bucket array is empty (no prepare pass has
    run) divides by zero; after a prepare pass, a gather at any tick returns,
    appends exactly one bucket to the gathered lists, and every actor in it
    is a valid player state of the world. *)
Theorem gather_needs_a_prepare_pass :
  (forall n f out,
      ReplicationActorLists n = [] ->
      GatherActorListsForConnection n f out = Crash DivideByZero) /\
  (forall valid n PlayerStates f out,
      0 <= f ->
      exists bucket,
        GatherActorListsForConnection (PrepareForReplication valid n PlayerStates) f out
          = Ok (out ++ [bucket]) /\
        forall a, In a bucket -> In a PlayerStates /\ valid a = true).
Proof.
  split.
  - intros n f out Hn. unfold GatherActorListsForConnection. now rewrite Hn.
  - intros valid n PlayerStates f out Hf.
    destruct (gather_prepared valid n PlayerStates f out Hf) as (bucket & Hb & Hrun).
    exists bucket. split; [exact Hrun|]. intros a Ha.
    apply filter_In. rewrite <- (PrepareForReplication_concat valid n PlayerStates).
    apply in_concat. exists bucket. split; [|assumption].
    apply list_elem_of_In. eapply list_elem_of_lookup_2. exact Hb.
Qed.

Lemma gather_needs_a_prepare_pass_witness :
  GatherActorListsForConnection (fresh_node 3) 7 [] = Crash DivideByZero /\
  exists bucket,
    GatherActorListsForConnection
      (PrepareForReplication below_ten (fresh_node 3) sample_players) 7 []
      = Ok ([] ++ [bucket]).
Proof.
  destruct gather_needs_a_prepare_pass as [Hfresh Hprep]. split.
  - apply Hfresh. reflexivity.
  - destruct (Hprep below_ten (fresh_node 3) sample_players 7 []) as (b & Hb & _).
    + lia.
    + exists b. exact Hb.
Defined.

(** *** A full round *)

Lemma iter_next_frame f i :
  0 <= f -> f + Z.of_nat i < uint32_modulus ->
  Nat.iter i next_frame f = f + Z.of_nat i.
Proof.
  intros Hf. induction i as [|i IH]; intros Hi.
  - cbn. lia.
  - rewrite Nat.iter_succ, IH by lia. unfold next_frame, to_uint32.
    rewrite Z.mod_small by lia. lia.
Qed.

Lemma concat_rotate {A} r (l : list (list A)) : concat (rotate r l) ≡ₚ concat l.
Proof.
  unfold rotate. rewrite concat_app, Permutation_app_comm, <- concat_app.
  now rewrite take_drop.
Qed.

(** X9.  One round serves everybody exactly once.  Whatever the target, if
    the prepare pass leaves [N] buckets, then over [N] consecutive ticks
    (before the tick counter wraps) the gathers together hold exactly the
    valid player states, each as often as the world's iterator yields it;
    in particular no valid player state is skipped. *)
Theorem one_round_serves_everybody :
  forall valid n PlayerStates f,
    let n' := PrepareForReplication valid n PlayerStates in
    let N := length (ReplicationActorLists n') in
    0 <= f -> f + Z.of_nat N <= uint32_modulus ->
    concat (gathered_over n' f N) ≡ₚ List.filter valid PlayerStates.
Proof.
  intros valid n PlayerStates f n' N Hf Hwrap.
  rewrite <- (PrepareForReplication_concat valid n PlayerStates).
  fold n'.
  transitivity (concat (rotate (Z.to_nat (f mod Z.of_nat N)) (ReplicationActorLists n')));
    [|apply concat_rotate].
  cut (gathered_over n' f N
       = rotate (Z.to_nat (f mod Z.of_nat N)) (ReplicationActorLists n')).
  { intros ->. reflexivity. }
  assert (HN : (0 < N)%nat).
  { subst N n'. unfold PrepareForReplication. cbn [ReplicationActorLists].
    destruct (Prepare_step_nonempty valid (TargetActorsPerFrame n) PlayerStates [] [])
      as (init & cur & Hrun). cbn [app] in Hrun. rewrite Hrun, length_app. cbn. lia. }
  apply list_eq. intros i. unfold gathered_over.
  rewrite list_lookup_fmap.
  destruct (decide (i < N)%nat) as [Hi|Hi].
  - rewrite lookup_seq_lt by assumption. cbn [fmap option_fmap option_map Nat.add].
    rewrite lookup_rotate_r by assumption. fold N.
    rewrite iter_next_frame by lia.
    destruct (gather_prepared valid n PlayerStates (f + Z.of_nat i) [] ltac:(lia))
      as (bucket & Hb & Hrun).
    fold n' in Hb, Hrun. fold N in Hb.
    unfold gathered. rewrite Hrun. cbn [app concat]. rewrite app_nil_r.
    rewrite <- Hb. f_equal. unfold rotate_nat_add.
    pose proof (Z.mod_pos_bound f (Z.of_nat N) ltac:(lia)) as B.
    rewrite Z2Nat.id by lia. f_equal.
    rewrite Zplus_mod_idemp_l. reflexivity.
  - rewrite lookup_seq_ge by lia. cbn [fmap option_fmap option_map].
    symmetry. apply lookup_ge_None. rewrite length_rotate. unfold N in Hi. lia.
Qed.

Lemma one_round_serves_everybody_witness :
  concat (gathered_over (PrepareForReplication below_ten (fresh_node 3) sample_players) 5 2)
    ≡ₚ [3; 5; 8; 1; 9; 4]%nat.
Proof.
  apply (one_round_serves_everybody below_ten (fresh_node 3) sample_players 5).
  - lia.
  - vm_compute. discriminate.
Defined.

(** *** A target that is not positive *)

Lemma Prepare_step_nonpositive valid Target :
  Target <= 0 ->
  forall PlayerStates init cur,
    fold_left (Prepare_step valid Target) PlayerStates (init ++ [cur]) =
    init ++ [cur] ++ map (fun a => [a]) (List.filter valid PlayerStates).
Proof.
  intros HT. induction PlayerStates as [|PS rest IH]; intros init cur.
  - cbn. reflexivity.
  - cbn [fold_left List.filter]. unfold Prepare_step at 2.
    destruct (valid PS); cbn [negb]; [|apply IH].
    rewrite CurrentList_snoc.
    destruct (Z.of_nat (length cur) >=? Target) eqn:E.
    + rewrite (CurrentList_Add_snoc (init ++ [cur]) [] PS). cbn [app].
      rewrite IH. cbn [map app]. now rewrite <- !app_assoc.
    + rewrite Z.geb_leb in E. apply Z.leb_gt in E. lia.
Qed.

(** X10.  With a target of zero or less, no bucket is ever considered to have
    room: the first bucket stays empty and every valid player state gets a
    bucket of its own, so with [N] valid player states a round takes
    [N + 1] ticks and one of them gathers nothing. *)
Theorem nonpositive_target_isolates_everybody :
  forall valid n PlayerStates,
    TargetActorsPerFrame n <= 0 ->
    ReplicationActorLists (PrepareForReplication valid n PlayerStates)
      = [] :: map (fun a => [a]) (List.filter valid PlayerStates).
Proof.
  intros valid n PlayerStates HT.
  exact (Prepare_step_nonpositive valid (TargetActorsPerFrame n) HT PlayerStates [] []).
Qed.

Lemma nonpositive_target_isolates_everybody_witness :
  ReplicationActorLists (PrepareForReplication below_ten (fresh_node 0) sample_players)
    = [[]; [3]; [5]; [8]; [1]; [9]; [4]]%nat.
Proof.
  apply (nonpositive_target_isolates_everybody below_ten (fresh_node 0) sample_players).
  cbn. lia.
Defined.

End FrequencyLimiterRounds.

(** ** UGameplayReplicationGraph: building the routing map, region lists *)

Module RoutingMap.

Import ActorRepList Routing.

#[global] Instance AActorDefaults_eq_dec : EqDecision AActorDefaults.
Proof. solve_decision. Defined.

#[global] Instance UClass_eq_dec : EqDecision UClass.
Proof. solve_decision. Defined.

(** A class followed by its super classes up to [UObject]. *)
Fixpoint ancestors_or_self (Class : UClass) : list UClass :=
  match Class with
  | UObject_StaticClass => [UObject_StaticClass]
  | SubClass _ _ Super => Class :: ancestors_or_self Super
  end.

(** [FChar::ToUpper] on the letters a to z. *)
Definition ToUpper (c : Ascii.ascii) : Ascii.ascii :=
  let n := Ascii.nat_of_ascii c in
  if (97 <=? n)%nat && (n <=? 122)%nat then Ascii.ascii_of_nat (n - 32) else c.

Fixpoint ToUpperString (s : string) : string :=
  match s with
  | EmptyString => EmptyString
  | String c rest => String (ToUpper c) (ToUpperString rest)
  end.

(** [FString::StartsWith(Prefix)]: the search case defaults to
    [ESearchCase::IgnoreCase]. *)
Definition StartsWith (s Prefix : string) : bool :=
  String.prefix (ToUpperString Prefix) (ToUpperString s).

(** The test of the class loop of [InitGlobalActorClassSettings]: the default
    object is a replicated actor and the class is neither a [SKEL_] nor a
    [REINST_] class. *)
Definition IsGatheredClass (Class : UClass) : bool :=
  match GetDefaultActor Class with
  | None => false
  | Some CDO =>
      GetIsReplicated CDO &&
      negb (StartsWith (GetName Class) "SKEL_" || StartsWith (GetName Class) "REINST_")
  end.

(** One turn of the class loop of [InitGlobalActorClassSettings]. *)
Definition ClassLoop_step (policies : gmap string EClassRepNodeMapping) (Class : UClass)
  : gmap string EClassRepNodeMapping :=
  if IsGatheredClass Class then RegisterClassRepNodeMapping policies Class else policies.

(** The class loop of [InitGlobalActorClassSettings]: [AllClasses] is what
    [TObjectIterator<UClass>] yields, in its order. *)
Definition RegisterReplicatedClasses (policies : gmap string EClassRepNodeMapping)
    (AllClasses : list UClass) : gmap string EClassRepNodeMapping :=
  fold_left ClassLoop_step AllClasses policies.

(** One entry of [UGameplayReplicationGraphSettings::ClassSettings];
    [StaticActorClass] is the result of [GetStaticActorClass], null when the
    class cannot be found or loaded. *)
Record FRepGraphActorClassSettings : Type :=
  { StaticActorClass : option UClass;
    bAddClassRepInfoToMap : bool;
    ClassNodeMapping : EClassRepNodeMapping }.

(** The settings loop of [InitGlobalActorClassSettings]. *)
Fixpoint AddClassSettings (policies : gmap string EClassRepNodeMapping)
    (ClassSettings : list FRepGraphActorClassSettings)
  : result (gmap string EClassRepNodeMapping * list LogLine) :=
  match ClassSettings with
  | [] => Ok (policies, [])
  | ActorClassSetting :: rest =>
      if bAddClassRepInfoToMap ActorClassSetting then
        match StaticActorClass ActorClassSetting with
        | Some Class =>
            let* r := AddClassRepInfo policies Class (ClassNodeMapping ActorClassSetting) in
            let* r' := AddClassSettings (fst r) rest in
            Ok (fst r', snd r ++ snd r')
        | None => AddClassSettings policies rest
        end
      else AddClassSettings policies rest
  end.

(** The steps of [InitGlobalActorClassSettings] that set entries of
    [ClassRepNodePolicies]: the settings loop, the gameplay debugger class
    ([None] when the build has no gameplay debugger) and the class loop.
    What follows in the function only looks classes up. *)
Definition InitGlobalActorClassSettings_mappings
    (policies : gmap string EClassRepNodeMapping)
    (ClassSettings : list FRepGraphActorClassSettings)
    (GameplayDebuggerClass : option UClass) (AllClasses : list UClass)
  : result (gmap string EClassRepNodeMapping * list LogLine) :=
  let* r := AddClassSettings policies ClassSettings in
  let* r' :=
    match GameplayDebuggerClass with
    | Some Class => AddClassRepInfo (fst r) Class NotRouted
    | None => Ok (fst r, [])
    end in
  Ok (RegisterReplicatedClasses (fst r') AllClasses, snd r ++ snd r').

(** The two ways the graph uses the map once it is set up: the lazy
    initialisation of a class registers it, routing and logging look a class
    up (and memoize what it resolves to). *)
Inductive MapUse : Type :=
| Registers (Class : UClass)
| LooksUp (Class : UClass).

Definition use (policies : gmap string EClassRepNodeMapping) (u : MapUse)
  : gmap string EClassRepNodeMapping :=
  match u with
  | Registers Class => RegisterClassRepNodeMapping policies Class
  | LooksUp Class => snd (GetMappingPolicy policies Class)
  end.

(** Within [classes], a class is known by its name: an ancestor (or the
    class itself) of one of them that bears the name of another one is that
    other one. *)
Definition NamesIdentify (classes : list UClass) : Prop :=
  Forall (fun C =>
    Forall (fun D =>
      Forall (fun A => GetName A = GetName C -> A = C) (ancestors_or_self D))
      classes)
    classes.

(** The mapping the flags of the class itself give. *)
Definition OwnFlagsMapping (Class : UClass) : EClassRepNodeMapping :=
  match GetDefaultActor Class with
  | Some CDO => if GetIsReplicated CDO then MappingFromFlags CDO else NotRouted
  | None => NotRouted
  end.

Definition Pickup_Class : UClass :=
  SubClass "Pickup" (Some MovingCDO) Crate_Class.

Definition SKEL_Crate_Class : UClass :=
  SubClass "Skel_Crate" (Some MovingCDO) AActor_StaticClass.

Definition sample_classes : list UClass :=
  [Pickup_Class; Beacon_Class; SKEL_Crate_Class; Crate_Class; Decoration_Class].

Definition crate_static : gmap string EClassRepNodeMapping :=
  {[ "Crate" := Spatialize_Static ]}.

Definition sample_settings : list FRepGraphActorClassSettings :=
  [ {| StaticActorClass := Some Crate_Class; bAddClassRepInfoToMap := true;
       ClassNodeMapping := Spatialize_Dormancy |};
    {| StaticActorClass := None; bAddClassRepInfoToMap := true;
       ClassNodeMapping := NotRouted |};
    {| StaticActorClass := Some Crate_Class; bAddClassRepInfoToMap := true;
       ClassNodeMapping := Spatialize_Static |};
    {| StaticActorClass := Some Crate_Class; bAddClassRepInfoToMap := false;
       ClassNodeMapping := NotRouted |} ].

(** Every streaming level list is free of duplicates. *)
Definition RegionListsNoDup (lists : gmap string (list nat)) : Prop :=
  forall level l, lists !! level = Some l -> NoDup l.

(** *** The resolver and the ancestors *)

Lemma ancestors_or_self_self (C : UClass) : C ∈ ancestors_or_self C.
Proof. destruct C; cbn; apply list_elem_of_here. Qed.

Lemma SameAsSuper_eq (a b : AActorDefaults) : SameAsSuper a b = true -> a = b.
Proof.
  intros H. apply SameAsSuper_true in H. destruct a, b.
  unfold SameRelevance in H. cbn in H.
  destruct H as (-> & -> & -> & ->). reflexivity.
Qed.

Lemma resolve_stored (p : gmap string EClassRepNodeMapping) C m :
  p !! GetName C = Some m -> GetClassNodeMapping_nonnull p C = m.
Proof.
  intros H. destruct C; cbn; unfold FindWithoutClassRecursion; cbn [GetName] in *;
    now rewrite H.
Qed.

Lemma resolution_cases (p : gmap string EClassRepNodeMapping) (C : UClass) :
  (exists A, A ∈ ancestors_or_self C /\
             p !! GetName A = Some (GetClassNodeMapping_nonnull p C)) \/
  GetClassNodeMapping_nonnull p C = OwnFlagsMapping C.
Proof.
  induction C as [|Name cdo Super IH].
  - cbn. unfold FindWithoutClassRecursion. cbn [GetName].
    destruct (p !! "Object") eqn:E.
    + left. exists UObject_StaticClass. split; [apply list_elem_of_here | exact E].
    + right. reflexivity.
  - cbn [GetClassNodeMapping_nonnull]. unfold FindWithoutClassRecursion. cbn [GetName].
    destruct (p !! Name) eqn:E.
    + left. exists (SubClass Name cdo Super). split; [apply list_elem_of_here | exact E].
    + unfold OwnFlagsMapping. cbn [GetDefaultActor].
      destruct cdo as [cdo|]; [|right; reflexivity].
      destruct (GetIsReplicated cdo) eqn:Hrep; cbn [negb]; [|right; reflexivity].
      destruct (GetDefaultActor Super) as [scdo|] eqn:Hs; [|right; reflexivity].
      destruct (SameAsSuper scdo cdo) eqn:Hsame; [|right; reflexivity].
      apply SameAsSuper_eq in Hsame. subst scdo.
      destruct IH as [(A & HA & Hst) | IH].
      * left. exists A. split; [now apply list_elem_of_further | exact Hst].
      * right. rewrite IH. unfold OwnFlagsMapping. now rewrite Hs, Hrep.
Qed.

(** X11.  What a class resolves to is either a mapping stored for the class or
    one of its ancestors, or the mapping its own flags give; in particular
    the static and the dormancy grid are only ever reached through a stored
    mapping, and with nothing stored along the ancestor chain the ancestors
    have no say. *)
Theorem resolution_is_stored_or_from_own_flags :
  forall (policies : gmap string EClassRepNodeMapping) (C : UClass),
    ((exists A, A ∈ ancestors_or_self C /\
                policies !! GetName A = Some (GetClassNodeMapping policies (Some C))) \/
     GetClassNodeMapping policies (Some C) = OwnFlagsMapping C) /\
    (GetClassNodeMapping policies (Some C) = Spatialize_Static \/
     GetClassNodeMapping policies (Some C) = Spatialize_Dormancy ->
     exists A, A ∈ ancestors_or_self C /\
               policies !! GetName A = Some (GetClassNodeMapping policies (Some C))) /\
    ((forall A, A ∈ ancestors_or_self C -> policies !! GetName A = None) ->
     GetClassNodeMapping policies (Some C) = OwnFlagsMapping C).
Proof.
  intros policies C. cbn [GetClassNodeMapping].
  pose proof (resolution_cases policies C) as Hcases.
  split; [exact Hcases|]. split.
  - intros Hgrid. destruct Hcases as [Hst|Hown]; [exact Hst|]. exfalso.
    rewrite Hown in Hgrid. unfold OwnFlagsMapping, MappingFromFlags in Hgrid.
    destruct (GetDefaultActor C) as [cdo|]; [|destruct Hgrid; discriminate].
    destruct (GetIsReplicated cdo), (ShouldSpatialize cdo),
      (bAlwaysRelevant cdo && negb (bOnlyRelevantToOwner cdo));
      destruct Hgrid; discriminate.
  - intros Hnone. destruct Hcases as [(A & HA & Hst)|Hown]; [|exact Hown].
    rewrite (Hnone A HA) in Hst. discriminate.
Qed.

Lemma Register_resolution_stable (p : gmap string EClassRepNodeMapping) C D :
  (forall A, A ∈ ancestors_or_self D -> GetName A = GetName C -> A = C) ->
  GetClassNodeMapping_nonnull (RegisterClassRepNodeMapping p C) D
    = GetClassNodeMapping_nonnull p D.
Proof.
  unfold RegisterClassRepNodeMapping. cbn [GetClassNodeMapping].
  induction D as [|Name cdo Super IH]; intros Hid.
  - destruct (decide (GetName C = "Object")) as [E|E].
    + assert (UObject_StaticClass = C) as <-
        by (apply Hid; [apply list_elem_of_here | symmetry; exact E]).
      apply resolve_stored. cbn [GetName]. now rewrite lookup_insert_eq.
    + cbn. unfold FindWithoutClassRecursion. cbn [GetName].
      now rewrite lookup_insert_ne by exact E.
  - destruct (decide (GetName C = Name)) as [E|E].
    + assert (SubClass Name cdo Super = C) as <-
        by (apply Hid; [apply list_elem_of_here | symmetry; exact E]).
      apply resolve_stored. cbn [GetName]. now rewrite lookup_insert_eq.
    + cbn [GetClassNodeMapping_nonnull]. unfold FindWithoutClassRecursion.
      cbn [GetName]. rewrite lookup_insert_ne by exact E.
      destruct (p !! Name); [reflexivity|].
      destruct cdo as [cdo|]; [|reflexivity].
      destruct (negb (GetIsReplicated cdo)); [reflexivity|].
      destruct (GetDefaultActor Super); [|reflexivity].
      destruct (SameAsSuper _ _); [|reflexivity].
      apply IH. intros A HA. apply Hid. now apply list_elem_of_further.
Qed.

Lemma NamesIdentify_spec (U : list UClass) :
  NamesIdentify U ->
  forall C D A, C ∈ U -> D ∈ U -> A ∈ ancestors_or_self D ->
                GetName A = GetName C -> A = C.
Proof.
  intros HU C D A HC HD HA.
  unfold NamesIdentify in HU. rewrite Forall_forall in HU.
  specialize (HU C HC). rewrite Forall_forall in HU.
  specialize (HU D HD). rewrite Forall_forall in HU.
  exact (HU A HA).
Qed.

Lemma ClassLoop_step_comm (U : list UClass) p C D :
  NamesIdentify U -> C ∈ U -> D ∈ U ->
  ClassLoop_step (ClassLoop_step p C) D = ClassLoop_step (ClassLoop_step p D) C.
Proof.
  intros HU HC HD. unfold ClassLoop_step.
  destruct (IsGatheredClass C), (IsGatheredClass D); try reflexivity.
  destruct (decide (GetName C = GetName D)) as [E|E].
  - assert (D = C) as ->
      by (apply (NamesIdentify_spec U HU C D D); auto using ancestors_or_self_self).
    reflexivity.
  - unfold RegisterClassRepNodeMapping at 1 3. cbn [GetClassNodeMapping].
    rewrite !Register_resolution_stable.
    + unfold RegisterClassRepNodeMapping. cbn [GetClassNodeMapping].
      apply insert_insert_ne. congruence.
    + intros A HA. now apply (NamesIdentify_spec U HU D C A).
    + intros A HA. now apply (NamesIdentify_spec U HU C D A).
Qed.

Lemma fold_left_commuting {A B} (f : B -> A -> B) (l l' : list A) :
  l ≡ₚ l' ->
  (forall x y b, x ∈ l -> y ∈ l -> f (f b x) y = f (f b y) x) ->
  forall b, fold_left f l b = fold_left f l' b.
Proof.
  induction 1 as [|x l l' Hp IH|x y l|l l' l'' Hp IH Hp' IH']; intros Hc b.
  - reflexivity.
  - cbn. apply IH. intros x' y' b' Hx' Hy'.
    apply Hc; now apply list_elem_of_further.
  - cbn. f_equal. apply Hc.
    + apply list_elem_of_here.
    + apply list_elem_of_further, list_elem_of_here.
  - rewrite IH by exact Hc. apply IH'.
    intros x y b' Hx Hy. apply Hc; now rewrite Hp.
Qed.

Lemma ClassLoop_facts (U : list UClass) (p : gmap string EClassRepNodeMapping) l :
  NamesIdentify U -> (forall C, C ∈ l -> C ∈ U) ->
  (forall D, D ∈ U ->
     GetClassNodeMapping_nonnull (RegisterReplicatedClasses p l) D
       = GetClassNodeMapping_nonnull p D) /\
  (forall C, C ∈ l -> IsGatheredClass C = true ->
     RegisterReplicatedClasses p l !! GetName C = Some (GetClassNodeMapping_nonnull p C)) /\
  (forall s, (forall C, C ∈ l -> IsGatheredClass C = true -> GetName C <> s) ->
     RegisterReplicatedClasses p l !! s = p !! s).
Proof.
  intros HU. induction l as [|x l IH] using rev_ind; intros Hsub.
  - cbn. split; [reflexivity|]. split; [|reflexivity].
    intros C HC. now apply elem_of_nil in HC.
  - unfold RegisterReplicatedClasses. rewrite fold_left_app. cbn [fold_left].
    fold (RegisterReplicatedClasses p l).
    destruct IH as (IH1 & IH2 & IH3).
    { intros C HC. apply Hsub, elem_of_app. now left. }
    assert (Hx : x ∈ U).
    { apply Hsub, elem_of_app. right. apply list_elem_of_here. }
    unfold ClassLoop_step. destruct (IsGatheredClass x) eqn:Hg.
    + split; [|split].
      * intros D HD. rewrite Register_resolution_stable; [now apply IH1|].
        intros A HA. now apply (NamesIdentify_spec U HU x D A).
      * intros C HC HgC. unfold RegisterClassRepNodeMapping. cbn [GetClassNodeMapping].
        destruct (decide (GetName x = GetName C)) as [E|E].
        -- assert (C = x) as ->.
           { apply (NamesIdentify_spec U HU x C C); auto using ancestors_or_self_self. }
           rewrite lookup_insert_eq. f_equal. now apply IH1.
        -- rewrite lookup_insert_ne by exact E.
           apply elem_of_app in HC as [HC|HC]; [now apply IH2|].
           apply list_elem_of_singleton in HC. subst C. now contradiction E.
      * intros s Hs. unfold RegisterClassRepNodeMapping. rewrite lookup_insert_ne.
        -- apply IH3. intros C HC. apply Hs, elem_of_app. now left.
        -- apply Hs; [|exact Hg]. apply elem_of_app. right. apply list_elem_of_here.
    + split; [exact IH1|]. split.
      * intros C HC HgC. apply elem_of_app in HC as [HC|HC]; [now apply IH2|].
        apply list_elem_of_singleton in HC. subst C. congruence.
      * intros s Hs. apply IH3. intros C HC. apply Hs, elem_of_app. now left.
Qed.

(** X12.  When names identify the classes the class loop visits, the loop
    leaves behind, for every replicated class it visits (other than
    [SKEL_] and [REINST_] classes), the mapping that class resolved to before
    the loop started; it touches no other name, and it changes what none of
    the visited classes resolves to. *)
Theorem class_loop_stores_initial_resolutions :
  forall (policies : gmap string EClassRepNodeMapping) (AllClasses : list UClass),
    NamesIdentify AllClasses ->
    let final := RegisterReplicatedClasses policies AllClasses in
    (forall C, C ∈ AllClasses -> IsGatheredClass C = true ->
       final !! GetName C = Some (GetClassNodeMapping policies (Some C))) /\
    (forall s, (forall C, C ∈ AllClasses -> IsGatheredClass C = true -> GetName C <> s) ->
       final !! s = policies !! s) /\
    (forall D, D ∈ AllClasses ->
       GetClassNodeMapping final (Some D) = GetClassNodeMapping policies (Some D)).
Proof.
  intros policies AllClasses HU. cbn zeta. cbn [GetClassNodeMapping].
  destruct (ClassLoop_facts AllClasses policies AllClasses HU (fun C H => H))
    as (H1 & H2 & H3).
  split; [exact H2|]. split; [exact H3 | exact H1].
Qed.

Lemma class_loop_stores_initial_resolutions_witness :
  RegisterReplicatedClasses crate_static sample_classes !! "Pickup" = Some Spatialize_Static /\
  RegisterReplicatedClasses crate_static sample_classes !! "Skel_Crate" = None.
Proof.
  destruct (class_loop_stores_initial_resolutions crate_static sample_classes)
    as (Hstored & Huntouched & _).
  { unfold NamesIdentify. apply (bool_decide_unpack _). vm_compute. exact I. }
  split.
  - apply (Hstored Pickup_Class).
    + apply list_elem_of_here.
    + reflexivity.
  - rewrite Huntouched; [reflexivity|].
    intros C HC Hg E. unfold sample_classes in HC.
    repeat (apply elem_of_cons in HC as [->|HC]); try discriminate.
    now apply elem_of_nil in HC.
Defined.

(** X13.  When names identify the classes the class loop visits, the order in
    which [TObjectIterator] yields them has no influence on the map the loop
    builds. *)
Theorem class_loop_order_is_irrelevant :
  forall (policies : gmap string EClassRepNodeMapping) (AllClasses AllClasses' : list UClass),
    NamesIdentify AllClasses ->
    AllClasses ≡ₚ AllClasses' ->
    RegisterReplicatedClasses policies AllClasses
      = RegisterReplicatedClasses policies AllClasses'.
Proof.
  intros policies l l' HU Hp. unfold RegisterReplicatedClasses.
  apply fold_left_commuting; [exact Hp|].
  intros x y b Hx Hy. now apply (ClassLoop_step_comm l).
Qed.

Lemma class_loop_order_is_irrelevant_witness :
  RegisterReplicatedClasses crate_static sample_classes
    = RegisterReplicatedClasses crate_static (rev sample_classes).
Proof.
  apply class_loop_order_is_irrelevant.
  - unfold NamesIdentify. apply (bool_decide_unpack _). vm_compute. exact I.
  - apply Permutation_rev.
Defined.

Lemma resolution_is_stored_or_from_own_flags_witness :
  GetClassNodeMapping ∅ (Some Pickup_Class) = Spatialize_Dynamic /\
  exists A, A ∈ ancestors_or_self Pickup_Class /\
            crate_static !! GetName A
              = Some (GetClassNodeMapping crate_static (Some Pickup_Class)).
Proof.
  destruct (resolution_is_stored_or_from_own_flags ∅ Pickup_Class) as (_ & _ & Hown).
  destruct (resolution_is_stored_or_from_own_flags crate_static Pickup_Class)
    as (_ & Hgrid & _).
  split.
  - rewrite Hown; [reflexivity|]. intros A _. apply lookup_empty.
  - apply Hgrid. left. reflexivity.
Defined.

(** *** Explicit mappings *)

Lemma AddClassRepInfo_Ok (p : gmap string EClassRepNodeMapping) C m r :
  AddClassRepInfo p C m = Ok r -> fst r = <[GetName C := m]> p.
Proof.
  unfold AddClassRepInfo.
  destruct (IsSpatialized m); [destruct (GetDefaultActor C)|];
    intros H; inversion H; reflexivity.
Qed.

Lemma ClassLoop_step_keeps_stored (p : gmap string EClassRepNodeMapping) C s m :
  p !! s = Some m -> ClassLoop_step p C !! s = Some m.
Proof.
  intros H. unfold ClassLoop_step. destruct (IsGatheredClass C); [|exact H].
  unfold RegisterClassRepNodeMapping. destruct (decide (GetName C = s)) as [<-|E].
  - rewrite lookup_insert_eq. f_equal. cbn [GetClassNodeMapping]. now apply resolve_stored.
  - now rewrite lookup_insert_ne.
Qed.

Lemma ClassLoop_keeps_stored l :
  forall (p : gmap string EClassRepNodeMapping) s m,
    p !! s = Some m -> RegisterReplicatedClasses p l !! s = Some m.
Proof.
  induction l as [|C l IH]; intros p s m H; cbn; [exact H|].
  apply IH. now apply ClassLoop_step_keeps_stored.
Qed.

Lemma use_keeps_stored (p : gmap string EClassRepNodeMapping) u s m :
  p !! s = Some m -> use p u !! s = Some m.
Proof.
  intros H. destruct u as [C|C]; cbn [use].
  - unfold RegisterClassRepNodeMapping. destruct (decide (GetName C = s)) as [<-|E].
    + rewrite lookup_insert_eq. f_equal. cbn [GetClassNodeMapping].
      now apply resolve_stored.
    + now rewrite lookup_insert_ne.
  - unfold GetMappingPolicy, TClassMap_Get.
    destruct (p !! GetName C) as [m'|] eqn:E; cbn [snd]; [exact H|].
    rewrite lookup_insert_ne; [exact H | congruence].
Qed.

Lemma uses_keep_stored later :
  forall (p : gmap string EClassRepNodeMapping) s m,
    p !! s = Some m -> fold_left use later p !! s = Some m.
Proof.
  induction later as [|u later IH]; intros p s m H; cbn; [exact H|].
  apply IH. now apply use_keeps_stored.
Qed.

Lemma GetMappingPolicy_stored (p : gmap string EClassRepNodeMapping) C m :
  p !! GetName C = Some m -> GetMappingPolicy p C = (m, p).
Proof. intros H. unfold GetMappingPolicy, TClassMap_Get. now rewrite H. Qed.

(** X14.  A mapping given to a class by [AddClassRepInfo] is what the class is
    routed by after the class loop and after any later lazy registrations
    and lookups, whatever classes they concern and in whatever order: none of
    them ever overwrites a stored mapping. *)
Theorem explicit_mapping_survives_class_loop :
  forall (policies policies' : gmap string EClassRepNodeMapping) C Mapping log
         AllClasses later,
    AddClassRepInfo policies C Mapping = Ok (policies', log) ->
    let final := fold_left use later (RegisterReplicatedClasses policies' AllClasses) in
    GetMappingPolicy final C = (Mapping, final) /\
    GetClassNodeMapping final (Some C) = Mapping /\
    (forall s m, policies' !! s = Some m -> final !! s = Some m).
Proof.
  intros policies policies' C Mapping log AllClasses later Hadd. cbn zeta.
  apply AddClassRepInfo_Ok in Hadd. cbn [fst] in Hadd.
  assert (Hkeep : forall s m, policies' !! s = Some m ->
            fold_left use later (RegisterReplicatedClasses policies' AllClasses) !! s
              = Some m).
  { intros s m H. now apply uses_keep_stored, ClassLoop_keeps_stored. }
  assert (Hst : fold_left use later (RegisterReplicatedClasses policies' AllClasses)
                  !! GetName C = Some Mapping).
  { apply Hkeep. subst policies'. apply lookup_insert_eq. }
  split; [now apply GetMappingPolicy_stored|].
  split; [now apply resolve_stored | exact Hkeep].
Qed.

Lemma explicit_mapping_survives_class_loop_witness :
  GetClassNodeMapping
    (fold_left use [LooksUp Pickup_Class; Registers Crate_Class]
       (RegisterReplicatedClasses crate_static sample_classes))
    (Some Crate_Class) = Spatialize_Static.
Proof.
  apply (explicit_mapping_survives_class_loop ∅ crate_static Crate_Class
           Spatialize_Static [] sample_classes
           [LooksUp Pickup_Class; Registers Crate_Class]).
  reflexivity.
Defined.

Lemma AddClassSettings_untouched ClassSettings :
  forall (p p' : gmap string EClassRepNodeMapping) log s,
    AddClassSettings p ClassSettings = Ok (p', log) ->
    (forall e C, e ∈ ClassSettings -> bAddClassRepInfoToMap e = true ->
                 StaticActorClass e = Some C -> GetName C <> s) ->
    p' !! s = p !! s.
Proof.
  induction ClassSettings as [|e rest IH]; intros p p' log s Hrun Hne;
    cbn [AddClassSettings] in Hrun.
  - inversion Hrun. reflexivity.
  - assert (Hrest : forall e' C, e' ∈ rest -> bAddClassRepInfoToMap e' = true ->
                      StaticActorClass e' = Some C -> GetName C <> s).
    { intros e' C He'. apply Hne. now apply list_elem_of_further. }
    destruct (bAddClassRepInfoToMap e) eqn:Hb; [|now apply (IH p p' log)].
    destruct (StaticActorClass e) as [C|] eqn:HC; [|now apply (IH p p' log)].
    destruct (AddClassRepInfo p C (ClassNodeMapping e)) as [r|] eqn:Hadd;
      [|discriminate].
    cbn [bind] in Hrun.
    destruct (AddClassSettings (fst r) rest) as [[p2 log2]|] eqn:Hrec; [|discriminate].
    cbn [bind fst snd] in Hrun. inversion Hrun; subst p'.
    rewrite (IH (fst r) p2 log2 s Hrec Hrest).
    rewrite (AddClassRepInfo_Ok _ _ _ _ Hadd). apply lookup_insert_ne.
    apply (Hne e C); [apply list_elem_of_here | exact Hb | exact HC].
Qed.

Lemma AddClassSettings_last_wins pre e post C :
  bAddClassRepInfoToMap e = true -> StaticActorClass e = Some C ->
  (forall e' C', e' ∈ post -> bAddClassRepInfoToMap e' = true ->
                 StaticActorClass e' = Some C' -> GetName C' <> GetName C) ->
  forall (p p' : gmap string EClassRepNodeMapping) log,
    AddClassSettings p (pre ++ e :: post) = Ok (p', log) ->
    p' !! GetName C = Some (ClassNodeMapping e).
Proof.
  intros Hb HC Hpost. induction pre as [|e0 pre IH]; intros p p' log Hrun.
  - cbn [app AddClassSettings] in Hrun. rewrite Hb, HC in Hrun.
    destruct (AddClassRepInfo p C (ClassNodeMapping e)) as [r|] eqn:Hadd;
      [|discriminate].
    cbn [bind] in Hrun.
    destruct (AddClassSettings (fst r) post) as [[p2 log2]|] eqn:Hrec; [|discriminate].
    cbn [bind fst snd] in Hrun. inversion Hrun; subst p'.
    rewrite (AddClassSettings_untouched post (fst r) p2 log2 (GetName C) Hrec Hpost).
    rewrite (AddClassRepInfo_Ok _ _ _ _ Hadd). apply lookup_insert_eq.
  - cbn [app AddClassSettings] in Hrun.
    destruct (bAddClassRepInfoToMap e0); [|now apply (IH p p' log)].
    destruct (StaticActorClass e0) as [C0|]; [|now apply (IH p p' log)].
    destruct (AddClassRepInfo p C0 (ClassNodeMapping e0)) as [r|]; [|discriminate].
    cbn [bind] in Hrun.
    destruct (AddClassSettings (fst r) (pre ++ e :: post)) as [[p2 log2]|] eqn:Hrec;
      [|discriminate].
    cbn [bind fst snd] in Hrun. inversion Hrun; subst p'.
    now apply (IH (fst r) p2 log2).
Qed.

(** X15.  Once [InitGlobalActorClassSettings] has set its map entries, a
    class named by a class setting that asks for a map entry is routed by the
    mapping of the last such setting for it, provided the gameplay debugger
    class is another one: neither the settings of other classes, nor the
    class loop, nor any later lazy registration or lookup changes it. *)
Theorem last_class_setting_is_routed :
  forall (policies mappings : gmap string EClassRepNodeMapping) pre e post
         GameplayDebuggerClass AllClasses C log later,
    bAddClassRepInfoToMap e = true ->
    StaticActorClass e = Some C ->
    (forall e' C', e' ∈ post -> bAddClassRepInfoToMap e' = true ->
                   StaticActorClass e' = Some C' -> GetName C' <> GetName C) ->
    (forall D, GameplayDebuggerClass = Some D -> GetName D <> GetName C) ->
    InitGlobalActorClassSettings_mappings policies (pre ++ e :: post)
      GameplayDebuggerClass AllClasses = Ok (mappings, log) ->
    let final := fold_left use later mappings in
    GetMappingPolicy final C = (ClassNodeMapping e, final).
Proof.
  intros policies mappings pre e post dbg AllClasses C log later Hb HC Hpost Hdbg Hrun.
  cbn zeta. unfold InitGlobalActorClassSettings_mappings in Hrun.
  destruct (AddClassSettings policies (pre ++ e :: post)) as [[p1 log1]|] eqn:Hset;
    [|discriminate].
  cbn [bind fst snd] in Hrun.
  pose proof (AddClassSettings_last_wins pre e post C Hb HC Hpost _ _ _ Hset) as H1.
  assert (H2 : exists p2 log2,
             match dbg with
             | Some Class => AddClassRepInfo p1 Class NotRouted
             | None => Ok (p1, [])
             end = Ok (p2, log2) /\
             p2 !! GetName C = Some (ClassNodeMapping e)).
  { destruct dbg as [D|].
    - exists (<[GetName D := NotRouted]> p1), []. split; [reflexivity|].
      rewrite lookup_insert_ne; [exact H1 | now apply Hdbg].
    - exists p1, []. split; [reflexivity | exact H1]. }
  destruct H2 as (p2 & log2 & Hdbg2 & H2). rewrite Hdbg2 in Hrun.
  cbn [bind fst snd] in Hrun.
  inversion Hrun; subst mappings.
  apply GetMappingPolicy_stored. now apply uses_keep_stored, ClassLoop_keeps_stored.
Qed.

Lemma last_class_setting_is_routed_witness :
  exists mappings log,
    InitGlobalActorClassSettings_mappings ∅ sample_settings (Some Beacon_Class)
      sample_classes = Ok (mappings, log) /\
    GetMappingPolicy (fold_left use [LooksUp Pickup_Class] mappings) Crate_Class
      = (Spatialize_Static, fold_left use [LooksUp Pickup_Class] mappings).
Proof.
  eexists _, _. split; [reflexivity|].
  apply (last_class_setting_is_routed ∅ _
           [ {| StaticActorClass := Some Crate_Class; bAddClassRepInfoToMap := true;
                ClassNodeMapping := Spatialize_Dormancy |};
             {| StaticActorClass := None; bAddClassRepInfoToMap := true;
                ClassNodeMapping := NotRouted |} ]
           {| StaticActorClass := Some Crate_Class; bAddClassRepInfoToMap := true;
              ClassNodeMapping := Spatialize_Static |}
           [ {| StaticActorClass := Some Crate_Class; bAddClassRepInfoToMap := false;
                ClassNodeMapping := NotRouted |} ]
           (Some Beacon_Class) sample_classes Crate_Class [] [LooksUp Pickup_Class]).
  - reflexivity.
  - reflexivity.
  - intros e' C' He' Hb'. apply list_elem_of_singleton in He'. subst e'. discriminate.
  - intros D [= <-]. discriminate.
  - reflexivity.
Defined.

(** *** The streaming level lists *)

Lemma ConditionalAdd_new (l : list nat) (a : nat) :
  a ∉ l -> ConditionalAdd l a = l ++ [a].
Proof. intros H. unfold ConditionalAdd. now rewrite bool_decide_eq_false_2. Qed.

Lemma ConditionalAdd_old (l : list nat) (a : nat) :
  a ∈ l -> ConditionalAdd l a = l.
Proof. intros H. unfold ConditionalAdd. now rewrite bool_decide_eq_true_2. Qed.

Lemma ConditionalAdd_NoDup (l : list nat) (a : nat) :
  NoDup l -> NoDup (ConditionalAdd l a).
Proof.
  intros H. unfold ConditionalAdd. case_bool_decide as Ha; [exact H|].
  apply NoDup_app. split; [exact H|]. split; [|apply NoDup_singleton].
  intros x Hx Hx'. apply list_elem_of_singleton in Hx'. subst x. contradiction.
Qed.

Lemma ConditionalAdd_twice (l : list nat) (a : nat) :
  ConditionalAdd (ConditionalAdd l a) a = ConditionalAdd l a.
Proof.
  apply ConditionalAdd_old. unfold ConditionalAdd. case_bool_decide as Ha; [exact Ha|].
  apply elem_of_app. right. apply list_elem_of_here.
Qed.

Lemma IndexOf_Some (l : list nat) (a : nat) :
  forall i, IndexOf l a = Some i -> exists pre K, l = pre ++ a :: K /\ length pre = i.
Proof.
  induction l as [|x l IH]; intros i; cbn [IndexOf]; [discriminate|].
  case_bool_decide as Hx.
  - intros [= <-]. subst x. exists [], l. split; reflexivity.
  - destruct (IndexOf l a) as [j|] eqn:E; cbn; [|discriminate].
    intros [= <-]. destruct (IH j eq_refl) as (pre & K & -> & <-).
    exists (x :: pre), K. split; reflexivity.
Qed.

Lemma RemoveFast_found (l : list nat) (a : nat) i :
  IndexOf l a = Some i -> a :: RemoveAtSwap i l ≡ₚ l.
Proof.
  intros H. destruct (IndexOf_Some l a i H) as (pre & K & -> & <-).
  destruct (AlwaysRelevantForConnection.RemoveAtSwap_middle pre a K) as (K' & -> & HK).
  rewrite HK. apply Permutation_middle.
Qed.

Lemma IndexOf_snoc (l : list nat) (a : nat) :
  a ∉ l -> IndexOf (l ++ [a]) a = Some (length l).
Proof.
  induction l as [|x l IH]; intros H; cbn.
  - now rewrite bool_decide_eq_true_2.
  - apply not_elem_of_cons in H as [Hne Hl].
    rewrite bool_decide_eq_false_2 by congruence. now rewrite IH.
Qed.

Lemma RemoveFast_snoc (l : list nat) (a : nat) :
  a ∉ l -> RemoveFast (l ++ [a]) a = (true, l).
Proof.
  intros H. unfold RemoveFast. rewrite (IndexOf_snoc l a H).
  destruct (AlwaysRelevantForConnection.RemoveAtSwap_middle l a []) as (K' & -> & HK).
  apply Permutation_nil_r in HK. subst K'. now rewrite app_nil_r.
Qed.

Lemma RemoveFast_NoDup (l : list nat) (a : nat) :
  NoDup l -> NoDup (snd (RemoveFast l a)) /\ (a ∉ snd (RemoveFast l a)).
Proof.
  intros H. unfold RemoveFast. destruct (IndexOf l a) as [i|] eqn:E; cbn [snd].
  - apply RemoveFast_found in E. rewrite <- E in H.
    apply NoDup_cons in H as [Hn Hd]. split; assumption.
  - split; [exact H | now apply IndexOf_None].
Qed.

Section RegionLists.

Variables (ActorListNode GridSpatialization2D FGlobalActorReplicationInfo
           DriverState : Type).
Variable NotifyAdd NotifyRemove :
  FNewReplicatedActorInfo -> ActorListNode -> ActorListNode.
Variables AddStatic AddDynamic AddDormancy :
  FNewReplicatedActorInfo -> FGlobalActorReplicationInfo -> GridSpatialization2D ->
  GridSpatialization2D * FGlobalActorReplicationInfo.
Variables RemoveStatic RemoveDynamic RemoveDormancy :
  FNewReplicatedActorInfo -> GridSpatialization2D -> GridSpatialization2D.
Variable IgnoreDistanceCulling : nat -> DriverState -> DriverState.

Let RouteAdd :=
  RouteAddNetworkActorToNodes ActorListNode GridSpatialization2D
    FGlobalActorReplicationInfo DriverState NotifyAdd AddStatic AddDynamic AddDormancy.
Let RouteRemove :=
  RouteRemoveNetworkActorToNodes ActorListNode GridSpatialization2D DriverState
    NotifyRemove RemoveStatic RemoveDynamic RemoveDormancy IgnoreDistanceCulling.

(** What registering does to the policies, the log and the streaming level
    lists. *)
Lemma RouteAdd_lists G ActorInfo GlobalInfo :
  let G1 := fst (RouteAdd G ActorInfo GlobalInfo) in
  ClassRepNodePolicies G1
    = snd (GetMappingPolicy (ClassRepNodePolicies G) (Class ActorInfo)) /\
  Log G1 = Log G /\
  AlwaysRelevantStreamingLevelActors G1 =
    if bool_decide (fst (GetMappingPolicy (ClassRepNodePolicies G) (Class ActorInfo))
                      = RelevantAllConnections
                    /\ StreamingLevelName ActorInfo <> NAME_None)
    then <[StreamingLevelName ActorInfo :=
             ConditionalAdd
               (default [] (AlwaysRelevantStreamingLevelActors G
                              !! StreamingLevelName ActorInfo))
               (Actor ActorInfo)]> (AlwaysRelevantStreamingLevelActors G)
    else AlwaysRelevantStreamingLevelActors G.
Proof.
  cbn zeta. unfold RouteAdd, RouteAddNetworkActorToNodes.
  destruct (GetMappingPolicy (ClassRepNodePolicies G) (Class ActorInfo))
    as [Policy policies]. cbn [fst snd].
  destruct Policy; cbn;
    try (rewrite bool_decide_eq_false_2 by (intros [? _]; discriminate);
         repeat split; reflexivity).
  case_bool_decide as Hlevel; cbn.
  - rewrite bool_decide_eq_false_2 by (intros [_ ?]; contradiction).
    repeat split; reflexivity.
  - rewrite bool_decide_eq_true_2 by (split; [reflexivity | assumption]).
    repeat split; reflexivity.
Qed.

(** What a returning unregister call does to the streaming level lists. *)
Lemma RouteRemove_lists G ActorInfo G' :
  RouteRemove G ActorInfo = Ok G' ->
  (fst (GetMappingPolicy (ClassRepNodePolicies G) (Class ActorInfo))
     = RelevantAllConnections /\
   StreamingLevelName ActorInfo <> NAME_None /\
   exists RepList,
     AlwaysRelevantStreamingLevelActors G !! StreamingLevelName ActorInfo
       = Some RepList /\
     AlwaysRelevantStreamingLevelActors G' =
       <[StreamingLevelName ActorInfo := snd (RemoveFast RepList (Actor ActorInfo))]>
         (AlwaysRelevantStreamingLevelActors G)) \/
  ((fst (GetMappingPolicy (ClassRepNodePolicies G) (Class ActorInfo))
      <> RelevantAllConnections \/
    StreamingLevelName ActorInfo = NAME_None) /\
   AlwaysRelevantStreamingLevelActors G' = AlwaysRelevantStreamingLevelActors G).
Proof.
  unfold RouteRemove, RouteRemoveNetworkActorToNodes.
  destruct (GetMappingPolicy (ClassRepNodePolicies G) (Class ActorInfo))
    as [Policy policies]. cbn [fst snd].
  destruct Policy;
    try (intros [= <-]; right; split; [left; discriminate | reflexivity]).
  case_bool_decide as Hlevel.
  - intros [= <-]. right. split; [now right | reflexivity].
  - destruct (AlwaysRelevantStreamingLevelActors G !! StreamingLevelName ActorInfo)
      as [RepList|] eqn:Hlist; [|discriminate].
    destruct (RemoveFast RepList (Actor ActorInfo)) as [found RepList'] eqn:Hrm.
    intros [= <-]. left. split; [reflexivity|]. split; [assumption|].
    exists RepList. rewrite Hrm. split; reflexivity.
Qed.

(** X16.  Registering an always relevant actor under a streaming level whose
    list does not hold it yet, and unregistering it again, never stops on an
    assertion, logs nothing, and leaves the list of that level as it was;
    a level that had no list is left with an empty one. *)
Theorem add_then_remove_restores_region_list :
  forall G ActorInfo GlobalInfo,
    fst (GetMappingPolicy (ClassRepNodePolicies G) (Class ActorInfo))
      = RelevantAllConnections ->
    StreamingLevelName ActorInfo <> NAME_None ->
    Actor ActorInfo ∉
      default [] (AlwaysRelevantStreamingLevelActors G !! StreamingLevelName ActorInfo) ->
    exists G',
      RouteRemove (fst (RouteAdd G ActorInfo GlobalInfo)) ActorInfo = Ok G' /\
      AlwaysRelevantStreamingLevelActors G' =
        <[StreamingLevelName ActorInfo :=
            default [] (AlwaysRelevantStreamingLevelActors G
                          !! StreamingLevelName ActorInfo)]>
          (AlwaysRelevantStreamingLevelActors G) /\
      Log G' = Log G /\
      AlwaysRelevantNode G' = AlwaysRelevantNode G /\
      GridNode G' = GridNode G.
Proof.
  intros G ActorInfo GlobalInfo HPolicy Hlevel Hnew.
  unfold RouteAdd, RouteAddNetworkActorToNodes.
  pose proof (GetMappingPolicy_stable (ClassRepNodePolicies G) (Class ActorInfo)) as Hst.
  destruct (GetMappingPolicy (ClassRepNodePolicies G) (Class ActorInfo))
    as [Policy policies]. cbn [fst snd] in HPolicy, Hst. subst Policy.
  rewrite bool_decide_eq_false_2 by assumption. cbn [fst].
  unfold RouteRemove, RouteRemoveNetworkActorToNodes.
  cbn [ClassRepNodePolicies]. rewrite Hst.
  rewrite bool_decide_eq_false_2 by assumption.
  cbn [AlwaysRelevantStreamingLevelActors]. rewrite lookup_insert_eq.
  rewrite (ConditionalAdd_new _ _ Hnew), (RemoveFast_snoc _ _ Hnew).
  eexists. split; [reflexivity|]. cbn.
  split; [apply insert_insert_eq|]. repeat split.
Qed.

(** X17.  As long as every streaming level list is free of duplicates,
    registering and unregistering keep it so, and after a returning
    unregister call of an always relevant actor under a streaming level the
    list of that level no longer holds the actor. *)
Theorem region_lists_stay_duplicate_free :
  forall G ActorInfo GlobalInfo,
    RegionListsNoDup (AlwaysRelevantStreamingLevelActors G) ->
    RegionListsNoDup
      (AlwaysRelevantStreamingLevelActors (fst (RouteAdd G ActorInfo GlobalInfo))) /\
    forall G',
      RouteRemove G ActorInfo = Ok G' ->
      RegionListsNoDup (AlwaysRelevantStreamingLevelActors G') /\
      (fst (GetMappingPolicy (ClassRepNodePolicies G) (Class ActorInfo))
         = RelevantAllConnections ->
       StreamingLevelName ActorInfo <> NAME_None ->
       exists l,
         AlwaysRelevantStreamingLevelActors G' !! StreamingLevelName ActorInfo = Some l /\
         (Actor ActorInfo ∉ l)).
Proof.
  intros G ActorInfo GlobalInfo Hinv. split.
  - destruct (RouteAdd_lists G ActorInfo GlobalInfo) as (_ & _ & ->).
    case_bool_decide as Hcase; [|exact Hinv].
    intros level l Hl.
    destruct (decide (StreamingLevelName ActorInfo = level)) as [<-|Hne].
    + rewrite lookup_insert_eq in Hl. inversion Hl; subst l.
      apply ConditionalAdd_NoDup.
      destruct (AlwaysRelevantStreamingLevelActors G !! StreamingLevelName ActorInfo)
        as [l0|] eqn:E; cbn; [now apply (Hinv _ _ E) | apply NoDup_nil_2].
    + rewrite lookup_insert_ne in Hl by exact Hne. now apply (Hinv level).
  - intros G' Hrm.
    destruct (RouteRemove_lists G ActorInfo G' Hrm)
      as [(HP & Hlevel & RepList & Hlist & ->) | ([HP|Hlevel] & ->)].
    + destruct (RemoveFast_NoDup RepList (Actor ActorInfo) (Hinv _ _ Hlist)) as [Hnd Hnot].
      split.
      * intros level l Hl.
        destruct (decide (StreamingLevelName ActorInfo = level)) as [<-|Hne].
        -- rewrite lookup_insert_eq in Hl. now inversion Hl; subst l.
        -- rewrite lookup_insert_ne in Hl by exact Hne. now apply (Hinv level).
      * intros _ _. eexists. split; [apply lookup_insert_eq | exact Hnot].
    + split; [exact Hinv | intros HP'; contradiction].
    + split; [exact Hinv | intros _ Hl; contradiction].
Qed.

(** X18.  Registering and unregistering an actor touch no streaming level list
    but the one of the actor's own level, none at all unless the actor is
    always relevant and has a level, and registering the same actor again
    changes no list. *)
Theorem routing_touches_only_the_actors_region_list :
  forall G ActorInfo GlobalInfo GlobalInfo',
    (forall level, level <> StreamingLevelName ActorInfo ->
       AlwaysRelevantStreamingLevelActors (fst (RouteAdd G ActorInfo GlobalInfo)) !! level
         = AlwaysRelevantStreamingLevelActors G !! level) /\
    (forall G' level, RouteRemove G ActorInfo = Ok G' ->
       level <> StreamingLevelName ActorInfo ->
       AlwaysRelevantStreamingLevelActors G' !! level
         = AlwaysRelevantStreamingLevelActors G !! level) /\
    (fst (GetMappingPolicy (ClassRepNodePolicies G) (Class ActorInfo))
       <> RelevantAllConnections \/ StreamingLevelName ActorInfo = NAME_None ->
     AlwaysRelevantStreamingLevelActors (fst (RouteAdd G ActorInfo GlobalInfo))
       = AlwaysRelevantStreamingLevelActors G /\
     forall G', RouteRemove G ActorInfo = Ok G' ->
       AlwaysRelevantStreamingLevelActors G' = AlwaysRelevantStreamingLevelActors G) /\
    AlwaysRelevantStreamingLevelActors
      (fst (RouteAdd (fst (RouteAdd G ActorInfo GlobalInfo)) ActorInfo GlobalInfo'))
      = AlwaysRelevantStreamingLevelActors (fst (RouteAdd G ActorInfo GlobalInfo)).
Proof.
  intros G ActorInfo GlobalInfo GlobalInfo'.
  split; [|split; [|split]].
  - intros level Hne.
    destruct (RouteAdd_lists G ActorInfo GlobalInfo) as (_ & _ & ->).
    case_bool_decide; [|reflexivity]. now rewrite lookup_insert_ne.
  - intros G' level Hrm Hne.
    destruct (RouteRemove_lists G ActorInfo G' Hrm)
      as [(_ & _ & RepList & _ & ->) | (_ & ->)]; [|reflexivity].
    now rewrite lookup_insert_ne.
  - intros Hcase. split.
    + destruct (RouteAdd_lists G ActorInfo GlobalInfo) as (_ & _ & ->).
      rewrite bool_decide_eq_false_2; [reflexivity|].
      intros [HP Hl]. destruct Hcase; contradiction.
    + intros G' Hrm.
      destruct (RouteRemove_lists G ActorInfo G' Hrm)
        as [(HP & Hl & _) | (_ & ->)]; [|reflexivity].
      destruct Hcase; contradiction.
  - destruct (RouteAdd_lists (fst (RouteAdd G ActorInfo GlobalInfo)) ActorInfo GlobalInfo')
      as (_ & _ & ->).
    destruct (RouteAdd_lists G ActorInfo GlobalInfo) as (-> & _ & ->).
    rewrite GetMappingPolicy_stable. cbn [fst].
    case_bool_decide; [|reflexivity].
    rewrite lookup_insert_eq. cbn [default id]. rewrite ConditionalAdd_twice.
    apply insert_insert_eq.
Qed.

End RegionLists.

Lemma add_then_remove_restores_region_list_witness :
  exists G',
    route_remove (route_add empty_graph (beacon_in_R1 7)) (beacon_in_R1 7) = Ok G' /\
    AlwaysRelevantStreamingLevelActors G' = {[ "R1" := [] ]} /\
    Log G' = [].
Proof.
  destruct (add_then_remove_restores_region_list unit unit unit unit
              (fun _ n => n) (fun _ n => n)
              (fun _ g r => (r, g)) (fun _ g r => (r, g)) (fun _ g r => (r, g))
              (fun _ r => r) (fun _ r => r) (fun _ r => r) (fun _ d => d)
              empty_graph (beacon_in_R1 7) tt)
    as (G' & Hrun & Hlists & Hlog & _).
  - reflexivity.
  - discriminate.
  - cbn. apply not_elem_of_nil.
  - exists G'. split; [exact Hrun|]. split; [exact Hlists | exact Hlog].
Defined.

Lemma region_lists_stay_duplicate_free_witness :
  RegionListsNoDup
    (AlwaysRelevantStreamingLevelActors
       (route_add (route_add empty_graph (beacon_in_R1 7)) (beacon_in_R1 7))).
Proof.
  destruct (region_lists_stay_duplicate_free unit unit unit unit
              (fun _ n => n) (fun _ n => n)
              (fun _ g r => (r, g)) (fun _ g r => (r, g)) (fun _ g r => (r, g))
              (fun _ r => r) (fun _ r => r) (fun _ r => r) (fun _ d => d)
              (route_add empty_graph (beacon_in_R1 7)) (beacon_in_R1 7) tt)
    as [Hadd _]; [|exact Hadd].
  intros level l Hl.
  change (AlwaysRelevantStreamingLevelActors (route_add empty_graph (beacon_in_R1 7)))
    with ({[ "R1" := [7%nat] ]} : gmap string (list nat)) in Hl.
  apply lookup_singleton_Some in Hl as [_ <-]. apply NoDup_singleton.
Defined.

Lemma routing_touches_only_the_actors_region_list_witness :
  AlwaysRelevantStreamingLevelActors
    (route_add (route_add empty_graph (beacon_in_R1 7))
       {| Actor := 8; Class := Beacon_Class; StreamingLevelName := "R2" |}) !! "R1"
  = Some [7%nat].
Proof.
  destruct (routing_touches_only_the_actors_region_list unit unit unit unit
              (fun _ n => n) (fun _ n => n)
              (fun _ g r => (r, g)) (fun _ g r => (r, g)) (fun _ g r => (r, g))
              (fun _ r => r) (fun _ r => r) (fun _ r => r) (fun _ d => d)
              (route_add empty_graph (beacon_in_R1 7))
              {| Actor := 8; Class := Beacon_Class; StreamingLevelName := "R2" |} tt tt)
    as (Hadd & _).
  etransitivity; [apply (Hadd "R1"); discriminate | reflexivity].
Defined.

End RoutingMap.

(** ** UGameRepGraphNode_AlwaysRelevant_ForConnection over several gathers *)

Module ConnectionRounds.

Import ActorRepList AlwaysRelevantForConnection.

Local Open Scope Z_scope.

(** The connection as the next gather finds it: the per-connection actor
    infos are those the previous gather left. *)
Definition connection_after {PastT : Type} (conn : UNetReplicationGraphConnection)
    (r : GatherResult PastT) : UNetReplicationGraphConnection :=
  {| ConnectionOrderNum := ConnectionOrderNum conn;
     ActorInfoMap := gr_ActorInfoMap PastT r |}.

(** The node with another list of tracked streaming levels, as the two
    visibility callbacks leave it. *)
Definition with_levels {PastT : Type}
    (node : UGameRepGraphNode_AlwaysRelevant_ForConnection PastT) (levels : list string)
  : UGameRepGraphNode_AlwaysRelevant_ForConnection PastT :=
  {| ReplicationActorList := ReplicationActorList PastT node;
     AlwaysRelevantStreamingLevelsNeedingReplication := levels;
     bInitializedPlayerState := bInitializedPlayerState PastT node;
     PastRelevantActorMap := PastRelevantActorMap PastT node;
     GameplayDebugger := GameplayDebugger PastT node |}.

(** *** Lists *)

Lemma filter_Permutation {A} (g : A -> bool) (l l' : list A) :
  l ≡ₚ l' -> List.filter g l ≡ₚ List.filter g l'.
Proof.
  induction 1 as [|x l l' Hp IH|x y l|l l' l'' Hp IH Hp' IH']; cbn.
  - reflexivity.
  - destruct (g x); [now constructor | exact IH].
  - destruct (g x), (g y); try reflexivity. apply perm_swap.
  - now rewrite IH.
Qed.

Lemma filter_idempotent {A} (g : A -> bool) (l : list A) :
  List.filter g (List.filter g l) = List.filter g l.
Proof.
  induction l as [|x l IH]; cbn; [reflexivity|].
  destruct (g x) eqn:E; cbn; [|exact IH]. now rewrite E, IH.
Qed.

Lemma filter_pointwise {A} (g h : A -> bool) (l : list A) :
  (forall x, g x = h x) -> List.filter g l = List.filter h l.
Proof. intros E. induction l as [|x l IH]; cbn; [reflexivity|]. now rewrite E, IH. Qed.

Lemma omap_pointwise {A B} (g h : A -> option B) (l : list A) :
  (forall x, g x = h x) -> omap g l = omap h l.
Proof. intros E. induction l as [|x l IH]; cbn; [reflexivity|]. now rewrite E, IH. Qed.

Lemma omap_filter {A B} (c : A -> option B) (g : A -> bool) (l : list A) :
  (forall x, g x = false -> c x = None) -> omap c (List.filter g l) = omap c l.
Proof.
  intros H. induction l as [|x l IH]; cbn; [reflexivity|].
  destruct (g x) eqn:E; cbn; [now rewrite IH|]. now rewrite (H x E).
Qed.

Lemma still_tracked_pointwise LevelActors (d d' : nat -> bool) level :
  (forall a, d a = d' a) ->
  still_tracked LevelActors d level = still_tracked LevelActors d' level.
Proof.
  intros E. unfold still_tracked. destruct (LevelActors !! level) as [l|]; [|reflexivity].
  now rewrite (forallb_pointwise d d' l E).
Qed.

Lemma contribution_pointwise LevelActors (d d' : nat -> bool) level :
  (forall a, d a = d' a) ->
  contribution LevelActors d level = contribution LevelActors d' level.
Proof.
  intros E. unfold contribution. destruct (LevelActors !! level) as [l|]; [|reflexivity].
  now rewrite (forallb_pointwise d d' l E).
Qed.

Lemma untracked_contributes_nothing LevelActors d level :
  still_tracked LevelActors d level = false ->
  contribution LevelActors d level = None.
Proof.
  unfold still_tracked, contribution.
  destruct (LevelActors !! level) as [l|]; [|reflexivity].
  destruct (0 <? length l)%nat; [|discriminate]. cbn [andb].
  intros ->. reflexivity.
Qed.

Lemma untracked_warns_nothing LevelActors d level :
  still_tracked LevelActors d level = false ->
  warning_of LevelActors level = None.
Proof.
  unfold still_tracked, warning_of.
  destruct (LevelActors !! level) as [l|]; [|reflexivity].
  destruct (0 <? length l)%nat; [reflexivity | discriminate].
Qed.

Section Rounds.

Variable Cast_APlayerController : nat -> option APlayerController.
Variable Cast_ACharacter : nat -> bool.
Variable DefaultActorInfo : FConnectionReplicationActorInfo.
Variable PastRelevantActorMapT : Type.
Variable PastRelevantActorMap_FindOrAdd : nat -> PastRelevantActorMapT -> PastRelevantActorMapT.
Variable UpdateCachedRelevantActor :
  gmap nat FConnectionReplicationActorInfo -> nat -> nat -> CachedSlot ->
  PastRelevantActorMapT ->
  gmap nat FConnectionReplicationActorInfo * PastRelevantActorMapT.
Variable CleanupCachedRelevantActors : PastRelevantActorMapT -> PastRelevantActorMapT.

Let step :=
  Viewer_step Cast_APlayerController Cast_ACharacter DefaultActorInfo
    PastRelevantActorMapT PastRelevantActorMap_FindOrAdd UpdateCachedRelevantActor.
Let Gather :=
  GatherActorListsForConnection Cast_APlayerController Cast_ACharacter DefaultActorInfo
    PastRelevantActorMapT PastRelevantActorMap_FindOrAdd UpdateCachedRelevantActor
    CleanupCachedRelevantActors.
Let dormant := IsDormantOnConnection DefaultActorInfo.

Lemma Viewer_step_NoDup c f st v :
  NoDup (vl_List _ st) -> NoDup (vl_List _ (step c f st v)).
Proof.
  intros H. unfold step, Viewer_step.
  destruct (Cast_APlayerController (InViewer v)) as [PC|];
    [|cbn; now repeat apply RoutingMap.ConditionalAdd_NoDup].
  destruct (bReplicatePS c f); destruct (PlayerState PC) as [PS|];
    destruct (GetPawn PC) as [Pawn|];
    try destruct (Cast_ACharacter Pawn);
    try destruct (UpdateCachedRelevantActor _ Pawn _ LastViewer _) as [m' past'];
    try case_bool_decide;
    destruct (Cast_ACharacter (ViewTarget v));
    try destruct (UpdateCachedRelevantActor _ (ViewTarget v) _ LastViewTarget _);
    cbn [vl_List]; now repeat apply RoutingMap.ConditionalAdd_NoDup.
Qed.

Lemma ViewerLoop_NoDup c f vs :
  forall st, NoDup (vl_List _ st) -> NoDup (vl_List _ (fold_left (step c f) vs st)).
Proof.
  induction vs as [|v vs IH]; intros st H; cbn [fold_left]; [exact H|].
  now apply IH, Viewer_step_NoDup.
Qed.

(** X19.  The list a gather builds from the viewers holds every viewer and
    every view target and holds no actor twice, however many viewers share
    an actor; the node's own list, with the gameplay debugger, holds no
    actor twice either. *)
Theorem gathered_viewer_list_has_no_duplicates :
  forall LevelActors node conn Viewers f out,
    let r := Gather LevelActors node conn Viewers f out in
    exists L,
      gr_Out _ r !! length out = Some L /\
      NoDup L /\
      (forall v, v ∈ Viewers -> InViewer v ∈ L /\ ViewTarget v ∈ L) /\
      NoDup (ReplicationActorList _ (gr_Node _ r)).
Proof.
  intros LevelActors node conn Viewers f out. cbn zeta.
  eexists. split; [apply Gather_viewer_list|].
  match goal with
  | |- NoDup ?L /\ _ => assert (HL : NoDup L)
  end.
  { apply ViewerLoop_NoDup. cbn. apply NoDup_nil_2. }
  split; [exact HL|]. split.
  - intros v Hv. split; apply ViewerLoop_list; right; exists v;
      (split; [exact Hv|]); unfold added_by; auto.
  - unfold Gather, GatherActorListsForConnection. cbn [gr_Node ReplicationActorList].
    destruct (GameplayDebugger _ node); [apply RoutingMap.ConditionalAdd_NoDup|];
      exact HL.
Qed.

(** From here on the inherited bookkeeping of cached pawns is taken to leave
    the dormancy flags of the connection alone. *)
Hypothesis UpdateCachedRelevantActor_keeps_dormancy :
  forall m NewActor conn slot past b,
    dormant (fst (UpdateCachedRelevantActor m NewActor conn slot past)) b = dormant m b.

Let levels_of := Gather_levels Cast_APlayerController Cast_ACharacter DefaultActorInfo
  PastRelevantActorMapT PastRelevantActorMap_FindOrAdd UpdateCachedRelevantActor
  CleanupCachedRelevantActors UpdateCachedRelevantActor_keeps_dormancy.

(** X20.  A gather changes no dormancy flag of the connection, so that a
    second gather over the same streaming level lists, with whatever viewers
    and at whatever tick, tracks the same levels as the first one left,
    gathers the same level lists and logs the same warnings, up to their
    order: the warning about an empty list is repeated by every gather. *)
Theorem repeated_gather_is_stable :
  forall LevelActors node conn Viewers f out Viewers' f' out',
    let r := Gather LevelActors node conn Viewers f out in
    let r' := Gather LevelActors (gr_Node _ r) (connection_after conn r) Viewers' f' out' in
    (forall a, dormant (gr_ActorInfoMap _ r) a = dormant (ActorInfoMap conn) a) /\
    AlwaysRelevantStreamingLevelsNeedingReplication _ (gr_Node _ r')
      ≡ₚ AlwaysRelevantStreamingLevelsNeedingReplication _ (gr_Node _ r) /\
    (exists L L' lists lists',
        gr_Out _ r = out ++ [L] ++ lists /\
        gr_Out _ r' = out' ++ [L'] ++ lists' /\
        lists' ≡ₚ lists) /\
    gr_Log _ r' ≡ₚ gr_Log _ r.
Proof.
  intros LevelActors node conn Viewers f out Viewers' f' out'. cbn zeta.
  destruct (levels_of LevelActors node conn Viewers f out)
    as (Hl & (L & Hout) & Hlog & Hd).
  destruct (levels_of LevelActors
              (gr_Node _ (Gather LevelActors node conn Viewers f out))
              (connection_after conn (Gather LevelActors node conn Viewers f out))
              Viewers' f' out')
    as (Hl' & (L' & Hout') & Hlog' & _).
  cbn [connection_after ActorInfoMap] in Hl', Hout', Hlog'.
  fold Gather in Hl, Hout, Hlog, Hd, Hl', Hout', Hlog'. fold dormant in Hd.
  set (r := Gather LevelActors node conn Viewers f out) in *.
  set (d := IsDormantOnConnection DefaultActorInfo (ActorInfoMap conn)) in *.
  set (d1 := IsDormantOnConnection DefaultActorInfo (gr_ActorInfoMap _ r)) in *.
  set (levels := AlwaysRelevantStreamingLevelsNeedingReplication _ node) in *.
  set (levels1 := AlwaysRelevantStreamingLevelsNeedingReplication _ (gr_Node _ r)) in *.
  assert (Hst : forall x, still_tracked LevelActors d1 x = still_tracked LevelActors d x).
  { intros x. apply still_tracked_pointwise. exact Hd. }
  assert (Hc : forall x, contribution LevelActors d1 x = contribution LevelActors d x).
  { intros x. apply contribution_pointwise. exact Hd. }
  split; [exact Hd|]. split; [|split].
  - rewrite Hl'. rewrite (filter_pointwise _ _ _ Hst).
    rewrite (filter_Permutation _ _ _ Hl), filter_idempotent. symmetry. exact Hl.
  - exists L, L', (omap (contribution LevelActors d) (rev levels)),
      (omap (contribution LevelActors d1) (rev levels1)).
    split; [exact Hout|]. split; [exact Hout'|].
    rewrite (omap_pointwise _ _ _ Hc).
    rewrite <- (Permutation_rev levels1), <- (Permutation_rev levels), Hl.
    rewrite omap_filter; [reflexivity|]. apply untracked_contributes_nothing.
  - rewrite Hlog', Hlog.
    rewrite <- (Permutation_rev levels1), <- (Permutation_rev levels), Hl.
    rewrite omap_filter; [reflexivity|]. apply untracked_warns_nothing.
Qed.

(** X21.  [OnClientLevelVisibilityAdd] does not look whether the level is
    tracked already: when a level becomes visible twice, every gather hands
    out its list twice for as long as one of its actors is not dormant, and
    one [OnClientLevelVisibilityRemove] then drops both entries. *)
Theorem level_made_visible_twice_is_gathered_twice :
  forall LevelActors node conn Viewers f out levels level RepList a,
    LevelActors !! level = Some RepList ->
    a ∈ RepList ->
    dormant (ActorInfoMap conn) a = false ->
    let tracked :=
      OnClientLevelVisibilityAdd (OnClientLevelVisibilityAdd levels level) level in
    let r := Gather LevelActors (with_levels node tracked) conn Viewers f out in
    (exists L rest, gr_Out _ r = out ++ [L; RepList; RepList] ++ rest) /\
    (level ∉ OnClientLevelVisibilityRemove
               (AlwaysRelevantStreamingLevelsNeedingReplication _ (gr_Node _ r)) level) /\
    OnClientLevelVisibilityRemove tracked level
      = OnClientLevelVisibilityRemove levels level.
Proof.
  intros LevelActors node conn Viewers f out levels level RepList a Hlist Ha Hd.
  cbn zeta.
  destruct (levels_of LevelActors
              (with_levels node
                 (OnClientLevelVisibilityAdd (OnClientLevelVisibilityAdd levels level) level))
              conn Viewers f out)
    as (_ & (L & Hout) & _).
  fold Gather in Hout.
  cbn [with_levels AlwaysRelevantStreamingLevelsNeedingReplication] in Hout.
  assert (Hc : contribution LevelActors (IsDormantOnConnection DefaultActorInfo
                                           (ActorInfoMap conn)) level = Some RepList).
  { unfold contribution. rewrite Hlist.
    assert (Hlen : (0 <? length RepList)%nat = true).
    { destruct RepList; [now apply elem_of_nil in Ha | reflexivity]. }
    assert (Hfa : forallb (IsDormantOnConnection DefaultActorInfo (ActorInfoMap conn))
                    RepList = false).
    { destruct (forallb _ RepList) eqn:E; [|reflexivity].
      rewrite forallb_forall in E. fold dormant in E.
      rewrite (E a) in Hd; [discriminate|]. now apply list_elem_of_In. }
    now rewrite Hlen, Hfa. }
  split; [|split].
  - exists L. eexists. rewrite Hout. unfold OnClientLevelVisibilityAdd.
    rewrite !rev_unit. cbn [omap list_omap app]. rewrite Hc. reflexivity.
  - unfold OnClientLevelVisibilityRemove. rewrite list_elem_of_In, filter_In.
    intros [_ H]. rewrite bool_decide_eq_true_2 in H by reflexivity. discriminate.
  - unfold OnClientLevelVisibilityRemove, OnClientLevelVisibilityAdd.
    rewrite !List.filter_app. cbn [List.filter].
    rewrite bool_decide_eq_true_2 by reflexivity. cbn [negb]. now rewrite !app_nil_r.
Qed.

End Rounds.

Lemma gathered_viewer_list_has_no_duplicates_witness :
  exists L,
    gr_Out unit (demo_Gather demo_LevelActors demo_node demo_connection demo_viewers 0 [])
      !! 0%nat = Some L /\
    NoDup L /\ 100%nat ∈ L.
Proof.
  destruct (gathered_viewer_list_has_no_duplicates
              demo_Cast_APlayerController (fun _ => false) demo_DefaultActorInfo unit
              (fun _ p => p) (fun m _ _ _ p => (m, p)) (fun p => p)
              demo_LevelActors demo_node demo_connection demo_viewers 0 [])
    as (L & HL & Hnd & Hin & _).
  exists L. split; [exact HL|]. split; [exact Hnd|].
  apply (Hin {| Connection := 0%nat; InViewer := 100%nat; ViewTarget := 100%nat |}).
  apply list_elem_of_here.
Defined.

Lemma repeated_gather_is_stable_witness :
  gr_Log unit
    (demo_Gather demo_LevelActors_emptied (gr_Node unit demo_emptied_gather)
       (connection_after demo_connection demo_emptied_gather) demo_viewers 1 [])
    ≡ₚ gr_Log unit demo_emptied_gather.
Proof.
  apply (repeated_gather_is_stable
           demo_Cast_APlayerController (fun _ => false) demo_DefaultActorInfo unit
           (fun _ p => p) (fun m _ _ _ p => (m, p)) (fun p => p)
           (fun m NewActor conn slot past b => eq_refl)
           demo_LevelActors_emptied demo_node demo_connection demo_viewers 0 []
           demo_viewers 1 []).
Defined.

Lemma level_made_visible_twice_is_gathered_twice_witness :
  exists L rest,
    gr_Out unit
      (demo_Gather demo_LevelActors
         (with_levels demo_node
            (OnClientLevelVisibilityAdd (OnClientLevelVisibilityAdd [] "R1") "R1"))
         demo_connection demo_viewers 0 [])
    = [] ++ [L; [1; 2]%nat; [1; 2]%nat] ++ rest.
Proof.
  apply (level_made_visible_twice_is_gathered_twice
           demo_Cast_APlayerController (fun _ => false) demo_DefaultActorInfo unit
           (fun _ p => p) (fun m _ _ _ p => (m, p)) (fun p => p)
           (fun m NewActor conn slot past b => eq_refl)
           demo_LevelActors demo_node demo_connection demo_viewers 0 [] [] "R1"
           [1; 2]%nat 1%nat).
  - reflexivity.
  - apply list_elem_of_here.
  - reflexivity.
Defined.

End ConnectionRounds.
